(** * telehele: the adaptive transfer pipeline

    A shallow embedding of the channel downloader
    ([java/scripts/download-channel.js]) and of the helpers it relies on
    ([java/modules/messages.js], which bundles the message adapters, the
    file helper and the media helper), together with the properties the
    specification states about them.

    Conventions.
    - JavaScript numbers that hold message ids, byte counts, counters and
      millisecond clock readings are integers ([Z]); numbers that hold
      ratios, speeds and delays are rationals ([Q]).  The one place where
      the rounding of IEEE doubles could matter (the speed monitor) takes
      the rounding function as a parameter.
    - A JavaScript [Error] is its [message] string.
    - [async] code is sequential here: every [await] runs the awaited
      computation to completion.  The program is single threaded, and the
      functions below are never entered twice at the same time except for
      the workers of [downloadBatch], which are run in index order.
    - The Telegram client, the clock, the timers and the prompts are the
      environment: a [Client] record of operations over an environment
      state, about which nothing is assumed unless a theorem says so. *)

From Stdlib Require Import ZArith QArith Qminmax Qround String Ascii List Lia Lqa.
From Stdlib Require Import DecimalString DecimalZ DecimalPos DecimalFacts.
From stdpp Require Import base option list gmap strings sorting.

Open Scope Z_scope.

(* ===================================================================== *)
(** * JavaScript primitives *)
(* ===================================================================== *)

Module Js.

Definition chars := list ascii.

Definition slash : ascii := "/"%char.
Definition dot : ascii := "."%char.
Definition underscore : ascii := "_"%char.
Definition minus : ascii := "-"%char.

Definition to_chars (s : string) : chars := list_ascii_of_string s.
Definition of_chars (l : chars) : string := string_of_list_ascii l.

(** [s.includes(needle)] *)
Definition includes (needle s : string) : bool :=
  match String.index 0 needle s with Some _ => true | None => false end.

Definition is_digit (c : ascii) : bool :=
  let n := nat_of_ascii c in (48 <=? n)%nat && (n <=? 57)%nat.

Definition digit_value (c : ascii) : Z := Z.of_nat (nat_of_ascii c) - 48.

(** The first maximal run of decimal digits: [s.match(/\d+/)?.[0]]. *)
Fixpoint take_digits (l : chars) : chars :=
  match l with
  | c :: r => if is_digit c then c :: take_digits r else []
  | [] => []
  end.

Fixpoint first_digits (l : chars) : option chars :=
  match l with
  | [] => None
  | c :: r => if is_digit c then Some (c :: take_digits r) else first_digits r
  end.

(** [parseInt] on a string of decimal digits. *)
Definition parse_digits (l : chars) : Z :=
  fold_left (fun acc c => 10 * acc + digit_value c) l 0.

(** [parseInt(msg.match(/\d+/)?.[0] || dflt)] *)
Definition parseInt_first (msg : string) (dflt : Z) : Z :=
  match first_digits (to_chars msg) with
  | Some ds => parse_digits ds
  | None => dflt
  end.

(** [`${n}`] for an integer [n]. *)
Definition string_of_Z (n : Z) : string := NilZero.string_of_int (Z.to_int n).

(** [Array.prototype.sort] with the comparator [(a, b) => key a - key b]:
    the sort is stable, so it is the insertion sort below ([x] comes from
    the left of [l] and stays in front of the elements with an equal
    key). *)
Section Sort.
Context {A : Type} (key : A -> Z).

Fixpoint insert_by (x : A) (l : list A) : list A :=
  match l with
  | [] => [x]
  | y :: r => if key y <? key x then y :: insert_by x r else x :: y :: r
  end.

Definition sort_by (l : list A) : list A := foldr insert_by [] l.

(** The order that [sort_by] establishes. *)
Definition key_le (a b : A) : Prop := key a <= key b.
End Sort.

End Js.

(* ===================================================================== *)
(** * Node's [path] module (POSIX flavour) *)
(* ===================================================================== *)

(** The functions of Node's [path] that the helpers call, following the
    documented behaviour of [path.posix]. *)
Module Path.
Import Js.

(** [rsplit c s] cuts [s] at its last [c]. *)
Fixpoint rsplit (c : ascii) (s : chars) : option (chars * chars) :=
  match s with
  | [] => None
  | x :: r =>
      match rsplit c r with
      | Some (pre, suf) => Some (x :: pre, suf)
      | None => if Ascii.eqb x c then Some ([], r) else None
      end
  end.

(** [s.split(c)] *)
Fixpoint split_on (c : ascii) (s : chars) : list chars :=
  match s with
  | [] => [[]]
  | x :: r =>
      if Ascii.eqb x c then [] :: split_on c r
      else match split_on c r with
           | seg :: segs => (x :: seg) :: segs
           | [] => [[x]]
           end
  end.

Definition nonempty (s : chars) : bool :=
  match s with [] => false | _ => true end.

(** The path components, empty ones (doubled or trailing slashes) dropped. *)
Definition segments (p : chars) : list chars := List.filter nonempty (split_on slash p).

(** The last component, trailing slashes ignored; empty when there is none. *)
Definition lastSegment (p : chars) : chars := List.last (segments p) [].

(** The extension of one component: from its last dot on, unless the
    component has no dot, starts with its only candidate dot, or is [..]. *)
Definition extname_seg (seg : chars) : chars :=
  match rsplit dot seg with
  | None => []
  | Some ([], _) => []
  | Some (_ :: _, suf) =>
      if decide (seg = [dot; dot]) then [] else dot :: suf
  end.

Definition extname_chars (p : chars) : chars := extname_seg (lastSegment p).

(** [path.extname(p)] *)
Definition extname (p : string) : string := of_chars (extname_chars (to_chars p)).

Fixpoint ends_with (suffix s : chars) : bool :=
  if decide (s = suffix) then true
  else match s with [] => false | _ :: r => ends_with suffix r end.

Definition basename_chars (p suffix : chars) : chars :=
  let seg := lastSegment p in
  match suffix with
  | [] => seg
  | _ =>
      if decide (suffix = p) then []
      else if ends_with suffix seg && negb (bool_decide (seg = suffix))
           then take (length seg - length suffix)%nat seg
           else seg
  end.

(** [path.basename(p, suffix)] *)
Definition basename (p suffix : string) : string :=
  of_chars (basename_chars (to_chars p) (to_chars suffix)).

(** [normalizeString]: the components are pushed on a stack (kept
    reversed); [.] is skipped and [..] pops, or is kept when nothing can
    be popped and the path is relative. *)
Definition normalize_step (allowAboveRoot : bool) (stack : list chars) (seg : chars)
  : list chars :=
  if decide (seg = [dot]) then stack
  else if decide (seg = [dot; dot]) then
    match stack with
    | top :: rest =>
        if decide (top = [dot; dot]) then
          (if allowAboveRoot then seg :: stack else stack)
        else rest
    | [] => if allowAboveRoot then [seg] else []
    end
  else seg :: stack.

Definition normalize_segments (allowAboveRoot : bool) (segs : list chars) : list chars :=
  rev (fold_left (normalize_step allowAboveRoot) segs []).

(** [segs.join("/")] *)
Fixpoint join_with_slash (segs : list chars) : chars :=
  match segs with
  | [] => []
  | [s] => s
  | s :: rest => s ++ slash :: join_with_slash rest
  end.

Definition is_absolute (p : chars) : bool :=
  match p with c :: _ => Ascii.eqb c slash | [] => false end.

Definition has_trailing_slash (p : chars) : bool :=
  match List.last (map Some p) None with
  | Some c => Ascii.eqb c slash
  | None => false
  end.

(** [path.normalize(p)] *)
Definition normalize_chars (p : chars) : chars :=
  match p with
  | [] => [dot]
  | _ =>
      let isAbs := is_absolute p in
      let body := join_with_slash (normalize_segments (negb isAbs) (segments p)) in
      match body with
      | [] => if isAbs then [slash]
              else if has_trailing_slash p then [dot; slash] else [dot]
      | _ =>
          let body' := if has_trailing_slash p then body ++ [slash] else body in
          if isAbs then slash :: body' else body'
      end
  end.

(** [path.join(...parts)] *)
Definition join_chars (parts : list chars) : chars :=
  match List.filter nonempty parts with
  | [] => [dot]
  | ps => normalize_chars (join_with_slash ps)
  end.

Definition join (parts : list string) : string :=
  of_chars (join_chars (map to_chars parts)).

Fixpoint drop_while (f : ascii -> bool) (l : chars) : chars :=
  match l with
  | c :: r => if f c then drop_while f r else l
  | [] => []
  end.

Definition is_slash (c : ascii) : bool := Ascii.eqb c slash.

(** [path.dirname(p)]: scanning from the end down to index 1, the
    trailing slashes and the last component are skipped and the path is
    cut at the slash in front of them. *)
Definition dirname_chars (p : chars) : chars :=
  match p with
  | [] => [dot]
  | c0 :: rest =>
      let hasRoot := is_slash c0 in
      match drop_while (fun c => negb (is_slash c)) (drop_while is_slash (rev rest)) with
      | [] => if hasRoot then [slash] else [dot]
      | _ :: more =>
          match more with
          | [] => if hasRoot then [slash; slash] else [c0]
          | _ => c0 :: rev more
          end
      end
  end.

Definition dirname (p : string) : string := of_chars (dirname_chars (to_chars p)).

End Path.

(* ===================================================================== *)
(** * Data model *)
(* ===================================================================== *)

(** What a JavaScript call produces: a value, a thrown [Error] (its
    message), or nothing at all when the call never finishes (the
    recursive and looping functions further down take a step budget). *)
Inductive outcome (A : Type) : Type :=
| Ret (a : A)
| Thrown (e : string)
| Diverged.
Arguments Ret {A} a.
Arguments Thrown {A} e.
Arguments Diverged {A}.

(** The fields of a Telegram message that the pipeline reads. *)
Record Attribute := {
  className : string;
  attr_fileName : string;
}.

Record Document := {
  doc_size : option Z;
  doc_mimeType : option string;
  doc_fileName : option string;
  doc_attributes : option (list Attribute);
}.

(** [photo.sizes], each entry with its optional [size]. *)
Record Photo := { photo_sizes : list (option Z) }.

Record Media := {
  webpage : bool;
  poll : bool;
  geo : bool;
  contact : bool;
  venue : bool;
  game : bool;
  invoice : bool;
  geoLive : bool;
  unsupported : bool;
  photo : option Photo;
  video : bool;
  audio : bool;
  voice : bool;
  document : option Document;
}.

Record Message := {
  id : Z;
  text : string;             (* message.message, [""] when absent *)
  media : option Media;
  sticker : bool;
  dice : bool;
  groupedId : bool;
  (* the remaining truthiness tests of [hasContent] *)
  has_document : bool;
  has_photo : bool;
  has_video : bool;
  has_audio : bool;
  has_voice : bool;
  has_poll : bool;
  has_geo : bool;
  has_contact : bool;
  has_venue : bool;
  has_webpage : bool;
}.

(** [a || b] on optional numbers: [undefined] and [0] are falsy. *)
Definition truthy_num (x : option Z) : bool :=
  match x with Some n => negb (n =? 0) | None => false end.

Definition num_or (x : option Z) (y : option Z) : option Z :=
  if truthy_num x then x else y.

(** [message.media?.document?.size || message.media?.photo?.sizes?.[0]?.size || 0] *)
Definition sizeHint (m : Message) : Z :=
  let docSize := d ← (media m ≫= document); doc_size d in
  let photoSize := p ← (media m ≫= photo); mjoin (head (photo_sizes p)) in
  match num_or (num_or docSize photoSize) (Some 0) with
  | Some n => n
  | None => 0
  end.

(* ===================================================================== *)
(** * The local file system *)
(* ===================================================================== *)

Module Fs.

(** A directory entry: its size, and whether [stat] and [unlink] succeed
    on it (a directory is an entry that cannot be unlinked). *)
Record Node := {
  n_size : Z;
  n_statOk : bool;
  n_unlinkOk : bool;
}.

Abbreviation FS := (gmap string Node).

Definition dirNode : Node := {| n_size := 4096; n_statOk := true; n_unlinkOk := false |}.
Definition fileNode (size : Z) : Node :=
  {| n_size := size; n_statOk := true; n_unlinkOk := true |}.

(** [fs.existsSync(p)] *)
Definition existsSync (fs : FS) (p : string) : bool := bool_decide (is_Some (fs !! p)).

(** [fs.statSync(p).size] *)
Definition statSync_size (fs : FS) (p : string) : outcome Z :=
  match fs !! p with
  | Some n => if n_statOk n then Ret (n_size n) else Thrown "EACCES: permission denied, stat"
  | None => Thrown "ENOENT: no such file or directory, stat"
  end.

(** [fs.unlinkSync(p)] *)
Definition unlinkSync (fs : FS) (p : string) : outcome unit * FS :=
  match fs !! p with
  | Some n =>
      if n_unlinkOk n then (Ret tt, delete p fs)
      else (Thrown "EPERM: operation not permitted, unlink", fs)
  | None => (Thrown "ENOENT: no such file or directory, unlink", fs)
  end.

(** [fs.mkdirSync(p, { recursive: true })]; the ancestors of [p] are not
    tracked. *)
Definition mkdirSync (fs : FS) (p : string) : FS :=
  match fs !! p with
  | Some _ => fs
  | None => <[p := dirNode]> fs
  end.

End Fs.

(* ===================================================================== *)
(** * The media helper ([utils/helper]) *)
(* ===================================================================== *)

Module Helper.
Import Js Fs.
Open Scope string_scope.

Definition starts_with (pre s : string) : bool := String.prefix pre s.

Definition is_alnum (c : ascii) : bool :=
  let n := nat_of_ascii c in
  ((48 <=? n) && (n <=? 57) || (65 <=? n) && (n <=? 90) || (97 <=? n) && (n <=? 122))%nat.

(** [string.replace(/[^a-zA-Z0-9]/g, "")] *)
Definition filterString (s : string) : string :=
  of_chars (List.filter is_alnum (to_chars s)).

Definition to_lower_char (c : ascii) : ascii :=
  let n := nat_of_ascii c in
  if ((65 <=? n) && (n <=? 90))%nat then ascii_of_nat (n + 32) else c.

Definition toLowerCase (s : string) : string :=
  of_chars (map to_lower_char (to_chars s)).

(** [s.split('.').pop()] *)
Definition after_last_dot (s : string) : string :=
  match Path.rsplit dot (to_chars s) with
  | Some (_, suf) => of_chars suf
  | None => s
  end.

Definition mem_string (x : string) (l : list string) : bool :=
  bool_decide (x ∈ l).

(** The [media.document] branch of [getMediaType]. *)
Definition documentType (doc : Document) : string :=
  let byMime :=
    match doc_mimeType doc with
    | Some mt =>
        if negb (bool_decide (mt = "")) then
          if starts_with "video/" mt then Some "video"
          else if starts_with "audio/" mt then Some "audio"
          else if bool_decide (mt = "application/pdf") then Some "pdf"
          else if includes "zip" mt || includes "archive" mt then Some "zip"
          else if starts_with "image/" mt then Some "image"
          else if includes "text/" mt then Some "document"
          else if includes "application/" mt then Some "document"
          else None
        else None
    | None => None
    end in
  match byMime with
  | Some t => t
  | None =>
      let byName :=
        match doc_fileName doc with
        | Some fn =>
            if negb (bool_decide (fn = "")) then
              let ext := after_last_dot (toLowerCase fn) in
              if mem_string ext ["mp4"; "avi"; "mkv"; "mov"; "wmv"; "flv"; "webm"; "m4v"; "3gp"; "ts"; "mts"]
              then Some "video"
              else if mem_string ext ["mp3"; "wav"; "flac"; "aac"; "ogg"; "wma"; "m4a"; "opus"]
              then Some "audio"
              else if mem_string ext ["jpg"; "jpeg"; "png"; "gif"; "bmp"; "webp"; "svg"; "tiff"]
              then Some "image"
              else if bool_decide (ext = "pdf") then Some "pdf"
              else if mem_string ext ["zip"; "rar"; "7z"; "tar"; "gz"] then Some "zip"
              else None
            else None
        | None => None
        end in
      match byName with
      | Some t => t
      | None => "document"
      end
  end.

(** [getMediaType(message)]; [None] is [undefined] (the function falls off
    its end), and the [TypeError] of reading [message.media.photo] on a
    message without media is caught and answered with ["unknown"]. *)
Definition getMediaType (message : option Message) : option string :=
  match message with
  | None => Some "unknown"
  | Some m =>
      let special :=
        match media m with
        | Some md =>
            if webpage md then Some "webpage"
            else if poll md then Some "poll"
            else if geo md then Some "geo"
            else if contact md then Some "contact"
            else if venue md then Some "venue"
            else if game md then Some "game"
            else if invoice md then Some "invoice"
            else if geoLive md then Some "live_location"
            else if unsupported md then Some "unsupported"
            else None
        | None => None
        end in
      match special with
      | Some t => Some t
      | None =>
          if sticker m then Some "sticker"
          else if dice m then Some "dice"
          else if groupedId m then Some "album"
          else match media m with
               | None => Some "unknown"
               | Some md =>
                   if bool_decide (is_Some (photo md)) then Some "image"
                   else if video md then Some "video"
                   else if audio md then Some "audio"
                   else if voice md then Some "audio"
                   else match document md with
                        | Some doc => Some (documentType doc)
                        | None => None
                        end
               end
      end
  end.

Section MediaPath.
(** The table of the [mime-db] package: for a MIME type, its entry (if
    any) with the entry's [extensions] array (if it has one). *)
Variable mimeDB : string -> option (option (list string)).

(** The file name [getMediaPath] starts from, before the id is added. *)
Definition sourceFileName (m : Message) (md : Media) : outcome string :=
  let fileName := string_of_Z (id m) ++ "_file" in
  let named :=
    match document md with
    | Some doc =>
        match doc_attributes doc with
        | Some attrs =>
            match List.find (fun e => bool_decide (className e = "DocumentAttributeFilename")) attrs with
            | Some fileNameObj => Ret (attr_fileName fileNameObj)
            | None =>
                match mt ← doc_mimeType doc; mimeDB mt with
                | None => Ret fileName
                | Some None => Thrown "TypeError: Cannot read properties of undefined (reading '0')"
                | Some (Some exts) =>
                    match head exts with
                    | Some ext => if bool_decide (ext = "") then Ret fileName
                                  else Ret (fileName ++ "." ++ ext)
                    | None => Ret fileName
                    end
                end
            end
        | None => Ret fileName
        end
    | None => Ret fileName
    end in
  match named with
  | Ret fileName =>
      let fileName := if video md then fileName ++ ".mp4" else fileName in
      let fileName := if audio md then fileName ++ ".mp3" else fileName in
      let fileName := if bool_decide (is_Some (photo md)) then fileName ++ ".jpg" else fileName in
      Ret fileName
  | other => other
  end.

(** [`${baseName}_${message.id}${ext}`] *)
Definition uniqueFileName (fileName : string) (msgId : Z) : string :=
  let ext := Path.extname fileName in
  let baseName := Path.basename fileName ext in
  baseName ++ "_" ++ string_of_Z msgId ++ ext.

(** [getMediaPath(message, outputFolder)] *)
Definition getMediaPath (message : option Message) (outputFolder : string) (fs : FS)
  : outcome string * FS :=
  match message with
  | None => (Ret "unknown", fs)
  | Some m =>
      match media m with
      | None => (Ret "unknown", fs)
      | Some md =>
          match sourceFileName m md with
          | Ret fileName =>
              match getMediaType message with
              | None => (Thrown "TypeError: Cannot read properties of undefined (reading 'replace')", fs)
              | Some mediaType =>
                  let folderType := filterString mediaType in
                  let finalPath :=
                    Path.join [outputFolder; folderType; uniqueFileName fileName (id m)] in
                  let dir := Path.dirname finalPath in
                  let fs' := if existsSync fs dir then fs else mkdirSync fs dir in
                  (Ret finalPath, fs')
              end
          | Thrown e => (Thrown e, fs)
          | Diverged => (Diverged, fs)
          end
      end
  end.

(** [checkFileExist(message, outputFolder)] *)
Definition checkFileExist (message : option Message) (outputFolder : string) (fs : FS)
  : outcome bool * FS :=
  match message with
  | None => (Ret false, fs)
  | Some m =>
      match media m with
      | None => (Ret false, fs)
      | Some _ =>
          match getMediaPath message outputFolder fs with
          | (Ret expectedPath, fs') =>
              if existsSync fs' expectedPath then
                match statSync_size fs' expectedPath with
                | Ret size => (Ret (0 <? size)%Z, fs')
                | _ => (Ret false, fs')
                end
              else (Ret false, fs')
          | (Thrown e, fs') => (Thrown e, fs')
          | (Diverged, fs') => (Diverged, fs')
          end
      end
  end.
End MediaPath.

End Helper.

(* ===================================================================== *)
(** * Numbers *)
(* ===================================================================== *)

Module Num.
Local Open Scope Q_scope.

Definition Qltb (x y : Q) : bool := negb (Qle_bool y x).
Definition Qgeb (x y : Q) : bool := Qle_bool y x.
Definition Qgtb (x y : Q) : bool := negb (Qle_bool x y).

Definition ofZ (n : Z) : Q := inject_Z n.

(** [x.toFixed(1)] read back as a number: [x] rounded to one decimal, a
    tie going away from zero. *)
Definition toFixed1 (x : Q) : Q :=
  let r (y : Q) : Q := inject_Z (Qfloor (y * 10 + (1 # 2))) / 10 in
  if Qltb x 0 then - r (- x) else r x.

Definition Qsum (l : list Q) : Q := fold_left Qplus l 0.

End Num.

(* ===================================================================== *)
(** * The channel downloader ([scripts/download-channel.js]) *)
(* ===================================================================== *)

Module DownloadChannel.
Import Js Fs Num.

(** ** Configuration constants *)

Definition MESSAGE_LIMIT_CONFIG : Z := 3000.
Definition RATE_LIMIT_DELAY_CONFIG : Q := 20.
Definition BATCH_SIZE : nat := 2.
Definition SPEED_STABILIZATION_DELAY : Q := 20.
Definition TARGET_SPEED_MBPS : Q := 500.

(** ** The state of a [DownloadChannel] instance

    The fields of [this] are grouped by the code that updates them.  The
    fields that are written and never read ([downloadToEndMode],
    [specificMessageIds], [skippedFiles], [lastFloodWait],
    [connectionPool], [forceFileOverwrite], [ensureCompleteDownload]) are
    left out. *)

Record SpeedMonitor := {
  startTime : Z;
  totalBytes : Z;
  currentSpeed : Q;
  targetSpeed : Q;
  speedHistory : list Q;
  stabilizationFactor : Q;
  consecutiveLowSpeed : Z;
  lastSpeedCheck : Z;
  peakSpeed : Q;
  averageSpeed : Q;
  speedVariance : Q;
  currentFileSize : Z;
}.

Definition set_speedHistory (v : list Q) (x : SpeedMonitor) : SpeedMonitor :=
  {| startTime := startTime x; totalBytes := totalBytes x;
     currentSpeed := currentSpeed x; targetSpeed := targetSpeed x; speedHistory := v;
     stabilizationFactor := stabilizationFactor x;
     consecutiveLowSpeed := consecutiveLowSpeed x; lastSpeedCheck := lastSpeedCheck x;
     peakSpeed := peakSpeed x; averageSpeed := averageSpeed x;
     speedVariance := speedVariance x; currentFileSize := currentFileSize x |}.
Definition set_currentFileSize (v : Z) (x : SpeedMonitor) : SpeedMonitor :=
  {| startTime := startTime x; totalBytes := totalBytes x;
     currentSpeed := currentSpeed x; targetSpeed := targetSpeed x;
     speedHistory := speedHistory x; stabilizationFactor := stabilizationFactor x;
     consecutiveLowSpeed := consecutiveLowSpeed x; lastSpeedCheck := lastSpeedCheck x;
     peakSpeed := peakSpeed x; averageSpeed := averageSpeed x;
     speedVariance := speedVariance x; currentFileSize := v |}.

Record Config := {
  outputFolder : string;  (* this.outputFolder *)
  uploadMode : bool;
  targetChannelId : option Z;  (* null until a target is chosen *)
  downloadableFiles : option (list string);  (* the keys set to true *)
  selectiveMode : bool;
  startFromMessageId : Z;
}.

Definition set_outputFolder (v : string) (x : Config) : Config :=
  {| outputFolder := v; uploadMode := uploadMode x;
     targetChannelId := targetChannelId x; downloadableFiles := downloadableFiles x;
     selectiveMode := selectiveMode x; startFromMessageId := startFromMessageId x |}.
Definition set_uploadMode (v : bool) (x : Config) : Config :=
  {| outputFolder := outputFolder x; uploadMode := v;
     targetChannelId := targetChannelId x; downloadableFiles := downloadableFiles x;
     selectiveMode := selectiveMode x; startFromMessageId := startFromMessageId x |}.
Definition set_targetChannelId (v : option Z) (x : Config) : Config :=
  {| outputFolder := outputFolder x; uploadMode := uploadMode x; targetChannelId := v;
     downloadableFiles := downloadableFiles x; selectiveMode := selectiveMode x;
     startFromMessageId := startFromMessageId x |}.
Definition set_downloadableFiles (v : option (list string)) (x : Config) : Config :=
  {| outputFolder := outputFolder x; uploadMode := uploadMode x;
     targetChannelId := targetChannelId x; downloadableFiles := v;
     selectiveMode := selectiveMode x; startFromMessageId := startFromMessageId x |}.
Definition set_selectiveMode (v : bool) (x : Config) : Config :=
  {| outputFolder := outputFolder x; uploadMode := uploadMode x;
     targetChannelId := targetChannelId x; downloadableFiles := downloadableFiles x;
     selectiveMode := v; startFromMessageId := startFromMessageId x |}.
Definition set_startFromMessageId (v : Z) (x : Config) : Config :=
  {| outputFolder := outputFolder x; uploadMode := uploadMode x;
     targetChannelId := targetChannelId x; downloadableFiles := downloadableFiles x;
     selectiveMode := selectiveMode x; startFromMessageId := v |}.

Record Counters := {
  requestCount : Z;
  lastRequestTime : Z;
  totalDownloaded : Z;
  totalUploaded : Z;
  totalMessages : Z;
  totalProcessedMessages : Z;
  batchCounter : Z;
  connectionHealth : Z;
}.

Definition set_requestCount (v : Z) (x : Counters) : Counters :=
  {| requestCount := v; lastRequestTime := lastRequestTime x;
     totalDownloaded := totalDownloaded x; totalUploaded := totalUploaded x;
     totalMessages := totalMessages x;
     totalProcessedMessages := totalProcessedMessages x;
     batchCounter := batchCounter x; connectionHealth := connectionHealth x |}.
Definition set_lastRequestTime (v : Z) (x : Counters) : Counters :=
  {| requestCount := requestCount x; lastRequestTime := v;
     totalDownloaded := totalDownloaded x; totalUploaded := totalUploaded x;
     totalMessages := totalMessages x;
     totalProcessedMessages := totalProcessedMessages x;
     batchCounter := batchCounter x; connectionHealth := connectionHealth x |}.
Definition set_totalDownloaded (v : Z) (x : Counters) : Counters :=
  {| requestCount := requestCount x; lastRequestTime := lastRequestTime x;
     totalDownloaded := v; totalUploaded := totalUploaded x;
     totalMessages := totalMessages x;
     totalProcessedMessages := totalProcessedMessages x;
     batchCounter := batchCounter x; connectionHealth := connectionHealth x |}.
Definition set_totalUploaded (v : Z) (x : Counters) : Counters :=
  {| requestCount := requestCount x; lastRequestTime := lastRequestTime x;
     totalDownloaded := totalDownloaded x; totalUploaded := v;
     totalMessages := totalMessages x;
     totalProcessedMessages := totalProcessedMessages x;
     batchCounter := batchCounter x; connectionHealth := connectionHealth x |}.
Definition set_totalMessages (v : Z) (x : Counters) : Counters :=
  {| requestCount := requestCount x; lastRequestTime := lastRequestTime x;
     totalDownloaded := totalDownloaded x; totalUploaded := totalUploaded x;
     totalMessages := v; totalProcessedMessages := totalProcessedMessages x;
     batchCounter := batchCounter x; connectionHealth := connectionHealth x |}.
Definition set_totalProcessedMessages (v : Z) (x : Counters) : Counters :=
  {| requestCount := requestCount x; lastRequestTime := lastRequestTime x;
     totalDownloaded := totalDownloaded x; totalUploaded := totalUploaded x;
     totalMessages := totalMessages x; totalProcessedMessages := v;
     batchCounter := batchCounter x; connectionHealth := connectionHealth x |}.
Definition set_batchCounter (v : Z) (x : Counters) : Counters :=
  {| requestCount := requestCount x; lastRequestTime := lastRequestTime x;
     totalDownloaded := totalDownloaded x; totalUploaded := totalUploaded x;
     totalMessages := totalMessages x;
     totalProcessedMessages := totalProcessedMessages x; batchCounter := v;
     connectionHealth := connectionHealth x |}.
Definition set_connectionHealth (v : Z) (x : Counters) : Counters :=
  {| requestCount := requestCount x; lastRequestTime := lastRequestTime x;
     totalDownloaded := totalDownloaded x; totalUploaded := totalUploaded x;
     totalMessages := totalMessages x;
     totalProcessedMessages := totalProcessedMessages x;
     batchCounter := batchCounter x; connectionHealth := v |}.

Record Flood := {
  requestsInLastMinute : list Z;
  consecutiveFloodWaits : Z;
  adaptiveDelayMultiplier : Q;
  floodWaitHistory : list (Z * Z);  (* { timestamp, waitTime } *)
  optimalRequestRate : Q;
}.

Definition set_requestsInLastMinute (v : list Z) (x : Flood) : Flood :=
  {| requestsInLastMinute := v; consecutiveFloodWaits := consecutiveFloodWaits x;
     adaptiveDelayMultiplier := adaptiveDelayMultiplier x;
     floodWaitHistory := floodWaitHistory x;
     optimalRequestRate := optimalRequestRate x |}.
Definition set_consecutiveFloodWaits (v : Z) (x : Flood) : Flood :=
  {| requestsInLastMinute := requestsInLastMinute x; consecutiveFloodWaits := v;
     adaptiveDelayMultiplier := adaptiveDelayMultiplier x;
     floodWaitHistory := floodWaitHistory x;
     optimalRequestRate := optimalRequestRate x |}.
Definition set_adaptiveDelayMultiplier (v : Q) (x : Flood) : Flood :=
  {| requestsInLastMinute := requestsInLastMinute x;
     consecutiveFloodWaits := consecutiveFloodWaits x; adaptiveDelayMultiplier := v;
     floodWaitHistory := floodWaitHistory x;
     optimalRequestRate := optimalRequestRate x |}.
Definition set_floodWaitHistory (v : list (Z * Z)) (x : Flood) : Flood :=
  {| requestsInLastMinute := requestsInLastMinute x;
     consecutiveFloodWaits := consecutiveFloodWaits x;
     adaptiveDelayMultiplier := adaptiveDelayMultiplier x; floodWaitHistory := v;
     optimalRequestRate := optimalRequestRate x |}.
Definition set_optimalRequestRate (v : Q) (x : Flood) : Flood :=
  {| requestsInLastMinute := requestsInLastMinute x;
     consecutiveFloodWaits := consecutiveFloodWaits x;
     adaptiveDelayMultiplier := adaptiveDelayMultiplier x;
     floodWaitHistory := floodWaitHistory x; optimalRequestRate := v |}.

Record FileRef := {
  fileReferenceErrors : list Z;
  consecutiveFileRefErrors : Z;
}.

Definition set_fileReferenceErrors (v : list Z) (x : FileRef) : FileRef :=
  {| fileReferenceErrors := v;
     consecutiveFileRefErrors := consecutiveFileRefErrors x |}.
Definition set_consecutiveFileRefErrors (v : Z) (x : FileRef) : FileRef :=
  {| fileReferenceErrors := fileReferenceErrors x; consecutiveFileRefErrors := v |}.

Record Self := {
  config : Config;
  counters : Counters;
  flood : Flood;
  fileRef : FileRef;
  speedMonitor : option SpeedMonitor;  (* null until initializeSpeedMonitor *)
  speedBoostMode : bool;
}.

Definition set_config (v : Config) (x : Self) : Self :=
  {| config := v; counters := counters x; flood := flood x; fileRef := fileRef x;
     speedMonitor := speedMonitor x; speedBoostMode := speedBoostMode x |}.
Definition set_counters (v : Counters) (x : Self) : Self :=
  {| config := config x; counters := v; flood := flood x; fileRef := fileRef x;
     speedMonitor := speedMonitor x; speedBoostMode := speedBoostMode x |}.
Definition set_flood (v : Flood) (x : Self) : Self :=
  {| config := config x; counters := counters x; flood := v; fileRef := fileRef x;
     speedMonitor := speedMonitor x; speedBoostMode := speedBoostMode x |}.
Definition set_fileRef (v : FileRef) (x : Self) : Self :=
  {| config := config x; counters := counters x; flood := flood x; fileRef := v;
     speedMonitor := speedMonitor x; speedBoostMode := speedBoostMode x |}.
Definition set_speedMonitor (v : option SpeedMonitor) (x : Self) : Self :=
  {| config := config x; counters := counters x; flood := flood x;
     fileRef := fileRef x; speedMonitor := v; speedBoostMode := speedBoostMode x |}.
Definition set_speedBoostMode (v : bool) (x : Self) : Self :=
  {| config := config x; counters := counters x; flood := flood x;
     fileRef := fileRef x; speedMonitor := speedMonitor x; speedBoostMode := v |}.

(** A number that may be [-Infinity] ([Math.max()] of no arguments). *)
Inductive JsNum : Type :=
| NegInfinity
| Num (z : Z).

(** The record that [downloadBatch] produces for a message. *)
Record Downloaded := {
  d_message : Message;
  d_mediaPath : option string;
  d_hasContent : bool;
  d_downloadIndex : nat;
  d_failed : bool;
}.

(** ** Observable events

    What a run leaves behind, in the order it happened: the timers it
    waited on, the calls it made to the message adapters, and the log lines
    and bookkeeping steps that the properties below talk about. *)
Inductive Event : Type :=
| EvSleep (ms : Q)                        (* setTimeout(resolve, ms) *)
| EvRetryFailed (operationName : string) (attempt maxRetries : nat) (msg : string)
                                          (* retryOperation: "... failed (attempt a/max)" *)
| EvList (offsetId : JsNum)               (* getMessages called *)
| EvRefresh (ids : list Z)                (* getMessageDetail called *)
| EvFetch (msgId : Z) (mediaPath : string)   (* downloadMessageMedia called *)
| EvSend (msgId : Z) (mediaPath : option string)
                                          (* uploadMessageToChannel called *)
| EvDownloadFailed (msgId : Z) (attempt maxRetries : Z) (msg : string)
                                          (* downloadMessage: "Download attempt a/max failed" *)
| EvUploadStarting (queueIndex : nat) (msgId : Z)
                                          (* uploadBatch: "Sequential upload starting" *)
| EvUploadFinished (queueIndex : nat) (msgId : Z) (success : bool)
                                          (* uploadBatch: uploadResults.push({ success, ... }) *)
| EvBatchStart (batchIndex : Z) (ids : list Z)
                                          (* processBatch entered *)
| EvBatchError (batchIndex : Z) (msg : string)
                                          (* processBatch: "Batch error" *)
| EvBatchRetryFailed (msg : string).      (* processBatch: "Batch retry failed" *)

(** ** The environment

    The answers of the Telegram client and of the two large adapters of
    [modules/messages] that move the bytes, the clock and the timers.  A
    call into the environment ends: with a value or with an exception. *)
Inductive reply (A : Type) : Type :=
| Returns (a : A)
| Raises (msg : string).
Arguments Returns {A} a.
Arguments Raises {A} msg.

Record Client (R : Type) := {
  (* Date.now() *)
  cl_now : R -> Z;
  (* a timer of [ms] milliseconds runs out *)
  cl_elapse : Q -> R -> R;
  (* client.getMessages(channelId, { limit, offsetId, reverse }) *)
  cl_getMessages : Z -> Z -> JsNum -> bool -> R -> reply (list Message) * R;
  (* client.getMessages(channelId, { ids }) *)
  cl_getMessagesByIds : Z -> list Z -> R -> reply (list Message) * R;
  (* downloadMessageMedia(client, message, mediaPath, 1, 1, options): it
     catches every error itself and answers with a truthy or falsy value;
     [options] is determined by [isSingleFile] *)
  cl_downloadMessageMedia : Message -> string -> bool -> FS -> R -> (bool * FS) * R;
  (* uploadMessageToChannel(client, target, message, mediaPath, isSingleFile) *)
  cl_uploadMessageToChannel :
    Z -> Message -> option string -> bool -> FS -> R -> reply bool * R;
  (* client.connected, client.connect(), client.disconnect(), client.getMe() *)
  cl_connected : R -> bool;
  cl_connect : R -> reply unit * R;
  cl_disconnect : R -> reply unit * R;
  cl_getMe : R -> reply unit * R;
  (* getDialogName(client, id) *)
  cl_getDialogName : Z -> R -> reply string * R;
}.
Arguments cl_now {R} _ _.
Arguments cl_elapse {R} _ _ _.
Arguments cl_getMessages {R} _ _ _ _ _ _.
Arguments cl_getMessagesByIds {R} _ _ _ _.
Arguments cl_downloadMessageMedia {R} _ _ _ _ _ _.
Arguments cl_uploadMessageToChannel {R} _ _ _ _ _ _ _.
Arguments cl_connected {R} _ _.
Arguments cl_connect {R} _ _.
Arguments cl_disconnect {R} _ _.
Arguments cl_getMe {R} _ _.
Arguments cl_getDialogName {R} _ _ _.

(** ** The world of a run *)
Record World (R : Type) := {
  remote : R;             (* the environment's state *)
  disk : FS;              (* the local file system *)
  self : Self;            (* this *)
  trace : list Event;     (* oldest event first *)
}.
Arguments remote {R} _.
Arguments disk {R} _.
Arguments self {R} _.
Arguments trace {R} _.

Definition set_remote {R} (v : R) (x : World R) : World R :=
  {| remote := v; disk := disk x; self := self x; trace := trace x |}.
Definition set_disk {R} (v : FS) (x : World R) : World R :=
  {| remote := remote x; disk := v; self := self x; trace := trace x |}.
Definition set_self {R} (v : Self) (x : World R) : World R :=
  {| remote := remote x; disk := disk x; self := v; trace := trace x |}.
Definition set_trace {R} (v : list Event) (x : World R) : World R :=
  {| remote := remote x; disk := disk x; self := self x; trace := v |}.

(** ** The monad of the embedding: state, exceptions and a step budget *)
Definition St (S A : Type) : Type := S -> outcome A * S.

#[global] Instance St_ret {S} : MRet (St S) := fun A a s => (Ret a, s).
#[global] Instance St_bind {S} : MBind (St S) := fun A B f m s =>
  match m s with
  | (Ret a, s') => f a s'
  | (Thrown e, s') => (Thrown e, s')
  | (Diverged, s') => (Diverged, s')
  end.

(** [throw new Error(msg)] *)
Definition throw {S A} (msg : string) : St S A := fun s => (Thrown msg, s).

(** The step budget ran out. *)
Definition diverge {S A} : St S A := fun s => (Diverged, s).

(** [try { body } catch (error) { handler error }] *)
Definition try_catch {S A} (body : St S A) (handler : string -> St S A) : St S A :=
  fun s =>
    match body s with
    | (Thrown e, s') => handler e s'
    | other => other
    end.

(** [body] with its exception, if any, made a value. *)
Definition catching {S A} (body : St S A) : St S (A + string) :=
  try_catch (a ← body; mret (inl a)) (fun e => mret (inr e)).

Definition gets {S A} (f : S -> A) : St S A := fun s => (Ret (f s), s).
Definition modify {S} (f : S -> S) : St S unit := fun s => (Ret tt, f s).

(** [if (c) { body }] *)
Definition when {S} (c : bool) (body : St S unit) : St S unit :=
  if c then body else mret tt.

(** [for (const x of l) { body x }] *)
Fixpoint for_each {S A} (l : list A) (body : A -> St S unit) : St S unit :=
  match l with
  | [] => mret tt
  | x :: r => body x;; for_each r body
  end.

Section Pipeline.
Context {R : Type}.
(** The client and the adapters. *)
Variable cl : Client R.
(** The rounding of a real number to the nearest double.  Decimal
    literals that are not integers, and the results of multiplications
    and divisions, go through it; sums and products of integers are
    exact. *)
Variable fl : Q -> Q.
(** The table of the [mime-db] package. *)
Variable mimeDB : string -> option (option (list string)).

#[local] Abbreviation M := (St (World R)).
Local Open Scope Q_scope.

Definition fmul (a b : Q) : Q := fl (a * b).
Definition fdiv (a b : Q) : Q := fl (a / b).
Definition fadd (a b : Q) : Q := fl (a + b).

(** *** Access to the world *)

Definition the {A} (f : Self -> A) : M A := gets (fun w => f (self w)).
Definition modify_self (f : Self -> Self) : M unit :=
  modify (fun w => set_self (f (self w)) w).
Definition modify_counters (f : Counters -> Counters) : M unit :=
  modify_self (fun s => set_counters (f (counters s)) s).
Definition modify_flood (f : Flood -> Flood) : M unit :=
  modify_self (fun s => set_flood (f (flood s)) s).
Definition modify_fileRef (f : FileRef -> FileRef) : M unit :=
  modify_self (fun s => set_fileRef (f (fileRef s)) s).
Definition modify_config (f : Config -> Config) : M unit :=
  modify_self (fun s => set_config (f (config s)) s).

Definition emit (e : Event) : M unit :=
  modify (fun w => set_trace (trace w ++ [e]) w).

(** [Date.now()] *)
Definition now : M Z := gets (fun w => cl_now cl (remote w)).

(** [await new Promise((resolve) => setTimeout(resolve, ms))] *)
Definition sleep (ms : Q) : M unit :=
  emit (EvSleep ms);;
  modify (fun w => set_remote (cl_elapse cl ms (remote w)) w).

(** A call into the environment. *)
Definition call {A} (f : R -> reply A * R) : M A := fun w =>
  match f (remote w) with
  | (Returns a, r') => (Ret a, set_remote r' w)
  | (Raises msg, r') => (Thrown msg, set_remote r' w)
  end.

(** A synchronous call of the media helper, which may touch the disk. *)
Definition on_disk {A} (f : FS -> outcome A * FS) : M A := fun w =>
  match f (disk w) with
  | (r, fs') => (r, set_disk fs' w)
  end.

(** *** The message adapters of [modules/messages] *)

(** [getMessages(client, channelId, limit, offsetId, reverse)] *)
Definition getMessages (channelId limit : Z) (offsetId : JsNum) (reverse : bool)
  : M (list Message) :=
  if (channelId =? 0)%Z then throw "Client and channelId are required"
  else
    emit (EvList offsetId);;
    try_catch (call (cl_getMessages cl channelId limit offsetId reverse))
      (fun error => throw ("Failed to get messages: " ++ error)).

(** [getMessageDetail(client, channelId, messageIds)] *)
Definition getMessageDetail (channelId : Z) (messageIds : list Z) : M (list Message) :=
  if (channelId =? 0)%Z then throw "Client, channelId, and messageIds are required"
  else
    emit (EvRefresh messageIds);;
    try_catch (call (cl_getMessagesByIds cl channelId messageIds))
      (fun error => throw ("Failed to get message details: " ++ error)).

(** [downloadMessageMedia(client, message, mediaPath, 1, 1, downloadOptions)] *)
Definition downloadMessageMedia (message : Message) (mediaPath : string)
    (isSingleFile : bool) : M bool := fun w =>
  let w := set_trace (trace w ++ [EvFetch (id message) mediaPath]) w in
  match cl_downloadMessageMedia cl message mediaPath isSingleFile (disk w) (remote w) with
  | ((result, fs'), r') => (Ret result, set_remote r' (set_disk fs' w))
  end.

(** [uploadMessageToChannel(client, target, message, mediaPath, isSingleFile)] *)
Definition uploadMessageToChannel (target : Z) (message : Message)
    (mediaPath : option string) (isSingleFile : bool) : M bool :=
  emit (EvSend (id message) mediaPath);;
  fs ← gets disk;
  call (cl_uploadMessageToChannel cl target message mediaPath isSingleFile fs).

(** *** The speed monitor *)

(** The object that [initializeSpeedMonitor] creates at time [t]. *)
Definition newSpeedMonitor (t : Z) : SpeedMonitor :=
  {| startTime := t; totalBytes := 0; currentSpeed := 0;
     targetSpeed := TARGET_SPEED_MBPS * 1024 * 1024; speedHistory := [];
     stabilizationFactor := 3; consecutiveLowSpeed := 0; lastSpeedCheck := t;
     peakSpeed := 0; averageSpeed := 0; speedVariance := 0; currentFileSize := 0 |}.

Definition initializeSpeedMonitor : M unit :=
  t ← now;
  modify_self (set_speedMonitor (Some (newSpeedMonitor t))).

(** [speedMonitor.updateSpeed(bytes)] at time [t]; it also sets
    [this.speedBoostMode], which is the second component. *)
Definition updateSpeedAt (t : Z) (bytes : Z) (sm : SpeedMonitor) (boost : bool)
  : SpeedMonitor * bool :=
  let elapsed := fdiv (ofZ (t - startTime sm)) 1000 in
  let totalBytes' := (totalBytes sm + bytes)%Z in
  let currentSpeed' :=
    if Qgtb elapsed 0 then fdiv (ofZ (totalBytes' * 8)) elapsed else 0 in
  let peakSpeed' :=
    if Qgtb currentSpeed' (peakSpeed sm) then currentSpeed' else peakSpeed sm in
  let pushed := (speedHistory sm ++ [currentSpeed'])%list in
  let history' := if (10 <? length pushed)%nat then tail pushed else pushed in
  let avgSpeed :=
    fdiv (fold_left fadd history' 0) (ofZ (Z.of_nat (length history'))) in
  let currentSpeedMbps := fdiv currentSpeed' 1000000 in
  let F := stabilizationFactor sm in
  let low := consecutiveLowSpeed sm in
  let '(F1, low1, boost1) :=
    if Qltb currentSpeedMbps 25 then
      (Qmin 5 (fmul F (fl (125 # 100))), (low + 1)%Z, true)
    else if Qgeb currentSpeedMbps 30 then
      (Qmax 2 (fmul F (fl (95 # 100))), 0%Z, false)
    else
      (Qmin 4 (fmul F (fl (115 # 100))), low, boost) in
  let '(F2, low2, boost2) :=
    if (3 <? low1)%Z then (5, 0%Z, true) else (F1, low1, boost1) in
  ({| startTime := startTime sm; totalBytes := totalBytes';
      currentSpeed := currentSpeed'; targetSpeed := targetSpeed sm;
      speedHistory := history'; stabilizationFactor := F2;
      consecutiveLowSpeed := low2; lastSpeedCheck := lastSpeedCheck sm;
      peakSpeed := peakSpeed'; averageSpeed := avgSpeed;
      speedVariance := speedVariance sm; currentFileSize := currentFileSize sm |},
   boost2).

(** [this.speedMonitor.updateSpeed(bytes)]; every caller tests
    [this.speedMonitor] first. *)
Definition updateSpeed (bytes : Z) : M unit :=
  t ← now;
  modify_self (fun s =>
    match speedMonitor s with
    | Some sm =>
        let '(sm', boost') := updateSpeedAt t bytes sm (speedBoostMode s) in
        set_speedBoostMode boost' (set_speedMonitor (Some sm') s)
    | None => s
    end).

(** [speedMonitor.getOptimalDelay()] *)
Definition getOptimalDelay (sm : SpeedMonitor) (boost : bool) : Q :=
  let baseDelay := if boost then 5 else SPEED_STABILIZATION_DELAY in
  Qmax 5 (fdiv baseDelay (stabilizationFactor sm)).

(** [parseFloat(speedMonitor.getCurrentSpeedMbps())] *)
Definition getCurrentSpeedMbps (sm : SpeedMonitor) : Q :=
  toFixed1 (fdiv (currentSpeed sm) 1000000).

(** *** Flood-wait bookkeeping *)

(** [updateFloodWaitHistory(hadFloodWait, waitTime = 0)] *)
Definition updateFloodWaitHistory (hadFloodWait : bool) (waitTime : Z) : M unit :=
  t ← now;
  modify_flood (fun f =>
    let kept := List.filter (fun e => (t - e.1 <? 10 * 60 * 1000)%Z) (floodWaitHistory f) in
    if hadFloodWait then
      let history := (kept ++ [(t, waitTime)])%list in
      let recent := List.filter (fun e => (t - e.1 <? 5 * 60 * 1000)%Z) history in
      let f := set_consecutiveFloodWaits (consecutiveFloodWaits f + 1)%Z
                 (set_floodWaitHistory history f) in
      if (3 <? length recent)%nat then
        set_optimalRequestRate (Qmax 20 (fmul (optimalRequestRate f) (fl (8 # 10))))
          (set_adaptiveDelayMultiplier
             (Qmin 2 (fmul (adaptiveDelayMultiplier f) (fl (15 # 10)))) f)
      else if (length recent =? 1)%nat then
        set_adaptiveDelayMultiplier
          (Qmin (fl (15 # 10)) (fmul (adaptiveDelayMultiplier f) (fl (12 # 10)))) f
      else f
    else
      set_optimalRequestRate (Qmin 100 (fmul (optimalRequestRate f) (fl (105 # 100))))
        (set_adaptiveDelayMultiplier
           (Qmax (fl (3 # 10)) (fmul (adaptiveDelayMultiplier f) (fl (95 # 100))))
           (set_consecutiveFloodWaits 0%Z (set_floodWaitHistory kept f)))).

(** [ultraOptimizedWait(baseMs)] *)
Definition ultraOptimizedWait (baseMs : Q) : M unit :=
  sm ← the speedMonitor;
  match sm with
  | None => sleep (Qmax 1 (fdiv baseMs 8))
  | Some sm =>
      boost ← the speedBoostMode;
      let optimalDelay := getOptimalDelay sm boost in
      let ultraMinimalDelay := Qmin (fdiv baseMs 8) optimalDelay in
      let finalDelay :=
        if boost then Qmax 1 (fdiv ultraMinimalDelay 4) else Qmax 5 ultraMinimalDelay in
      sleep finalDelay
  end.

(** [checkRateLimit()] *)
Definition checkRateLimit : M unit :=
  t ← now;
  modify_flood (fun f =>
    set_requestsInLastMinute
      (List.filter (fun ts => (t - ts <? 60000)%Z) (requestsInLastMinute f) ++ [t])%list f);;
  modify_counters (fun c => set_requestCount (requestCount c + 1)%Z c);;
  f ← the flood;
  (if Qgtb (ofZ (Z.of_nat (length (requestsInLastMinute f)))) (optimalRequestRate f) then
     ultraOptimizedWait
       (Qmax 25 (fmul (fdiv 60000 (optimalRequestRate f)) (adaptiveDelayMultiplier f)))
   else
     ultraOptimizedWait
       (Qmax 5 (fmul RATE_LIMIT_DELAY_CONFIG (adaptiveDelayMultiplier f))));;
  modify_counters (set_lastRequestTime t).

(** The delay that [precisionDelay(ms)] asks the timer for. *)
Definition precisionDelayMs (sm : option SpeedMonitor) (boost : bool) (ms : Q) : Q :=
  match sm with
  | None => Qmax 5 (fdiv ms 3)
  | Some sm =>
      let speedFactor := stabilizationFactor sm in
      let currentSpeedMbps := getCurrentSpeedMbps sm in
      let targetDelay :=
        if Qltb currentSpeedMbps 20 then Qmax 5 (fdiv ms (fmul speedFactor 2))
        else if Qgeb currentSpeedMbps 30 then Qmax 10 (fdiv ms speedFactor)
        else Qmax 8 (fdiv ms (fmul speedFactor (fl (15 # 10)))) in
      if boost then Qmax 5 (fdiv targetDelay 2) else targetDelay
  end.

(** [precisionDelay(ms)] *)
Definition precisionDelay (ms : Q) : M unit :=
  sm ← the speedMonitor;
  boost ← the speedBoostMode;
  sleep (precisionDelayMs sm boost ms).

(** *** The retry engine *)

(** [retryOperation(operation, operationName, maxRetries = 5)]: the
    iterations [attempt], [attempt + 1], ... of its [for] loop; [budget]
    bounds their number.  [None] is [undefined]: the loop ended without a
    [return] or a [throw]. *)
Fixpoint retryFrom {A} (budget : nat) (operation : M A) (operationName : string)
    (maxRetries : nat) (attempt : nat) : M (option A) :=
  match budget with
  | O => mret None
  | S budget' =>
      if (attempt <=? maxRetries)%nat then
        try_catch
          (result ← operation;
           when (1 <? attempt)%nat (updateFloodWaitHistory false 0);;
           mret (Some result))
          (fun error =>
             emit (EvRetryFailed operationName attempt maxRetries error);;
             let next := retryFrom budget' operation operationName maxRetries (S attempt) in
             let transient :=
               if (attempt =? maxRetries)%nat then throw error
               else
                 precisionDelay (Qmin 500 (100 * ofZ (Z.of_nat attempt)));;
                 next in
             if includes "FLOOD_WAIT" error then
               let waitTime := parseInt_first error 60 in
               updateFloodWaitHistory true waitTime;;
               if (waitTime <=? 300)%Z then
                 precisionDelay (ofZ waitTime * 1000);;
                 next            (* continue *)
               else transient
             else transient)
      else mret None
  end.

Definition retryOperation {A} (operation : M A) (operationName : string)
    (maxRetries : nat) : M (option A) :=
  retryFrom maxRetries operation operationName maxRetries 1.

(** *** Files and message refresh *)

(** [deleteExistingFile(filePath)] *)
Definition deleteExistingFile (filePath : string) : M bool :=
  on_disk (fun fs =>
    if existsSync fs filePath then
      match unlinkSync fs filePath with
      | (Ret _, fs') => (Ret true, fs')
      | (_, fs') => (Ret false, fs')
      end
    else (Ret false, fs)).

(** [refreshAllChannelMessages(client, channelId)]; [None] is [null]. *)
Definition refreshAllChannelMessages (channelId : Z) : M (option (list Message)) :=
  try_catch
    (allMessages ← getMessages channelId MESSAGE_LIMIT_CONFIG (Num 0) true;
     match allMessages with
     | [] => mret (Some [])
     | _ =>
         refreshed ← getMessageDetail channelId (map id allMessages);
         mret (Some refreshed)
     end)
    (fun _ => mret None).

(** [refreshMessagesBatch(client, channelId, messageIds)] *)
Definition refreshMessagesBatch (channelId : Z) (messageIds : list Z)
  : M (option (list Message)) :=
  try_catch (refreshed ← getMessageDetail channelId messageIds; mret (Some refreshed))
    (fun _ => mret None).

(** The integers [lo], [lo + 1], ..., [hi]. *)
Definition Z_range (lo hi : Z) : list Z :=
  map (fun k => (lo + Z.of_nat k)%Z) (seq 0 (Z.to_nat (hi - lo + 1))).

Definition find_by_id (i : Z) (l : list Message) : option Message :=
  List.find (fun msg => (id msg =? i)%Z) l.

(** [refreshMessageWithStrategies(client, channelId, message, attempt)] *)
Definition refreshMessageWithStrategies (channelId : Z) (message : Message)
    (strategyAttempt : Z) : M (option Message) :=
  try_catch
    (if (strategyAttempt <=? 3)%Z then
       refreshed ← getMessageDetail channelId [id message];
       mret (head refreshed)
     else if (strategyAttempt <=? 6)%Z then
       let surroundingIds := Z_range (Z.max 1 (id message - 2)) (id message + 2) in
       refreshed ← getMessageDetail channelId surroundingIds;
       mret (find_by_id (id message) refreshed)
     else
       allRefreshed ← refreshAllChannelMessages channelId;
       mret (l ← allRefreshed; find_by_id (id message) l))
    (fun _ => mret None).

(** [trackFileReferenceError()] *)
Definition trackFileReferenceError : M unit :=
  t ← now;
  modify_fileRef (fun f =>
    set_consecutiveFileRefErrors (consecutiveFileRefErrors f + 1)%Z
      (set_fileReferenceErrors
         (List.filter (fun ts => (t - ts <? 30 * 60 * 1000)%Z)
            (fileReferenceErrors f ++ [t])%list) f)).

(** [resetFileReferenceTracking()] *)
Definition resetFileReferenceTracking : M unit :=
  modify_fileRef (fun f =>
    if (0 <? consecutiveFileRefErrors f)%Z then set_consecutiveFileRefErrors 0%Z f else f).

(** *** Download of one message *)

Definition maxRetriesFor (isSingleFile : bool) : Z := if isSingleFile then 8 else 15.

(** The size test of [downloadMessage]:
    [expectedSize === 0 || fileSize >= expectedSize * 0.95].  Sizes are
    integers; for sizes below 2^40 the comparison in doubles and the
    exact one agree, and the exact one is used. *)
Definition sizeVerified (expectedSize fileSize : Z) : bool :=
  (expectedSize =? 0)%Z || Qle_bool (ofZ expectedSize * (95 # 100)) (ofZ fileSize).

(** The [try] block of [downloadMessage] up to the (possible) refresh of
    [message] after an existing file was deleted: the path to download
    to, and the message to go on with. *)
Definition prepareDownload (channelId : Z) (message : Message) : M (string * Message) :=
  outputFolder ← the (fun s => outputFolder (config s));
  mediaPath ← on_disk (Helper.getMediaPath mimeDB (Some message) outputFolder);
  fileExists ← on_disk (Helper.checkFileExist mimeDB (Some message) outputFolder);
  if (fileExists : bool) then
    deleted ← deleteExistingFile mediaPath;
    if (deleted : bool) then
      refreshed ← refreshMessageWithStrategies channelId message 1;
      mret (mediaPath, default message refreshed)
    else mret (mediaPath, message)
  else mret (mediaPath, message).

(** The transfer: the directory of [mediaPath] is created if it is
    missing, and [downloadMessageMedia] is called. *)
Definition transfer (message : Message) (mediaPath : string)
    (isSingleFile : bool) : M bool :=
  on_disk (fun fs =>
    let dir := Path.dirname mediaPath in
    (Ret tt, if existsSync fs dir then fs else mkdirSync fs dir));;
  downloadMessageMedia message mediaPath isSingleFile.

(** The rest of the [try] block: the transfer and its verification. *)
Definition fetchAndVerify (message : Message) (mediaPath : string)
    (isSingleFile : bool) : M string :=
  result ← transfer message mediaPath isSingleFile;
  exists_ ← gets (fun w => existsSync (disk w) mediaPath);
  if result && exists_ then
    fileSize ← on_disk (fun fs => (statSync_size fs mediaPath, fs));
    let expectedSize := sizeHint message in
    if negb (sizeVerified expectedSize fileSize) && (0 <? expectedSize)%Z then
      deleteExistingFile mediaPath;;
      throw ("Incomplete download: " ++ Path.basename mediaPath "")
    else
      sm ← the speedMonitor;
      when (bool_decide (is_Some sm)) (updateSpeed fileSize);;
      modify_counters (fun c => set_totalDownloaded (totalDownloaded c + 1)%Z c);;
      resetFileReferenceTracking;;
      mret mediaPath
  else throw "Download verification failed".

(** The refresh ladder of the [catch] block: strategy attempts
    [strategyAttempt], ..., 8, until one returns a message. *)
Fixpoint refreshLadder (n : nat) (channelId : Z) (originalMessage : Message)
    (strategyAttempt : Z) : M (option Message) :=
  match n with
  | O => mret None
  | S n' =>
      refreshed ← refreshMessageWithStrategies channelId originalMessage strategyAttempt;
      match refreshed with
      | Some m => mret (Some m)
      | None =>
          precisionDelay (Qmin 5000 (1000 * ofZ strategyAttempt));;
          refreshLadder n' channelId originalMessage (strategyAttempt + 1)%Z
      end
  end.

(** The iterations of the [while (attempt < maxRetries)] loop of
    [downloadMessage]; [None] is [null].  A refresh that succeeds gives
    attempts back, so the loop has no bound of its own: [fuel] is the step
    budget. *)
Fixpoint downloadLoop (fuel : nat) (channelId : Z) (isSingleFile : bool)
    (originalMessage message : Message) (attempt : Z) : M (option string) :=
  match fuel with
  | O => diverge
  | S fuel' =>
      let maxRetries := maxRetriesFor isSingleFile in
      let onError (message : Message) (error : string) : M (option string) :=
        let attempt := (attempt + 1)%Z in
        emit (EvDownloadFailed (id message) attempt maxRetries error);;
        if includes "FILE_REFERENCE_EXPIRED" error then
          trackFileReferenceError;;
          refreshed ← refreshLadder 8 channelId originalMessage 1;
          match refreshed with
          | Some m =>
              downloadLoop fuel' channelId isSingleFile originalMessage m
                (Z.max 0 (attempt - 3))
          | None =>
              if (maxRetries <=? attempt)%Z then
                throw "FILE_REFERENCE_EXPIRED: All refresh strategies failed"
              else downloadLoop fuel' channelId isSingleFile originalMessage message attempt
          end
        else if (attempt =? maxRetries)%Z then throw error
        else
          precisionDelay
            (if isSingleFile then Qmin 2000 (300 * ofZ attempt)
             else Qmin 5000 (500 * ofZ attempt));;
          downloadLoop fuel' channelId isSingleFile originalMessage message attempt in
      if (attempt <? maxRetries)%Z then
        match media message with
        | None => mret None
        | Some _ =>
            prepared ← catching (prepareDownload channelId message);
            match prepared with
            | inr error => onError message error
            | inl (mediaPath, message) =>
                fetched ← catching (fetchAndVerify message mediaPath isSingleFile);
                match fetched with
                | inr error => onError message error
                | inl path => mret (Some path)
                end
            end
        end
      else mret None
  end.

(** [downloadMessage(client, message, channelId, isSingleFile)] *)
Definition downloadMessage (fuel : nat) (message : Message) (channelId : Z)
    (isSingleFile : bool) : M (option string) :=
  downloadLoop fuel channelId isSingleFile message message 0.

(** *** Connection health *)

(** [reconnectClient(client)] *)
Definition reconnectClient : M unit :=
  try_catch
    (connected ← gets (fun w => cl_connected cl (remote w));
     when connected (call (cl_disconnect cl);; precisionDelay 200);;
     call (cl_connect cl);;
     modify_counters (set_connectionHealth 100%Z);;
     precisionDelay 100)
    (fun error =>
       modify_counters (fun c =>
         set_connectionHealth (Z.max 0 (connectionHealth c - 20)) c);;
       throw error).

(** [ensureConnectionHealth(client)] *)
Definition ensureConnectionHealth : M unit :=
  try_catch
    (call (cl_getMe cl);;
     modify_counters (fun c =>
       set_connectionHealth (Z.min 100 (connectionHealth c + 5)) c))
    (fun _ =>
       modify_counters (fun c =>
         set_connectionHealth (Z.max 0 (connectionHealth c - 15)) c);;
       health ← the (fun s => connectionHealth (counters s));
       when (health <? 50)%Z reconnectClient).

(** *** Upload of one message *)

(** A channel id that is set: not [null] and not [0]. *)
Definition truthy_id (x : option Z) : option Z :=
  match x with
  | Some t => if (t =? 0)%Z then None else Some t
  | None => None
  end.

(** [uploadMessageToChannel] on [this.targetChannelId]; without a target
    the adapter throws at once. *)
Definition sendToTarget (message : Message) (mediaPath : option string)
    (isSingleFile : bool) : M bool :=
  target ← the (fun s => targetChannelId (config s));
  match truthy_id target with
  | Some t => uploadMessageToChannel t message mediaPath isSingleFile
  | None =>
      throw "Failed to upload message: Client, targetChannelId, and message are required"
  end.

(** The iterations of the [while (attempt < maxRetries)] loop of
    [uploadMessage]; every iteration that does not return adds one to
    [attempt], so [budget = maxRetries] iterations are enough. *)
Fixpoint uploadLoop (budget : nat) (message : Message) (mediaPath : option string)
    (isSingleFile : bool) (attempt : Z) : M bool :=
  match budget with
  | O => mret false
  | S budget' =>
      let maxRetries := maxRetriesFor isSingleFile in
      if (attempt <? maxRetries)%Z then
        try_catch
          (cfg ← the config;
           if negb (uploadMode cfg) || negb (bool_decide (is_Some (truthy_id (targetChannelId cfg))))
           then mret false
           else
             when (negb isSingleFile) checkRateLimit;;
             result ← sendToTarget message mediaPath isSingleFile;
             if (result : bool) then
               match mediaPath with
               | Some p =>
                   exists_ ← gets (fun w => existsSync (disk w) p);
                   when exists_
                     (fileSize ← on_disk (fun fs => (statSync_size fs p, fs));
                      sm ← the speedMonitor;
                      when (bool_decide (is_Some sm)) (updateSpeed fileSize))
               | None => mret tt
               end;;
               modify_counters (fun c => set_totalUploaded (totalUploaded c + 1)%Z c);;
               updateFloodWaitHistory false 0;;
               mret true
             else throw "Upload returned false")
          (fun error =>
             let attempt := (attempt + 1)%Z in
             if includes "CHAT_FORWARDS_RESTRICTED" error then mret false
             else if includes "FLOOD_WAIT" error then
               let waitTime := (parseInt_first error 60 * 1000)%Z in
               updateFloodWaitHistory true 0;;
               let actualWait := if isSingleFile then Z.min waitTime 30000 else waitTime in
               precisionDelay (ofZ actualWait);;
               uploadLoop budget' message mediaPath isSingleFile attempt
             else if (attempt <? maxRetries)%Z then
               precisionDelay
                 (if isSingleFile then Qmin 1500 (250 * ofZ attempt)
                  else Qmin 3000 (400 * ofZ attempt));;
               uploadLoop budget' message mediaPath isSingleFile attempt
             else
               precisionDelay (if isSingleFile then 3000 else 10000);;
               try_catch
                 (finalResult ← sendToTarget message mediaPath isSingleFile;
                  if (finalResult : bool) then
                    modify_counters (fun c => set_totalUploaded (totalUploaded c + 1)%Z c);;
                    mret true
                  else mret false)
                 (fun _ => mret false))
      else mret false
  end.

(** [uploadMessage(client, message, mediaPath, isSingleFile)] *)
Definition uploadMessage (message : Message) (mediaPath : option string)
    (isSingleFile : bool) : M bool :=
  uploadLoop (Z.to_nat (maxRetriesFor isSingleFile)) message mediaPath isSingleFile 0.

(** *** The parallel download phase *)

Definition is_space (c : ascii) : bool :=
  let n := nat_of_ascii c in ((n =? 32) || (9 <=? n) && (n <=? 13))%nat.

(** [s && s.trim()] as a condition. *)
Definition has_text (s : string) : bool :=
  negb (forallb is_space (to_chars s)).

Definition failedRecord (message : Message) (index : nat) : Downloaded :=
  {| d_message := message; d_mediaPath := None;
     d_hasContent :=
       negb (bool_decide (text message = ""%string))
       || bool_decide (is_Some (media message)) || sticker message;
     d_downloadIndex := index; d_failed := true |}.

(** One worker of [downloadBatch]: the iterations of its
    [while (retryCount < maxBatchRetries)] loop; [None] is [null]. *)
Fixpoint downloadWorker (budget fuel : nat) (channelId : Z) (turbo : bool)
    (message : Message) (index : nat) (retryCount : Z) : M (option Downloaded) :=
  match budget with
  | O => mret None
  | S budget' =>
      if (retryCount <? 3)%Z then
        try_catch
          (checkRateLimit;;
           let hasText := has_text (text message) in
           mediaPath ←
             (if bool_decide (is_Some (media message)) || sticker message then
                modify_self (fun s =>
                  set_speedMonitor
                    (set_currentFileSize (sizeHint message) <$> speedMonitor s) s);;
                mediaPath ← downloadMessage fuel message channelId turbo;
                match mediaPath with
                | Some p =>
                    exists_ ← gets (fun w => existsSync (disk w) p);
                    if (exists_ : bool) then mret (Some p)
                    else throw "File not found: null"
                | None => mret None
                end
              else mret None);
           if hasText || bool_decide (is_Some (media message)) || sticker message then
             modify_counters (fun c =>
               set_totalProcessedMessages (totalProcessedMessages c + 1)%Z c);;
             mret (Some {| d_message := message; d_mediaPath := mediaPath;
                           d_hasContent := true; d_downloadIndex := index;
                           d_failed := false |})
           else mret None)
          (fun error =>
             let retryCount := (retryCount + 1)%Z in
             when (includes "FILE_REFERENCE_EXPIRED" error) trackFileReferenceError;;
             when (includes "FLOOD_WAIT" error)
               (let waitTime := parseInt_first error 60 in
                updateFloodWaitHistory true waitTime;;
                precisionDelay (ofZ waitTime * 1000));;
             if (retryCount <? 3)%Z then
               precisionDelay (1000 * ofZ retryCount);;
               downloadWorker budget' fuel channelId turbo message index retryCount
             else mret (Some (failedRecord message index)))
      else mret None
  end.

(** The workers of [messages.map(async (message, index) => ...)], run
    one after the other in index order. *)
Fixpoint runWorkers (fuel : nat) (channelId : Z) (turbo : bool)
    (messages : list Message) (index : nat) : M (list (option Downloaded)) :=
  match messages with
  | [] => mret []
  | message :: rest =>
      result ← downloadWorker 3 fuel channelId turbo message index 0;
      results ← runWorkers fuel channelId turbo rest (S index);
      mret (result :: results)
  end.

(** [downloadBatch(client, messages, channelId)]; the second component is
    [messages] as the call leaves it (sorted in place). *)
Definition downloadBatch (fuel : nat) (messages : list Message) (channelId : Z)
  : M (list Downloaded) :=
  c ← the counters;
  let n := Z.of_nat (length messages) in
  let isSingleFile := (n =? 1)%Z in
  let isSmallBatch := (n <=? 3)%Z in
  let isLastBatch :=
    Qle_bool (ofZ (totalMessages c) * (95 # 100)) (ofZ (totalProcessedMessages c + n)) in
  let turbo := isSingleFile || isSmallBatch || isLastBatch in
  let messages := sort_by id messages in
  ultraOptimizedWait (if turbo then 5 else 15);;
  results ← runWorkers fuel channelId turbo messages 0;
  mret (sort_by (fun d => id (d_message d)) (omap (fun r => r) results)).

(** *** The sequential upload queue *)

(** An entry of [uploadQueue]. *)
Record QueueEntry := {
  q_data : Downloaded;
  q_mediaPath : option string;       (* currentData.mediaPath, which the loop may clear *)
  queueIndex : nat;
  uploadStarted : bool;
  uploadCompleted : bool;
  readyToUpload : bool;
  waitingForPrevious : bool;
}.

Definition set_q_mediaPath (v : option string) (x : QueueEntry) : QueueEntry :=
  {| q_data := q_data x; q_mediaPath := v; queueIndex := queueIndex x;
     uploadStarted := uploadStarted x; uploadCompleted := uploadCompleted x;
     readyToUpload := readyToUpload x; waitingForPrevious := waitingForPrevious x |}.
Definition set_uploadStarted (v : bool) (x : QueueEntry) : QueueEntry :=
  {| q_data := q_data x; q_mediaPath := q_mediaPath x; queueIndex := queueIndex x;
     uploadStarted := v; uploadCompleted := uploadCompleted x;
     readyToUpload := readyToUpload x; waitingForPrevious := waitingForPrevious x |}.
Definition set_uploadCompleted (v : bool) (x : QueueEntry) : QueueEntry :=
  {| q_data := q_data x; q_mediaPath := q_mediaPath x; queueIndex := queueIndex x;
     uploadStarted := uploadStarted x; uploadCompleted := v;
     readyToUpload := readyToUpload x; waitingForPrevious := waitingForPrevious x |}.
(** [entry.readyToUpload = true; entry.waitingForPrevious = false] *)
Definition signal_ready (x : QueueEntry) : QueueEntry :=
  {| q_data := q_data x; q_mediaPath := q_mediaPath x; queueIndex := queueIndex x;
     uploadStarted := uploadStarted x; uploadCompleted := uploadCompleted x;
     readyToUpload := true; waitingForPrevious := false |}.

Definition newQueueEntry (index : nat) (data : Downloaded) : QueueEntry :=
  {| q_data := data; q_mediaPath := d_mediaPath data; queueIndex := index;
     uploadStarted := false; uploadCompleted := false;
     readyToUpload := (index =? 0)%nat; waitingForPrevious := (0 <? index)%nat |}.

(** The local variables of [uploadBatch]. *)
Record QueueState := {
  uploadQueue : list QueueEntry;
  completedUploads : Z;
  uploadResults : list (bool * QueueEntry);
}.

Definition q_id (e : QueueEntry) : Z := id (d_message (q_data e)).

(** [uploadQueue[i] = f(uploadQueue[i])] *)
Definition update_entry (i : nat) (f : QueueEntry -> QueueEntry) (st : QueueState)
  : QueueState :=
  {| uploadQueue := alter f i (uploadQueue st);
     completedUploads := completedUploads st;
     uploadResults := uploadResults st |}.

(** The entry is marked completed and its result recorded. *)
Definition finish_entry (i : nat) (success : bool) (st : QueueState) : QueueState :=
  let q := alter (set_uploadCompleted true) i (uploadQueue st) in
  {| uploadQueue := q;
     completedUploads := if success then (completedUploads st + 1)%Z else completedUploads st;
     uploadResults :=
       match q !! i with
       | Some e => (uploadResults st ++ [(success, e)])%list
       | None => uploadResults st
       end |}.

(** The polling loop: wait, a second at a time and at most [n] times,
    for the previous entry to be completed.  Nothing else runs while the
    loop waits, so the flag it polls does not change. *)
Fixpoint waitForPrevious (n : nat) (previousCompleted : bool) : M unit :=
  match n with
  | O => mret tt
  | S n' =>
      if negb previousCompleted then
        precisionDelay 1000;; waitForPrevious n' previousCompleted
      else mret tt
  end.

(** The operation that [uploadBatch] hands to [retryOperation]. *)
Definition uploadOperation (message : Message) (mediaPath : option string)
    (isSingleFile : bool) : M unit :=
  try_catch
    (uploadMessage message mediaPath isSingleFile;; mret tt)
    (fun error =>
       if includes "Not connected" error || includes "Connection closed" error then
         reconnectClient;; throw error
       else throw error).

(** The body of the [for] loop of [uploadBatch] for the entry
    [currentData] at [currentIndex]; [rest] is the remainder of the loop,
    entered with the local variables as the body leaves them.  The [try]
    block is cut at the two calls that can throw (the wait for the
    previous entry and [retryOperation]), so that the [catch] block sees
    the assignments made before them. *)
Definition uploadEntry (isSingleFile : bool) (currentIndex : nat)
    (currentData : QueueEntry) (rest : QueueState -> M QueueState) (st : QueueState)
  : M QueueState :=
  let messageId := q_id currentData in
  let len := length (uploadQueue st) in
  let next (st : QueueState) (delay : bool) : M QueueState :=
    when (delay && (currentIndex + 1 <? len)%nat)
      (precisionDelay (if isSingleFile then 100 else 500));;
    rest st in
  let onError (st : QueueState) (mediaPath : option string) (error : string)
    : M QueueState :=
    let failed :=
      emit (EvUploadFinished currentIndex messageId false);;
      next (update_entry (S currentIndex) signal_ready
              (finish_entry currentIndex false st)) true in
    if includes "FLOOD_WAIT" error then
      let waitTime := parseInt_first error 60 in
      precisionDelay (ofZ waitTime * 1000);;
      retried ← catching
        (uploadMessage (d_message (q_data currentData)) mediaPath isSingleFile);
      match retried with
      | inl true =>
          emit (EvUploadFinished currentIndex messageId true);;
          next (finish_entry currentIndex true st) false     (* continue *)
      | _ => failed
      end
    else failed in
  waited ← catching
    (match currentIndex with
     | O => mret tt
     | S previousIndex =>
         match uploadQueue st !! previousIndex with
         | Some previousData =>
             if negb (uploadCompleted previousData) then
               waitForPrevious 300 (uploadCompleted previousData);;
               if negb (uploadCompleted previousData) then
                 throw ("Timeout waiting for previous message "
                          ++ string_of_Z (q_id previousData))
               else mret tt
             else mret tt
         | None => mret tt
         end
     end);
  match waited with
  | inr error => onError st (q_mediaPath currentData) error
  | inl _ =>
      fs ← gets disk;
      let mediaPath :=
        match q_mediaPath currentData with
        | Some p => if existsSync fs p then Some p else None
        | None => None
        end in
      let st := update_entry currentIndex
                  (fun e => set_uploadStarted true (set_q_mediaPath mediaPath e)) st in
      emit (EvUploadStarting currentIndex messageId);;
      uploaded ← catching
        (retryOperation
           (uploadOperation (d_message (q_data currentData)) mediaPath isSingleFile)
           ("uploading message " ++ string_of_Z messageId) 5);
      match uploaded with
      | inr error => onError st mediaPath error
      | inl _ =>
          emit (EvUploadFinished currentIndex messageId true);;
          next (update_entry (S currentIndex) signal_ready
                  (finish_entry currentIndex true st)) true
      end
  end.

(** The iterations [currentIndex], [currentIndex + 1], ... of the [for]
    loop of [uploadBatch]; [budget] bounds their number. *)
Fixpoint uploadFrom (budget : nat) (isSingleFile : bool) (currentIndex : nat)
    (st : QueueState) : M QueueState :=
  match budget with
  | O => mret st
  | S budget' =>
      match uploadQueue st !! currentIndex with
      | None => mret st
      | Some currentData =>
          uploadEntry isSingleFile currentIndex currentData
            (uploadFrom budget' isSingleFile (S currentIndex)) st
      end
  end.

(** The queue that [uploadBatch] builds from the sorted records. *)
Definition newQueue (sorted : list Downloaded) : QueueState :=
  {| uploadQueue := imap newQueueEntry sorted; completedUploads := 0;
     uploadResults := [] |}.

(** The queue part of [uploadBatch]: sort, build the queue, run it. *)
Definition runUploadQueue (downloadedData : list Downloaded) : M QueueState :=
  let sorted := sort_by (fun d => id (d_message d)) downloadedData in
  uploadFrom (length sorted) (length downloadedData =? 1)%nat 0 (newQueue sorted).

(** [uploadBatch(client, downloadedData)]; it returns [downloadedData],
    which it has sorted in place. *)
Definition uploadBatch (downloadedData : list Downloaded) : M (list Downloaded) :=
  mode ← the (fun s => uploadMode (config s));
  if negb mode || bool_decide (downloadedData = []) then mret downloadedData
  else
    runUploadQueue downloadedData;;
    mret (sort_by (fun d => id (d_message d)) downloadedData).

(** [cleanupBatch(downloadedData)] *)
Definition cleanupBatch (downloadedData : list Downloaded) : M unit :=
  for_each downloadedData (fun data =>
    match d_mediaPath data with
    | Some p =>
        on_disk (fun fs =>
          if existsSync fs p then (Ret tt, (unlinkSync fs p).2) else (Ret tt, fs))
    | None => mret tt
    end).

(** *** One batch *)

(** [messages.map(msg => messageMap.get(msg.id) || msg)], where
    [messageMap] is the [Map] built from [refreshed] (a later message
    with the same id replaces an earlier one). *)
Definition remap (refreshed messages : list Message) : list Message :=
  map (fun msg => default msg (find_by_id (id msg) (rev refreshed))) messages.

(** The refresh steps at the head of [processBatch]; they return the
    value of [messages] to go on with. *)
Definition refreshBatchMessages (messages : list Message) (channelId : Z)
  : M (list Message) :=
  modify_counters (fun c => set_batchCounter (batchCounter c + 1)%Z c);;
  messages ←
    try_catch
      (refreshed ← getMessageDetail channelId (map id messages);
       match refreshed with
       | _ :: _ => mret (remap refreshed messages)
       | [] =>
           allRefreshed ← refreshAllChannelMessages channelId;
           match allRefreshed with
           | Some ((_ :: _) as l) => mret (remap l messages)
           | _ => mret messages
           end
       end)
      (fun _ => mret messages);
  t ← now;
  f ← the fileRef;
  c ← the counters;
  let recentFileRefErrors :=
    length (List.filter (fun ts => (t - ts <? 2 * 60 * 1000)%Z) (fileReferenceErrors f)) in
  if (batchCounter c mod 3 =? 0)%Z || (5 <? recentFileRefErrors)%nat then
    allRefreshed ← refreshAllChannelMessages channelId;
    match allRefreshed with
    | Some ((_ :: _) as l) => mret (remap l messages)
    | _ => mret messages
    end
  else mret messages.

(** The three phases of [processBatch]: download, upload, cleanup. *)
Definition runPhases (fuel : nat) (messages : list Message) (channelId : Z) : M unit :=
  downloadedData ← downloadBatch fuel messages channelId;
  mode ← the (fun s => uploadMode (config s));
  when (mode && negb (bool_decide (downloadedData = [])))
    (ensureConnectionHealth;;
     uploadedData ← uploadBatch downloadedData;
     cleanupBatch uploadedData).

(** [processBatch(client, messages, batchIndex, totalBatches, channelId)].
    The function calls itself from its [catch] block, without a bound:
    [fuel] is the step budget.  The [try] block is cut where [messages]
    is reassigned and sorted, so that the [catch] block reads the ids from
    the value [messages] has by then. *)
Fixpoint processBatch (fuel : nat) (messages : list Message)
    (batchIndex totalBatches channelId : Z) : M unit :=
  match fuel with
  | O => diverge
  | S fuel' =>
      let onError (messages : list Message) (error : string) : M unit :=
        emit (EvBatchError batchIndex error);;
        try_catch
          (retryMessages ← refreshMessagesBatch channelId (map id messages);
           match retryMessages with
           | Some ((_ :: _) as l) =>
               ensureConnectionHealth;;
               processBatch fuel' l batchIndex totalBatches channelId
           | _ => mret tt
           end)
          (fun retryError => emit (EvBatchRetryFailed retryError)) in
      emit (EvBatchStart batchIndex (map id messages));;
      refreshed ← catching (refreshBatchMessages messages channelId);
      match refreshed with
      | inr error => onError messages error
      | inl messages =>
          let messages := sort_by id messages in
          done ← catching (runPhases fuel' messages channelId);
          match done with
          | inr error => onError messages error
          | inl _ => mret tt
          end
      end
  end.

(** *** The channel loop *)

(** [hasContent(message)] *)
Definition hasContent (m : Message) : bool :=
  negb (bool_decide (text m = ""%string)) || bool_decide (is_Some (media m))
  || sticker m || has_document m || has_photo m || has_video m || has_audio m
  || has_voice m || has_poll m || has_geo m || has_contact m || has_venue m
  || has_webpage m || dice m || groupedId m.

(** [this.downloadableFiles?.[key]] *)
Definition downloadable (files : option (list string)) (key : string) : bool :=
  match files with
  | Some keys => bool_decide (key ∈ keys)
  | None => false
  end.

(** [s.replace(".", "")] *)
Fixpoint drop_first_dot_chars (l : chars) : chars :=
  match l with
  | [] => []
  | c :: r => if Ascii.eqb c dot then r else c :: drop_first_dot_chars r
  end.

Definition drop_first_dot (s : string) : string :=
  of_chars (drop_first_dot_chars (to_chars s)).

(** [shouldProcess(message)] *)
Definition shouldProcess (m : Message) : M bool :=
  if negb (hasContent m) then mret false
  else if negb (bool_decide (text m = ""%string)) && negb (bool_decide (is_Some (media m)))
  then mret true
  else if bool_decide (is_Some (media m)) then
    cfg ← the config;
    let mediaType := default "undefined"%string (Helper.getMediaType (Some m)) in
    mediaPath ← on_disk (Helper.getMediaPath mimeDB (Some m) (outputFolder cfg));
    let extension := drop_first_dot (Helper.toLowerCase (Path.extname mediaPath)) in
    mret (downloadable (downloadableFiles cfg) mediaType
          || downloadable (downloadableFiles cfg) extension
          || downloadable (downloadableFiles cfg) "all")
  else mret true.

(** [details.filter((msg) => this.shouldProcess(msg))] *)
Fixpoint filterProcessable (l : list Message) : M (list Message) :=
  match l with
  | [] => mret []
  | m :: r =>
      keep ← shouldProcess m;
      rest ← filterProcessable r;
      mret (if (keep : bool) then m :: rest else rest)
  end.

(** [recordMessages(messages)].  The content of [all_messages.json] is
    not modelled: its entry is created when missing.  The path of every
    message with media is computed (twice in the source, with the same
    result). *)
Definition recordMessages (messages : list Message) : M unit :=
  folder ← the (fun s => outputFolder (config s));
  on_disk (fun fs => (Ret tt, if existsSync fs folder then fs else mkdirSync fs folder));;
  for_each messages (fun msg =>
    if hasContent msg && bool_decide (is_Some (media msg)) then
      on_disk (Helper.getMediaPath mimeDB (Some msg) folder);; mret tt
    else mret tt);;
  on_disk (fun fs =>
    let filePath := Path.join [folder; "all_messages.json"%string] in
    (Ret tt, if existsSync fs filePath then fs else <[filePath := fileNode 2]> fs)).

(** [array.slice(-n)] *)
Definition last_n {A} (n : nat) (l : list A) : list A := drop (length l - n) l.

(** [cleanupMemory()].  The sweep of [<outputFolder>/temp] is left out:
    the model's file system has no directory listing, and nothing else
    refers to that directory. *)
Definition cleanupMemory : M unit :=
  modify_self (fun s =>
    set_speedMonitor
      ((fun sm =>
          if (20 <? length (speedHistory sm))%nat
          then set_speedHistory (last_n 10 (speedHistory sm)) sm else sm)
         <$> speedMonitor s) s);;
  t ← now;
  modify_flood (fun f =>
    set_floodWaitHistory
      (List.filter (fun e => (t - e.1 <? 5 * 60 * 1000)%Z) (floodWaitHistory f)) f);;
  modify_fileRef (fun f =>
    set_fileReferenceErrors
      (List.filter (fun ts => (t - ts <? 30 * 60 * 1000)%Z) (fileReferenceErrors f)) f).

(** [showProgress(currentBatch)]; the report itself is not modelled. *)
Definition showProgress (currentBatch : Z) : M unit :=
  when (currentBatch mod 3 =? 0)%Z cleanupMemory.

(** The [for] loop over the batches in [downloadChannel]: the batches
    that start at the indices [i], [i + BATCH_SIZE], ... *)
Fixpoint batchLoop (budget fuel : nat) (remaining : list Message) (i total : nat)
    (totalBatches channelId : Z) : M unit :=
  match budget with
  | O => mret tt
  | S budget' =>
      match remaining with
      | [] => mret tt
      | _ =>
          processBatch fuel (take BATCH_SIZE remaining)
            (Z.of_nat (i / BATCH_SIZE)) totalBatches channelId;;
          when (i + BATCH_SIZE <? total)%nat (precisionDelay RATE_LIMIT_DELAY_CONFIG);;
          batchLoop budget' fuel (drop BATCH_SIZE remaining) (i + BATCH_SIZE) total
            totalBatches channelId
      end
  end.

(** [Math.max(...ids)] *)
Definition maxOf (ids : list Z) : JsNum :=
  fold_left (fun acc i =>
               match acc with
               | NegInfinity => Num i
               | Num a => Num (Z.max a i)
               end) ids NegInfinity.

(** [process.cwd()] *)
Variable cwd : string.

(** The page of [downloadChannel] up to the point where the checkpoint
    is written: what was fetched ([messages]), what was kept
    ([filteredMessages]) and what was processed. *)
Record Page := {
  pg_messages : list Message;
  pg_filtered : list Message;
  pg_processed : list Message;
}.

(** [None] when the source has no more messages (the function returns). *)
Definition fetchAndProcessPage (fuel : nat) (channelId : Z) (offsetMsgId : JsNum)
  : M (option Page) :=
  cfg ← the config;
  fetched ← retryOperation (getMessages channelId MESSAGE_LIMIT_CONFIG offsetMsgId true)
              "undefined" 5;
  match fetched with
  | None => throw "TypeError: Cannot read properties of undefined (reading 'length')"
  | Some [] => showProgress 0;; mret None
  | Some messages =>
      let filteredMessages :=
        if selectiveMode cfg
        then List.filter (fun msg => (startFromMessageId cfg <=? id msg)%Z) messages
        else messages in
      let filteredMessages := sort_by id filteredMessages in
      detailed ← retryOperation (getMessageDetail channelId (map id filteredMessages))
                   "undefined" 5;
      match detailed with
      | None => throw "TypeError: Cannot read properties of undefined (reading 'sort')"
      | Some details =>
          let details := sort_by id details in
          messagesToProcess ← filterProcessable details;
          when (uploadMode cfg)
            (call (cl_getDialogName cl (default 0%Z (targetChannelId cfg)));; mret tt);;
          let total := length messagesToProcess in
          let totalBatches := Z.of_nat ((total + BATCH_SIZE - 1) / BATCH_SIZE) in
          modify_counters (set_totalMessages (Z.of_nat total));;
          batchLoop total fuel messagesToProcess 0 total totalBatches channelId;;
          recordMessages details;;
          mret (Some {| pg_messages := messages; pg_filtered := filteredMessages;
                        pg_processed := messagesToProcess |})
      end
  end.

(** *** The checkpoint store ([export/last_selection.json]) *)

(** The two keys of the stored object; [None] is an absent key or a
    [null] ([JSON.stringify] writes [-Infinity] as [null]). *)
Record Selection := {
  sel_messageOffsetId : option Z;
  sel_channelId : option Z;
}.

(** The file, and everything that was ever written to it (oldest first). *)
Record Store := {
  selection : Selection;
  written : list Selection;
}.

(** The functions that read or write the checkpoint run on the store and
    the world; the others cannot reach the store. *)
#[local] Abbreviation MS := (St (Store * World R)).

Definition lift {A} (c : M A) : MS A := fun s =>
  match c s.2 with
  | (r, w') => (r, (s.1, w'))
  end.

(** [getLastSelection()]; an unreadable file reads as [{}]. *)
Definition getLastSelection : MS Selection := gets (fun s => selection s.1).

Definition to_json (n : JsNum) : option Z :=
  match n with
  | Num z => Some z
  | NegInfinity => None
  end.

(** [updateLastSelection(object)]: the keys of [object] replace those of
    the stored object. *)
Definition updateLastSelection (messageOffsetId : option JsNum) (channelId : option Z)
  : MS unit :=
  modify (fun s =>
    let old := selection s.1 in
    let new :=
      {| sel_messageOffsetId :=
           match messageOffsetId with
           | Some n => to_json n
           | None => sel_messageOffsetId old
           end;
         sel_channelId :=
           match channelId with
           | Some c => Some c
           | None => sel_channelId old
           end |} in
    ({| selection := new; written := (written s.1 ++ [new])%list |}, s.2)).

(** *** [downloadChannel] *)

Definition is_zero (n : JsNum) : bool :=
  match n with
  | Num z => (z =? 0)%Z
  | NegInfinity => false
  end.

(** [downloadChannel(client, channelId, offsetMsgId)].  The function
    calls itself to go on with the next page and to start again after a
    flood wait: [fuel] is the step budget. *)
Fixpoint downloadChannel (fuel : nat) (channelId : Z) (offsetMsgId : JsNum) : MS unit :=
  match fuel with
  | O => diverge
  | S fuel' =>
      cfg ← lift (the config);
      let offsetMsgId :=
        if selectiveMode cfg && is_zero offsetMsgId
        then Num (startFromMessageId cfg) else offsetMsgId in
      try_catch
        (lift initializeSpeedMonitor;;
         lift (modify_config
                 (set_outputFolder (Path.join [cwd; "export"%string; string_of_Z channelId])));;
         page ← lift (fetchAndProcessPage fuel' channelId offsetMsgId);
         match page with
         | None => mret tt
         | Some page =>
             let maxId := maxOf (map id (pg_filtered page)) in
             updateLastSelection (Some maxId) None;;
             lift (showProgress (Z.of_nat (length (pg_processed page))));;
             if (Z.of_nat (length (pg_messages page)) =? MESSAGE_LIMIT_CONFIG)%Z then
               lift (precisionDelay RATE_LIMIT_DELAY_CONFIG);;
               downloadChannel fuel' channelId maxId
             else
               lift (showProgress (Z.of_nat (length (pg_processed page))))
         end)
        (fun err =>
           if includes "FLOOD_WAIT" err then
             let waitTime := (parseInt_first err 300 * 1000)%Z in
             lift (updateFloodWaitHistory true (waitTime / 1000));;
             lift (precisionDelay (ofZ waitTime));;
             downloadChannel fuel' channelId offsetMsgId
           else throw err)
  end.

(** *** [configureDownload] and one round of [continuousMode] *)

Inductive DownloadMode : Type := Full | Specific | ToEnd.

(** What the options and the prompts of [configureDownload] settle. *)
Record Choice := {
  ch_channelId : Z;
  ch_mode : DownloadMode;
  ch_startFrom : Z;                       (* parseInt(input) || 0, asked in mode ToEnd *)
  ch_upload : bool;
  ch_target : option Z;
  ch_files : option (list string);        (* options.downloadableFiles *)
}.

Definition defaultFiles : list string :=
  ["webpage"; "poll"; "geo"; "contact"; "venue"; "sticker"; "image"; "video"; "audio";
   "voice"; "document"; "pdf"; "zip"; "all"]%string.

(** [configureDownload(options, client)], from the answers on; it
    returns [{ channelId, messageOffsetId }]. *)
Definition configureDownload (choice : Choice) : MS (Z * Z) :=
  let channelId := ch_channelId choice in
  lift (modify_config (fun c =>
    {| outputFolder := outputFolder c;
       uploadMode := ch_upload choice;
       targetChannelId := if ch_upload choice then ch_target choice else targetChannelId c;
       downloadableFiles := Some (default defaultFiles (ch_files choice));
       selectiveMode := match ch_mode choice with Full => false | _ => true end;
       startFromMessageId :=
         match ch_mode choice with ToEnd => ch_startFrom choice | _ => 0%Z end |}));;
  lastSelection ← getLastSelection;
  let messageOffsetId :=
    match sel_messageOffsetId lastSelection with
    | Some v => v
    | None => 0%Z
    end in
  let messageOffsetId :=
    if bool_decide (sel_channelId lastSelection = Some channelId)
    then messageOffsetId else 0%Z in
  updateLastSelection (Some (Num messageOffsetId)) (Some channelId);;
  mret (channelId, messageOffsetId).

(** One round of the loop of [continuousMode], up to the question
    whether to go on: the counters are reset, the download is configured
    and the channel is downloaded from the stored offset. *)
Definition continuousRound (fuel : nat) (choice : Choice) : MS unit :=
  lift (modify_counters (fun c =>
    {| requestCount := 0; lastRequestTime := 0; totalDownloaded := 0; totalUploaded := 0;
       totalMessages := 0; totalProcessedMessages := 0; batchCounter := 0;
       connectionHealth := connectionHealth c |}));;
  lift (modify_flood (set_consecutiveFloodWaits 0%Z));;
  lift (modify_fileRef (set_consecutiveFileRefErrors 0%Z));;
  lift (modify_self (set_speedMonitor None));;
  configured ← configureDownload choice;
  lift (call (cl_getDialogName cl configured.1));;
  downloadChannel fuel configured.1 (Num configured.2).

End Pipeline.

(** ** A simulated environment

    A test double for the client: a channel with its messages, a clock
    that only timers advance, and per operation a script of injected
    faults or answers that is consumed call by call.  When a script is used
    up the operation succeeds. *)
Module Sim.

Record State := {
  clock : Z;
  channel : list Message;              (* the source channel, ascending by id *)
  listFaults : list (option string);   (* client.getMessages(..., { limit, offsetId }) *)
  detailFaults : list (option string); (* client.getMessages(..., { ids }) *)
  downloads : list (bool * option Z);  (* answer, and the size of the file written *)
  uploads : list (reply bool);
  getMeFaults : list (option string);
  connectFaults : list (option string);
  connected : bool;
}.

Definition above (offsetId : JsNum) (m : Message) : bool :=
  match offsetId with
  | Num o => (o <? id m)%Z
  | NegInfinity => true
  end.

Definition pop {A} (l : list A) : option A * list A :=
  match l with
  | x :: r => (Some x, r)
  | [] => (None, [])
  end.

Definition faultOr {A} (fault : option (option string)) (a : A) : reply A :=
  match fault with
  | Some (Some msg) => Raises msg
  | _ => Returns a
  end.

Definition client : Client State := {|
  cl_now := clock;
  cl_elapse := fun ms r =>
    {| clock := clock r + Qceiling ms; channel := channel r; listFaults := listFaults r;
       detailFaults := detailFaults r; downloads := downloads r; uploads := uploads r;
       getMeFaults := getMeFaults r; connectFaults := connectFaults r;
       connected := connected r |};
  cl_getMessages := fun _ limit offsetId _ r =>
    let (fault, rest) := pop (listFaults r) in
    (faultOr fault (take (Z.to_nat limit) (List.filter (above offsetId) (channel r))),
     {| clock := clock r; channel := channel r; listFaults := rest;
        detailFaults := detailFaults r; downloads := downloads r; uploads := uploads r;
        getMeFaults := getMeFaults r; connectFaults := connectFaults r;
        connected := connected r |});
  cl_getMessagesByIds := fun _ ids r =>
    let (fault, rest) := pop (detailFaults r) in
    (faultOr fault (List.filter (fun m => bool_decide (id m ∈ ids)) (channel r)),
     {| clock := clock r; channel := channel r; listFaults := listFaults r;
        detailFaults := rest; downloads := downloads r; uploads := uploads r;
        getMeFaults := getMeFaults r; connectFaults := connectFaults r;
        connected := connected r |});
  cl_downloadMessageMedia := fun m mediaPath _ fs r =>
    let (answer, rest) := pop (downloads r) in
    let '(result, size) := default (true, Some (sizeHint m)) answer in
    ((result, match size with
              | Some n => <[mediaPath := fileNode n]> fs
              | None => fs
              end),
     {| clock := clock r; channel := channel r; listFaults := listFaults r;
        detailFaults := detailFaults r; downloads := rest; uploads := uploads r;
        getMeFaults := getMeFaults r; connectFaults := connectFaults r;
        connected := connected r |});
  cl_uploadMessageToChannel := fun _ _ _ _ _ r =>
    let (answer, rest) := pop (uploads r) in
    (default (Returns true) answer,
     {| clock := clock r; channel := channel r; listFaults := listFaults r;
        detailFaults := detailFaults r; downloads := downloads r; uploads := rest;
        getMeFaults := getMeFaults r; connectFaults := connectFaults r;
        connected := connected r |});
  cl_connected := connected;
  cl_connect := fun r =>
    let (fault, rest) := pop (connectFaults r) in
    (faultOr fault tt,
     {| clock := clock r; channel := channel r; listFaults := listFaults r;
        detailFaults := detailFaults r; downloads := downloads r; uploads := uploads r;
        getMeFaults := getMeFaults r; connectFaults := rest;
        connected := match fault with Some (Some _) => connected r | _ => true end |});
  cl_disconnect := fun r =>
    (Returns tt,
     {| clock := clock r; channel := channel r; listFaults := listFaults r;
        detailFaults := detailFaults r; downloads := downloads r; uploads := uploads r;
        getMeFaults := getMeFaults r; connectFaults := connectFaults r;
        connected := false |});
  cl_getMe := fun r =>
    let (fault, rest) := pop (getMeFaults r) in
    (faultOr fault tt,
     {| clock := clock r; channel := channel r; listFaults := listFaults r;
        detailFaults := detailFaults r; downloads := downloads r; uploads := uploads r;
        getMeFaults := rest; connectFaults := connectFaults r;
        connected := connected r |});
  cl_getDialogName := fun _ r => (Returns "channel"%string, r);
|}.

(** A quiet environment around the channel [msgs] at time [t]. *)
Definition quiet (t : Z) (msgs : list Message) : State :=
  {| clock := t; channel := msgs; listFaults := []; detailFaults := [];
     downloads := []; uploads := []; getMeFaults := []; connectFaults := [];
     connected := true |}.

(** The state of a freshly constructed [DownloadChannel]. *)
Definition newSelf : Self :=
  {| config := {| outputFolder := ""; uploadMode := false; targetChannelId := None;
                  downloadableFiles := None; selectiveMode := false;
                  startFromMessageId := 0 |};
     counters := {| requestCount := 0; lastRequestTime := 0; totalDownloaded := 0;
                    totalUploaded := 0; totalMessages := 0; totalProcessedMessages := 0;
                    batchCounter := 0; connectionHealth := 100 |};
     flood := {| requestsInLastMinute := []; consecutiveFloodWaits := 0;
                 adaptiveDelayMultiplier := 1 # 2; floodWaitHistory := [];
                 optimalRequestRate := 50 |};
     fileRef := {| fileReferenceErrors := []; consecutiveFileRefErrors := 0 |};
     speedMonitor := None; speedBoostMode := false |}.

Definition world (r : State) (s : Self) : World State :=
  {| remote := r; disk := ∅; self := s; trace := [] |}.

(** Exact arithmetic in place of the rounding to doubles. *)
Definition exact (q : Q) : Q := Qred q.

Definition noMime : string -> option (option (list string)) := fun _ => None.

(** A text message. *)
Definition textMessage (i : Z) (s : string) : Message :=
  {| id := i; text := s; media := None; sticker := false; dice := false;
     groupedId := false; has_document := false; has_photo := false; has_video := false;
     has_audio := false; has_voice := false; has_poll := false; has_geo := false;
     has_contact := false; has_venue := false; has_webpage := false |}.

(** A document with a file name and a size hint. *)
Definition docMessage (i : Z) (name : string) (size : option Z) : Message :=
  {| id := i; text := "";
     media := Some
       {| webpage := false; poll := false; geo := false; contact := false; venue := false;
          game := false; invoice := false; geoLive := false; unsupported := false;
          photo := None; video := false; audio := false; voice := false;
          document := Some
            {| doc_size := size; doc_mimeType := Some "application/pdf"%string;
               doc_fileName := None;
               doc_attributes :=
                 Some [ {| className := "DocumentAttributeFilename";
                           attr_fileName := name |} ] |} |};
     sticker := false; dice := false; groupedId := false;
     has_document := true; has_photo := false; has_video := false; has_audio := false;
     has_voice := false; has_poll := false; has_geo := false; has_contact := false;
     has_venue := false; has_webpage := false |}.

(** [this] once a target channel is configured. *)
Definition uploading (target : Z) (s : Self) : Self :=
  set_config (set_targetChannelId (Some target) (set_uploadMode true (config s))) s.

End Sim.

(** ** Runs of the speed monitor *)

(** The speed monitor and boost flag after [initializeSpeedMonitor] at
    time [t0] and one [updateSpeed(bytes)] call per sample, each sample
    being the time of the call and its [bytes]. *)
Definition afterSamples (fl : Q -> Q) (t0 : Z) (boost0 : bool) (samples : list (Z * Z))
  : SpeedMonitor * bool :=
  fold_left (fun st sample => updateSpeedAt fl sample.1 sample.2 st.1 st.2)
    samples (newSpeedMonitor t0, boost0).

(** ** Reading a trace *)

(** The failed attempts that [retryOperation] logged: attempt number and
    error message. *)
Definition retryFailures (tr : list Event) : list (nat * string) :=
  omap (fun ev => match ev with
                  | EvRetryFailed _ attempt _ msg => Some (attempt, msg)
                  | _ => None
                  end) tr.

(** The delays of the timers that were waited on, in milliseconds. *)
Definition sleeps (tr : list Event) : list Q :=
  omap (fun ev => match ev with EvSleep ms => Some ms | _ => None end) tr.

(** The message ids of the uploads that the queue started. *)
Definition uploadStarts (tr : list Event) : list Z :=
  omap (fun ev => match ev with EvUploadStarting _ i => Some i | _ => None end) tr.

(** The steps of the upload queue: for every entry its start and the
    recording of its result. *)
Inductive QueueStep : Type :=
| Started (queueIndex : nat) (msgId : Z)
| Finished (queueIndex : nat) (msgId : Z) (success : bool).

Definition queueSteps (tr : list Event) : list QueueStep :=
  omap (fun ev => match ev with
                  | EvUploadStarting i m => Some (Started i m)
                  | EvUploadFinished i m ok => Some (Finished i m ok)
                  | _ => None
                  end) tr.

(** The batch-level errors that [processBatch] caught, and the whole-batch
    re-fetches of its [catch] block. *)
Definition batchErrors (tr : list Event) : list string :=
  omap (fun ev => match ev with EvBatchError _ msg => Some msg | _ => None end) tr.

Definition batchStarts (tr : list Event) : list (list Z) :=
  omap (fun ev => match ev with EvBatchStart _ ids => Some ids | _ => None end) tr.

(** ** Operations handed to the retry engine *)

(** An operation that fails on every call, never with a flood wait, and
    that does not write the log lines of [retryOperation] itself. *)
Definition always_transient {R A} (operation : St (World R) A) : Prop :=
  forall w, exists e w',
    operation w = (Thrown e, w') /\ includes "FLOOD_WAIT" e = false /\
    retryFailures (trace w') = retryFailures (trace w).

(** ** Scenarios for the simulated environment *)
Module Scenario.

(** A downloader whose speed monitor was initialized at time 0, as
    [downloadChannel] does before any other step. *)
Definition started : Self := set_speedMonitor (Some (newSpeedMonitor 0)) Sim.newSelf.

Definition idle : World Sim.State := Sim.world (Sim.quiet 0 []) started.

(** An operation that is rate limited for 2 seconds on its first call
    and times out on every later call. *)
Definition floodThenTimeout : St (World Sim.State) unit := fun w =>
  match retryFailures (trace w) with
  | [] => throw "FLOOD_WAIT_2" w
  | _ => throw "ETIMEDOUT" w
  end.

(** A connection that times out on every call. *)
Definition timingOut : St (World Sim.State) unit := throw "ETIMEDOUT".

(** A downloader with a target channel, in front of a sink that answers
    the calls to [uploadMessageToChannel] with [answers], in this order,
    and with success after them. *)
Definition uploader (answers : list (reply bool)) : World Sim.State :=
  Sim.world
    {| Sim.clock := 0; Sim.channel := []; Sim.listFaults := []; Sim.detailFaults := [];
       Sim.downloads := []; Sim.uploads := answers; Sim.getMeFaults := [];
       Sim.connectFaults := []; Sim.connected := true |}
    (Sim.uploading 99 started).

(** The record of a downloaded text message. *)
Definition textRecord (index : nat) (i : Z) : Downloaded :=
  {| d_message := Sim.textMessage i "text"; d_mediaPath := None; d_hasContent := true;
     d_downloadIndex := index; d_failed := false |}.

(** Three records in the order in which their downloads completed. *)
Definition outOfOrder : list Downloaded :=
  [textRecord 2 30; textRecord 0 10; textRecord 1 20].

(** A sink that times out on each of the 16 calls that [uploadMessage]
    makes for one record of a batch. *)
Definition firstRecordTimesOut : World Sim.State :=
  uploader (replicate 16 (Raises "ETIMEDOUT")).

(** A document of 1000 bytes, and one without a size. *)
Definition report : Message := Sim.docMessage 7 "report.pdf" (Some 1000).
Definition notes : Message := Sim.docMessage 8 "notes.pdf" None.

(** A source whose next transfer reports success and leaves a file of
    500 bytes. *)
Definition truncating : World Sim.State :=
  Sim.world
    {| Sim.clock := 0; Sim.channel := []; Sim.listFaults := []; Sim.detailFaults := [];
       Sim.downloads := [(true, Some 500)]; Sim.uploads := []; Sim.getMeFaults := [];
       Sim.connectFaults := []; Sim.connected := true |}
    started.

(** A document of 1000 bytes named report.pdf, under the id [i]. *)
Definition reportNamed (i : Z) : Message := Sim.docMessage i "report.pdf" (Some 1000).

(** An uploader whose connection is in bad health (55 of 100), in front of
    a server on which [getMe] times out on the first, third and fourth
    call and that refuses every reconnection. *)
Definition flakyConnection (msgs : list Message) : World Sim.State :=
  Sim.world
    {| Sim.clock := 0; Sim.channel := msgs; Sim.listFaults := []; Sim.detailFaults := [];
       Sim.downloads := []; Sim.uploads := [];
       Sim.getMeFaults := [Some "ETIMEDOUT"; None; Some "ETIMEDOUT"; Some "ETIMEDOUT"];
       Sim.connectFaults := replicate 3 (Some "ECONNREFUSED");
       Sim.connected := true |}
    (set_counters (set_connectionHealth 55 (counters started)) (Sim.uploading 99 started)).

(** A batch of one text message. *)
Definition greeting : list Message := [Sim.textMessage 1 "hello"].

(** A channel with the messages 1, 2 and 3, an empty checkpoint store,
    and the choice of a full download of the channel [channelId]. *)
Definition threeMessages : World Sim.State :=
  Sim.world
    (Sim.quiet 0 [Sim.textMessage 1 "one"; Sim.textMessage 2 "two"; Sim.textMessage 3 "three"])
    Sim.newSelf.

Definition emptyStore : Store :=
  {| selection := {| sel_messageOffsetId := None; sel_channelId := None |};
     written := [] |}.

Definition fullDownload (channelId : Z) : Choice :=
  {| ch_channelId := channelId; ch_mode := Full; ch_startFrom := 0; ch_upload := false;
     ch_target := None; ch_files := None |}.

(** The choice to download the channel from the message [startFrom] on. *)
Definition fromMessage (channelId startFrom : Z) : Choice :=
  {| ch_channelId := channelId; ch_mode := ToEnd; ch_startFrom := startFrom;
     ch_upload := false; ch_target := None; ch_files := None |}.

(** The store of a download of the channel 100 that was interrupted
    after the message 1. *)
Definition resumed : Store :=
  {| selection := {| sel_messageOffsetId := Some 1; sel_channelId := Some 100 |};
     written := [] |}.

(** A message whose media is of none of the kinds of [getMediaType]. *)
Definition unknownMedia (i : Z) : Message :=
  {| id := i; text := "";
     media := Some
       {| webpage := false; poll := false; geo := false; contact := false; venue := false;
          game := false; invoice := false; geoLive := false; unsupported := false;
          photo := None; video := false; audio := false; voice := false;
          document := None |};
     sticker := false; dice := false; groupedId := false;
     has_document := false; has_photo := false; has_video := false; has_audio := false;
     has_voice := false; has_poll := false; has_geo := false; has_contact := false;
     has_venue := false; has_webpage := false |}.

End Scenario.

(** ** The steps of a queue run *)

(** The steps of a run over the entries with the message ids and results
    [l], the first entry being at [queueIndex]: every entry is started and
    its result recorded before the next one is started. *)
Fixpoint steps_of (queueIndex : nat) (l : list (Z * bool)) : list QueueStep :=
  match l with
  | [] => []
  | (msgId, success) :: r =>
      Started queueIndex msgId :: Finished queueIndex msgId success
        :: steps_of (S queueIndex) r
  end.

(** A computation that ends, with a value or an exception, and adds no
    step of the upload queue to the trace. *)
Definition silent {R A} (c : St (World R) A) : Prop :=
  forall w, exists r w',
    c w = (r, w') /\ r <> Diverged /\ queueSteps (trace w') = queueSteps (trace w).

(** The queue after the entry at [i] was handled: that entry is started
    and completed, and the others keep their flags. *)
Definition advanced (i : nat) (st st2 : QueueState) : Prop :=
  length (uploadQueue st2) = length (uploadQueue st)
  /\ (forall e, uploadQueue st !! i = Some e ->
      exists e2, uploadQueue st2 !! i = Some e2 /\ q_id e2 = q_id e
                 /\ uploadStarted e2 = true /\ uploadCompleted e2 = true)
  /\ (forall j e, j <> i -> uploadQueue st !! j = Some e ->
      exists e2, uploadQueue st2 !! j = Some e2 /\ q_id e2 = q_id e
                 /\ uploadStarted e2 = uploadStarted e
                 /\ uploadCompleted e2 = uploadCompleted e).

(** The message ids of the entries that a run of the queue started. *)
Definition startsOf (steps : list QueueStep) : list Z :=
  omap (fun s => match s with Started _ m => Some m | Finished _ _ _ => None end) steps.

(** The bounds of the stabilization factor. *)
Definition in_bounds (F : Q) : Prop := (2 <= F /\ F <= 5)%Q.

(** A trace without its timers. *)
Definition withoutTimers (tr : list Event) : list Event :=
  List.filter (fun ev => match ev with EvSleep _ => false | _ => true end) tr.

(** A computation that leaves the configuration ([this.uploadMode],
    [this.selectiveMode], ...) as it found it. *)
Definition keeps_config {R A} (c : St (World R) A) : Prop :=
  forall w, config (self (c w).2) = config (self w).

(** ** Runs of the channel loop *)

(** The stored offset as [configureDownload] reads it:
    [lastSelection.messageOffsetId || 0]. *)
Definition offsetOf (s : Selection) : Z := default 0%Z (sel_messageOffsetId s).

(** [l] never goes down, and starts at [lo] or above. *)
Fixpoint nondecreasing_from (lo : Z) (l : list Z) : Prop :=
  match l with
  | [] => True
  | x :: r => (lo <= x)%Z /\ nondecreasing_from x r
  end.

(** The checkpoint store after one round of [continuousMode] per element
    of [starts]: every round runs in a process of its own, which starts in
    the given world and finds the store as the round before it left it,
    whatever the outcome of that round. *)
Fixpoint afterRounds {R} (cl : Client R) (fl : Q -> Q)
    (mimeDB : string -> option (option (list string))) (cwd : string) (fuel : nat)
    (rounds : list (Choice * World R)) (st : Store) : Store :=
  match rounds with
  | [] => st
  | (choice, w) :: rest =>
      afterRounds cl fl mimeDB cwd fuel rest
        (continuousRound cl fl mimeDB cwd fuel choice (st, w)).2.1
  end.

(** A source that answers a request for the messages after [offsetId]
    with messages whose ids are above it. *)
Definition ascending_source {R} (cl : Client R) : Prop :=
  forall channelId limit offsetId reverse r msgs r',
    cl_getMessages cl channelId limit (Num offsetId) reverse r = (Returns msgs, r') ->
    Forall (fun m => (offsetId < id m)%Z) msgs.

(*DC-END*)

End DownloadChannel.

(* ===================================================================== *)
(** * Shapes of file names

    Notions in which the properties of [getMediaPath] are stated. *)
(* ===================================================================== *)

Module FileNames.
Import Js Path.

(** A component that [path.join] leaves alone. *)
Definition plain (u : chars) : Prop :=
  (slash ∉ u) /\ u <> [] /\ u <> [dot] /\ u <> [dot; dot].

(** The characters of a unique file name: the stem of [f], an underscore,
    the digits [D] and the extension of [f]. *)
Definition unique_chars (f D : chars) : chars :=
  basename_chars f (extname_chars f) ++ underscore :: D ++ extname_chars f.

(** Reading the id back from a unique file name. *)
Definition id_part (U : chars) : chars :=
  let stem :=
    match rsplit dot U with
    | Some (pre, _) => if bool_decide (underscore ∈ pre) then pre else U
    | None => U
    end in
  match rsplit underscore stem with
  | Some (_, d) => d
  | None => stem
  end.

End FileNames.

(* ===================================================================== *)
(** * Notions for the further properties *)
(* ===================================================================== *)

Module Kinds.

(** Media of none of the kinds that [getMediaType] knows, on a message
    that is no sticker, dice or album. *)
Definition noKnownKind (m : Message) : bool :=
  match media m with
  | Some md =>
      negb (webpage md || poll md || geo md || contact md || venue md || game md
            || invoice md || geoLive md || unsupported md)
      && negb (sticker m || dice m || groupedId m)
      && negb (bool_decide (is_Some (photo md)) || video md || audio md || voice md)
      && negb (bool_decide (is_Some (document md)))
  | None => false
  end.

End Kinds.

(* ===================================================================== *)
(** * Properties *)
(* ===================================================================== *)

Module PathExamples.
Import Js Path.
Open Scope string_scope.

Example extname_html : extname "index.html" = ".html". Proof. reflexivity. Qed.
Example extname_two : extname "index.coffee.md" = ".md". Proof. reflexivity. Qed.
Example extname_trailing_dot : extname "index." = ".". Proof. reflexivity. Qed.
Example extname_none : extname "index" = "". Proof. reflexivity. Qed.
Example extname_hidden : extname ".index" = "". Proof. reflexivity. Qed.
Example extname_hidden_md : extname ".index.md" = ".md". Proof. reflexivity. Qed.
Example extname_dotdot : extname "a/.." = "". Proof. reflexivity. Qed.
Example extname_dir : extname "a.b/c.txt/" = ".txt". Proof. reflexivity. Qed.
Example basename_strips_ext : basename "/foo/bar/quux.html" ".html" = "quux". Proof. reflexivity. Qed.
Example basename_plain : basename "/foo/bar/quux.html" "" = "quux.html". Proof. reflexivity. Qed.
Example join_doc : join ["/foo"; "bar"; "baz/asdf"; "quux"; ".."] = "/foo/bar/baz/asdf".
Proof. reflexivity. Qed.
Example join_rel : join ["export"; "image"; "a_1.jpg"] = "export/image/a_1.jpg".
Proof. reflexivity. Qed.
Example join_up : join [".."; "a"; "."; "b/"] = "../a/b/". Proof. reflexivity. Qed.
Example dirname_doc : dirname "/foo/bar/baz/asdf/quux" = "/foo/bar/baz/asdf".
Proof. reflexivity. Qed.
Example dirname_rel : dirname "a" = ".". Proof. reflexivity. Qed.
Example dirname_root : dirname "/a" = "/". Proof. reflexivity. Qed.
Example dirname_trail : dirname "a/b//" = "a". Proof. reflexivity. Qed.

End PathExamples.

Module PathFacts.
Import Js Path.

Lemma rsplit_None c s : rsplit c s = None -> c ∉ s.
Proof.
  induction s as [|x r IH]; simpl; [intros _; apply not_elem_of_nil|].
  destruct (rsplit c r) as [[pre suf]|]; [discriminate|].
  destruct (Ascii.eqb_spec x c) as [->|Hne]; [discriminate|].
  intros _. apply not_elem_of_cons. split; [intros ?; by subst | auto].
Qed.

Lemma rsplit_Some c s pre suf :
  rsplit c s = Some (pre, suf) -> s = pre ++ c :: suf /\ c ∉ suf.
Proof.
  revert pre. induction s as [|x r IH]; simpl; intros pre; [discriminate|].
  destruct (rsplit c r) as [[pre' suf']|] eqn:E.
  - intros [= <- <-]. destruct (IH _ eq_refl) as [-> Hs]. auto.
  - destruct (Ascii.eqb_spec x c) as [->|Hne]; [|discriminate].
    intros [= <- <-]. split; [reflexivity | by apply rsplit_None].
Qed.

Lemma rsplit_free c s : c ∉ s -> rsplit c s = None.
Proof.
  induction s as [|x r IH]; simpl; [reflexivity|].
  intros [Hx Hr]%not_elem_of_cons. rewrite IH by assumption.
  destruct (Ascii.eqb_spec x c); congruence.
Qed.

Lemma rsplit_app_sep c a e : c ∉ e -> rsplit c (a ++ c :: e) = Some (a, e).
Proof.
  intros He. induction a as [|x a IH]; simpl.
  - rewrite rsplit_free by assumption. by rewrite Ascii.eqb_refl.
  - by rewrite IH.
Qed.

Lemma rsplit_app_free c a b :
  c ∉ b -> rsplit c (a ++ b) = (fun ps => (ps.1, ps.2 ++ b)) <$> rsplit c a.
Proof.
  intros Hb. destruct (rsplit c a) as [[pre suf]|] eqn:E; simpl.
  - apply rsplit_Some in E as [-> Hs].
    rewrite <- app_assoc. simpl. apply rsplit_app_sep.
    rewrite elem_of_app. tauto.
  - apply rsplit_free. apply rsplit_None in E. rewrite elem_of_app. tauto.
Qed.

Lemma split_on_free c u : c ∉ u -> split_on c u = [u].
Proof.
  induction u as [|x u IH]; simpl; [reflexivity|].
  intros [Hx Hu]%not_elem_of_cons. rewrite IH by assumption.
  destruct (Ascii.eqb_spec x c); [by subst | done].
Qed.

Lemma split_on_nonnil c s : split_on c s <> [].
Proof.
  destruct s as [|x r]; simpl; [discriminate|].
  destruct (Ascii.eqb x c); [discriminate|].
  destruct (split_on c r); discriminate.
Qed.

Lemma split_on_app_sep c x u :
  c ∉ u -> split_on c (x ++ c :: u) = split_on c x ++ [u].
Proof.
  intros Hu. induction x as [|y x IH]; simpl.
  - rewrite Ascii.eqb_refl. by rewrite split_on_free.
  - destruct (Ascii.eqb y c); [by rewrite IH|].
    rewrite IH. pose proof (split_on_nonnil c x).
    destruct (split_on c x); [congruence | reflexivity].
Qed.

Lemma segments_app_sep x u :
  slash ∉ u -> u <> [] -> segments (x ++ slash :: u) = segments x ++ [u].
Proof.
  intros Hu Hne. unfold segments. rewrite split_on_app_sep by assumption.
  rewrite List.filter_app. simpl. destruct u; [congruence | reflexivity].
Qed.

Lemma segments_free u : slash ∉ u -> u <> [] -> segments u = [u].
Proof.
  intros Hu Hne. unfold segments. rewrite split_on_free by assumption.
  simpl. destruct u; [congruence | reflexivity].
Qed.

Lemma segments_cons_slash x : segments (slash :: x) = segments x.
Proof. unfold segments. simpl. reflexivity. Qed.

Lemma last_snoc {A} (l : list A) (x d : A) : List.last (l ++ [x]) d = x.
Proof. apply List.last_last. Qed.

Lemma lastSegment_app_sep x u :
  slash ∉ u -> u <> [] -> lastSegment (x ++ slash :: u) = u.
Proof.
  intros. unfold lastSegment. rewrite segments_app_sep by assumption. apply last_snoc.
Qed.

Lemma lastSegment_free u : slash ∉ u -> lastSegment u = u.
Proof.
  intros Hu. destruct u as [|c u]; [reflexivity|].
  unfold lastSegment. by rewrite segments_free.
Qed.

(** Every component of a path is free of slashes and not empty. *)
Lemma split_on_no_sep c s seg : seg ∈ split_on c s -> c ∉ seg.
Proof.
  revert seg. induction s as [|x r IH]; simpl; intros seg.
  - intros ->%list_elem_of_singleton. apply not_elem_of_nil.
  - destruct (Ascii.eqb_spec x c) as [->|Hne].
    + intros [->|H]%elem_of_cons; [apply not_elem_of_nil | auto].
    + pose proof (split_on_nonnil c r).
      destruct (split_on c r) as [|s0 segs]; [congruence|].
      intros [->|H']%elem_of_cons.
      * apply not_elem_of_cons. split; [intros ?; by subst|]. apply IH. left.
      * apply IH. by right.
Qed.

Lemma segments_spec p seg : seg ∈ segments p -> (slash ∉ seg) /\ seg <> [].
Proof.
  unfold segments. intros H. apply list_elem_of_In, List.filter_In in H as [H Hn].
  apply list_elem_of_In in H. split; [by eapply split_on_no_sep|]. by destruct seg.
Qed.

Lemma lastSegment_spec p : slash ∉ lastSegment p.
Proof.
  unfold lastSegment. destruct (segments p) as [|s l] eqn:E; [apply not_elem_of_nil|].
  assert (H : List.last (s :: l) [] ∈ segments p).
  { rewrite E. apply list_elem_of_In.
    destruct (@List.exists_last _ (s :: l)) as (l' & a & Ha); [discriminate|].
    rewrite Ha, List.last_last. apply List.in_or_app. right. by left. }
  by apply segments_spec in H as [? _].
Qed.

End PathFacts.

Module JoinFacts.
Import Js Path FileNames PathFacts.

Lemma normalize_step_plain allow st u : plain u -> normalize_step allow st u = u :: st.
Proof.
  intros (_ & _ & H1 & H2). unfold normalize_step.
  destruct (decide (u = [dot])); [done|]. by destruct (decide (u = [dot; dot])).
Qed.

Lemma normalize_segments_snoc allow segs u :
  plain u -> normalize_segments allow (segs ++ [u]) = normalize_segments allow segs ++ [u].
Proof.
  intros Hu. unfold normalize_segments. rewrite fold_left_app. simpl.
  by rewrite normalize_step_plain.
Qed.

Lemma join_with_slash_snoc segs u :
  join_with_slash (segs ++ [u]) =
  match segs with [] => u | _ => join_with_slash segs ++ slash :: u end.
Proof.
  induction segs as [|s segs IH]; [reflexivity|].
  destruct segs as [|s' segs]; [reflexivity|].
  change (join_with_slash ((s :: s' :: segs) ++ [u]))
    with (s ++ slash :: join_with_slash ((s' :: segs) ++ [u])).
  rewrite IH. change (join_with_slash (s :: s' :: segs))
    with (s ++ slash :: join_with_slash (s' :: segs)).
  by rewrite <- app_assoc.
Qed.

Lemma segments_join_snoc segs u :
  plain u -> segments (join_with_slash (segs ++ [u])) = segments (join_with_slash segs) ++ [u].
Proof.
  intros (Hs & Hne & _). rewrite join_with_slash_snoc. destruct segs as [|s segs].
  - by rewrite segments_free.
  - by rewrite segments_app_sep.
Qed.

Lemma lastSegment_join_snoc segs u :
  plain u -> lastSegment (join_with_slash (segs ++ [u])) = u.
Proof.
  intros Hu. unfold lastSegment. rewrite segments_join_snoc by assumption. apply last_snoc.
Qed.

Lemma join_with_slash_snoc_nonnil segs u : u <> [] -> join_with_slash (segs ++ [u]) <> [].
Proof.
  intros Hu. rewrite join_with_slash_snoc. destruct segs; [done|].
  intros H. by apply app_eq_nil in H as [_ ?].
Qed.

Lemma has_trailing_slash_snoc q c : c <> slash -> has_trailing_slash (q ++ [c]) = false.
Proof.
  intros Hc. unfold has_trailing_slash. rewrite map_app. simpl. rewrite List.last_last.
  by destruct (Ascii.eqb_spec c slash).
Qed.

Lemma plain_last u : plain u -> exists q c, u = q ++ [c] /\ c <> slash.
Proof.
  intros (Hs & Hne & _). destruct (@List.exists_last _ u Hne) as (q & c & ->).
  exists q, c. split; [done|]. intros ->. apply Hs. rewrite elem_of_app, list_elem_of_singleton. auto.
Qed.

Lemma is_absolute_app p q : p <> [] -> is_absolute (p ++ q) = is_absolute p.
Proof. by destruct p. Qed.

(** The last component of a normalized path whose last component is plain. *)
Lemma lastSegment_normalize p segs u :
  plain u -> p <> [] -> segments p = segs ++ [u] -> has_trailing_slash p = false ->
  lastSegment (normalize_chars p) = u.
Proof.
  intros Hu Hp Hsegs Htr. unfold normalize_chars. destruct p as [|c p]; [done|].
  rewrite Hsegs, Htr, normalize_segments_snoc by assumption.
  set (N := normalize_segments _ segs).
  pose proof (join_with_slash_snoc_nonnil N u (proj1 (proj2 Hu))) as Hb.
  destruct (join_with_slash (N ++ [u])) as [|b body] eqn:E; [done|]. rewrite <- E.
  destruct (is_absolute (c :: p)).
  - unfold lastSegment. rewrite segments_cons_slash. by apply lastSegment_join_snoc.
  - by apply lastSegment_join_snoc.
Qed.

Lemma filter_nonempty_snoc parts u :
  u <> [] -> List.filter nonempty (parts ++ [u]) = List.filter nonempty parts ++ [u].
Proof. intros Hu. rewrite List.filter_app. simpl. by destruct u. Qed.

Lemma join_chars_nonnil parts :
  List.filter nonempty parts <> [] ->
  join_chars parts = normalize_chars (join_with_slash (List.filter nonempty parts)).
Proof. unfold join_chars. by destruct (List.filter nonempty parts). Qed.

(** [path.join(..., u)] ends with the component [u]. *)
Lemma lastSegment_join_chars parts u :
  plain u -> lastSegment (join_chars (parts ++ [u])) = u.
Proof.
  intros Hu. pose proof Hu as (Hs & Hne & _).
  rewrite join_chars_nonnil; rewrite filter_nonempty_snoc by assumption;
    [|by destruct (List.filter nonempty parts)].
  set (ps := List.filter nonempty parts).
  destruct (plain_last u Hu) as (q & c & Hq & Hc).
  apply lastSegment_normalize with (segs := segments (join_with_slash ps)); try assumption.
  - by apply join_with_slash_snoc_nonnil.
  - by apply segments_join_snoc.
  - rewrite join_with_slash_snoc. destruct ps as [|s ps'].
    + rewrite Hq. by apply has_trailing_slash_snoc.
    + rewrite Hq.
      replace (join_with_slash (s :: ps') ++ slash :: q ++ [c])
        with ((join_with_slash (s :: ps') ++ slash :: q) ++ [c])
        by (by rewrite <- app_assoc).
      by apply has_trailing_slash_snoc.
Qed.

End JoinFacts.

Module HelperFacts.
Import Js Path FileNames PathFacts JoinFacts Fs Helper.
Local Open Scope list_scope.

Lemma to_chars_app s1 s2 : to_chars (s1 ++ s2)%string = to_chars s1 ++ to_chars s2.
Proof. induction s1 as [|c s1 IH]; simpl; [reflexivity | by rewrite <- IH]. Qed.

Lemma to_of_chars l : to_chars (of_chars l) = l.
Proof. apply list_ascii_of_string_of_list_ascii. Qed.

Lemma of_to_chars s : of_chars (to_chars s) = s.
Proof. apply string_of_list_ascii_of_string. Qed.

Lemma to_chars_inj s1 s2 : to_chars s1 = to_chars s2 -> s1 = s2.
Proof. intros H. by rewrite <- (of_to_chars s1), <- (of_to_chars s2), H. Qed.

(** ** Rendering of ids *)

Lemma uint_chars_digits d c :
  c ∈ to_chars (NilEmpty.string_of_uint d) -> is_digit c = true.
Proof.
  induction d; simpl; try (intros []%elem_of_nil);
    intros [->|H]%elem_of_cons; auto.
Qed.

Lemma string_of_Z_chars i c :
  c ∈ to_chars (string_of_Z i) -> is_digit c = true \/ c = minus.
Proof.
  unfold string_of_Z.
  assert (Hu : forall d, c ∈ to_chars (NilZero.string_of_uint d) -> is_digit c = true).
  { intros d. destruct d; try apply uint_chars_digits.
    simpl. intros [->|[]%elem_of_nil]%elem_of_cons. reflexivity. }
  destruct (Z.to_int i); simpl.
  - intros H. left. by eapply Hu.
  - intros [->|H]%elem_of_cons; [by right | left; by eapply Hu].
Qed.

Lemma string_of_Z_free i c :
  is_digit c = false -> c <> minus -> c ∉ to_chars (string_of_Z i).
Proof. intros Hd Hm [H|H]%string_of_Z_chars; congruence. Qed.

Lemma string_of_Z_inj i j : string_of_Z i = string_of_Z j -> i = j.
Proof.
  unfold string_of_Z. intros H.
  assert (Hn : forall z, Z.to_int z <> Decimal.Pos Decimal.Nil /\ Z.to_int z <> Decimal.Neg Decimal.Nil).
  { intros [|p|p]; simpl; split; try discriminate;
      intros [= Hp]; by apply (Unsigned.to_uint_nonnil p). }
  assert (E : Some (Z.to_int i) = Some (Z.to_int j)).
  { rewrite <- (NilZero.isi (Z.to_int i)), <- (NilZero.isi (Z.to_int j)), H;
      first reflexivity; apply Hn. }
  injection E as E. by rewrite <- (DecimalZ.of_to i), <- (DecimalZ.of_to j), E.
Qed.

(** ** The unique file name *)

Lemma uniqueFileName_chars f i :
  to_chars (uniqueFileName f i) = unique_chars (to_chars f) (to_chars (string_of_Z i)).
Proof.
  unfold uniqueFileName, unique_chars, basename, extname.
  by rewrite !to_chars_app, !to_of_chars.
Qed.

Lemma ext_cases seg :
  (extname_seg seg = [] /\
   (rsplit dot seg = None \/ (exists suf, rsplit dot seg = Some ([], suf)) \/ seg = [dot; dot]))
  \/ (exists pre suf, pre <> [] /\ rsplit dot seg = Some (pre, suf) /\ extname_seg seg = dot :: suf).
Proof.
  unfold extname_seg. destruct (rsplit dot seg) as [[[|x pre] suf]|] eqn:E.
  - left. eauto.
  - destruct (decide (seg = [dot; dot])); [left; auto|].
    right. exists (x :: pre), suf. auto.
  - left. auto.
Qed.

Lemma ends_with_app pre s : ends_with s (pre ++ s) = true.
Proof.
  induction pre as [|x pre IH]; simpl.
  - destruct s; simpl; [done|]. by rewrite decide_True.
  - by destruct (decide _).
Qed.

Lemma basename_ext f pre suf :
  lastSegment f = pre ++ dot :: suf -> pre <> [] -> basename_chars f (dot :: suf) = pre.
Proof.
  intros Hseg Hpre. unfold basename_chars. rewrite Hseg.
  assert (Hlen : length (pre ++ dot :: suf) <> length (dot :: suf)).
  { rewrite length_app. destruct pre; [done|]. simpl. lia. }
  rewrite decide_False.
  - rewrite ends_with_app, bool_decide_eq_false_2 by congruence. simpl.
    rewrite length_app. simpl.
    replace (length pre + S (length suf) - S (length suf))%nat with (length pre) by lia.
    by rewrite take_app_length.
  - intros Hf. apply Hlen. rewrite <- Hseg, <- Hf.
    rewrite lastSegment_free; [done|].
    pose proof (lastSegment_spec f) as Hs. rewrite Hseg in Hs.
    rewrite not_elem_of_app in Hs. tauto.
Qed.

(** The two shapes of a unique file name: [seg_<id>] when the source name
    has no extension, [pre_<id>.suf] when it has one. *)
Lemma unique_chars_shape f D :
  let seg := lastSegment f in
  (unique_chars f D = seg ++ underscore :: D /\
   (rsplit dot seg = None \/ (exists suf, rsplit dot seg = Some ([], suf)) \/ seg = [dot; dot]))
  \/ (exists pre suf, seg = pre ++ dot :: suf /\ (dot ∉ suf) /\
        unique_chars f D = (pre ++ underscore :: D) ++ dot :: suf).
Proof.
  intros seg. unfold unique_chars, extname_chars. fold seg.
  destruct (ext_cases seg) as [[-> H]|(pre & suf & Hpre & Hr & ->)].
  - left. split; [|exact H]. unfold basename_chars. fold seg. by rewrite app_nil_r.
  - right. apply rsplit_Some in Hr as [Hseg Hsuf]. exists pre, suf.
    split; [done|]. split; [done|].
    rewrite (basename_ext f pre suf) by done. by rewrite <- app_assoc.
Qed.

Lemma id_part_unique f D :
  dot ∉ D -> underscore ∉ D -> id_part (unique_chars f D) = D.
Proof.
  intros Hd Hu.
  assert (Hb : dot ∉ underscore :: D).
  { apply not_elem_of_cons. split; [discriminate | done]. }
  destruct (unique_chars_shape f D) as [[-> H]|(pre & suf & Hseg & Hsuf & ->)];
    unfold id_part.
  - rewrite (rsplit_app_free dot _ _ Hb).
    destruct H as [->|[[suf ->]| ->]]; simpl; try by rewrite rsplit_app_sep.
    by rewrite (rsplit_free underscore D).
  - rewrite rsplit_app_sep by done.
    rewrite bool_decide_eq_true_2.
    + by rewrite rsplit_app_sep.
    + rewrite elem_of_app, elem_of_cons. auto.
Qed.

Lemma unique_chars_plain f D : slash ∉ D -> plain (unique_chars f D).
Proof.
  intros HD.
  assert (Hin : underscore ∈ unique_chars f D).
  { unfold unique_chars. rewrite elem_of_app, elem_of_cons. auto. }
  repeat split.
  - pose proof (lastSegment_spec f) as Hs.
    destruct (unique_chars_shape f D) as [[-> _]|(pre & suf & Hseg & _ & ->)].
    + rewrite not_elem_of_app, not_elem_of_cons. repeat split; [done | discriminate | done].
    + rewrite Hseg in Hs. rewrite not_elem_of_app, not_elem_of_cons in Hs.
      destruct Hs as (Hp & _ & Hsuf).
      rewrite !not_elem_of_app, !not_elem_of_cons. repeat split; try done; discriminate.
  - intros E. rewrite E in Hin. by apply elem_of_nil in Hin.
  - intros E. rewrite E in Hin. apply list_elem_of_singleton in Hin. discriminate.
  - intros E. rewrite E in Hin.
    apply elem_of_cons in Hin as [?|Hin]; [discriminate|].
    apply list_elem_of_singleton in Hin. discriminate.
Qed.

Lemma id_chars_free i :
  let D := to_chars (string_of_Z i) in (slash ∉ D) /\ (dot ∉ D) /\ (underscore ∉ D).
Proof. repeat split; by apply string_of_Z_free. Qed.

(** Unique file names of different ids differ, whatever the source names. *)
Lemma uniqueFileName_inj f1 f2 i1 i2 :
  uniqueFileName f1 i1 = uniqueFileName f2 i2 -> i1 = i2.
Proof.
  intros E. apply (f_equal to_chars) in E. rewrite !uniqueFileName_chars in E.
  apply (f_equal id_part) in E.
  destruct (id_chars_free i1) as (_ & ? & ?), (id_chars_free i2) as (_ & ? & ?).
  rewrite !id_part_unique in E by done.
  by apply string_of_Z_inj, to_chars_inj.
Qed.

(** The last component of the path that [path.join] builds. *)
Lemma lastSegment_join out folder f i :
  lastSegment (to_chars (Path.join [out; folder; uniqueFileName f i]))
  = to_chars (uniqueFileName f i).
Proof.
  unfold Path.join. rewrite to_of_chars. simpl map.
  change [to_chars out; to_chars folder; to_chars (uniqueFileName f i)]
    with ([to_chars out; to_chars folder] ++ [to_chars (uniqueFileName f i)]).
  apply lastSegment_join_chars. rewrite uniqueFileName_chars.
  apply unique_chars_plain, id_chars_free.
Qed.

End HelperFacts.

Module MediaPathSpec.
Import Js Path FileNames PathFacts JoinFacts Fs Helper HelperFacts.
Local Open Scope list_scope.
Local Open Scope Z_scope.

Section WithMimeDB.
Variable mimeDB : string -> option (option (list string)).

(** What a successful [getMediaPath] on a message with media returns. *)
Lemma getMediaPath_Ret m md out fs p fs' :
  media m = Some md ->
  getMediaPath mimeDB (Some m) out fs = (Ret p, fs') ->
  exists f folder,
    sourceFileName mimeDB m md = Ret f /\
    p = Path.join [out; folder; uniqueFileName f (id m)] /\
    fs' = (if existsSync fs (Path.dirname p) then fs else mkdirSync fs (Path.dirname p)).
Proof.
  intros Hm. unfold getMediaPath. rewrite Hm.
  destruct (sourceFileName mimeDB m md) as [f| |]; try by intros [=].
  destruct (getMediaType (Some m)) as [t|]; try by intros [=].
  intros [= <- <-]. by exists f, (filterString t).
Qed.

Lemma drop_while_length g l : (length (drop_while g l) <= length l)%nat.
Proof.
  induction l as [|c l IH]; simpl; [lia|]. destruct (g c); simpl; lia.
Qed.

Lemma dirname_chars_neq p : p <> [dot] -> p <> [slash] -> dirname_chars p <> p.
Proof.
  intros Hd Hs. destruct p as [|c0 rest]; [discriminate|]. unfold dirname_chars.
  destruct (drop_while _ (drop_while is_slash (rev rest))) as [|x more] eqn:EX.
  - destruct (is_slash c0); congruence.
  - assert (HX : (length (x :: more) <= length rest)%nat).
    { rewrite <- EX. etransitivity; [apply drop_while_length|].
      etransitivity; [apply drop_while_length|]. by rewrite length_rev. }
    destruct more as [|y more].
    + destruct (is_slash c0); intros [=]; subst; vm_compute in EX; discriminate.
    + intros [= E]. apply (f_equal (@length ascii)) in E.
      rewrite length_app, length_rev in E. simpl in HX, E. lia.
Qed.

(** The directory that [getMediaPath] creates is not the path it returns. *)
Lemma dirname_join_neq out folder f i :
  let p := Path.join [out; folder; uniqueFileName f i] in Path.dirname p <> p.
Proof.
  intros p Hp. pose proof (lastSegment_join out folder f i) as Hl. fold p in Hl.
  assert (Hin : underscore ∈ lastSegment (to_chars p)).
  { rewrite Hl, uniqueFileName_chars. unfold unique_chars.
    rewrite elem_of_app, elem_of_cons. auto. }
  apply (f_equal to_chars) in Hp. unfold Path.dirname in Hp. rewrite to_of_chars in Hp.
  revert Hp. apply dirname_chars_neq; intros E; rewrite E in Hin; vm_compute in Hin.
  - apply list_elem_of_singleton in Hin. discriminate.
  - by apply elem_of_nil in Hin.
Qed.

(** [getMediaPath] leaves the entry at the returned path as it was. *)
Lemma getMediaPath_frame m md out fs p fs' :
  media m = Some md ->
  getMediaPath mimeDB (Some m) out fs = (Ret p, fs') ->
  fs' !! p = fs !! p.
Proof.
  intros Hm H. destruct (getMediaPath_Ret _ _ _ _ _ _ Hm H) as (f & folder & _ & Hp & ->).
  destruct (existsSync fs (Path.dirname p)); [done|].
  unfold mkdirSync. destruct (fs !! Path.dirname p); [done|].
  apply lookup_insert_ne. rewrite Hp. apply dirname_join_neq.
Qed.

(** C9. Two messages with media and different ids never get the same
    local path from [getMediaPath], whatever their source file names,
    media types and output folders are: the last component of the path is
    [<base>_<id><ext>], from which the id can be read back. *)
Theorem getMediaPath_distinct_ids (m1 m2 : Message) out1 out2 fs1 fs2 p1 p2 fs1' fs2' :
  is_Some (media m1) -> is_Some (media m2) ->
  id m1 <> id m2 ->
  getMediaPath mimeDB (Some m1) out1 fs1 = (Ret p1, fs1') ->
  getMediaPath mimeDB (Some m2) out2 fs2 = (Ret p2, fs2') ->
  p1 <> p2.
Proof.
  intros [md1 H1] [md2 H2] Hid G1 G2 E.
  destruct (getMediaPath_Ret _ _ _ _ _ _ H1 G1) as (f1 & d1 & _ & -> & _).
  destruct (getMediaPath_Ret _ _ _ _ _ _ H2 G2) as (f2 & d2 & _ & -> & _).
  apply Hid, (uniqueFileName_inj f1 f2), to_chars_inj.
  rewrite <- (lastSegment_join out1 d1 f1 (id m1)),
    <- (lastSegment_join out2 d2 f2 (id m2)).
  by rewrite E.
Qed.

(** [checkFileExist] once [getMediaPath] has returned a path. *)
Lemma checkFileExist_eval m md out fs p fs' :
  media m = Some md ->
  getMediaPath mimeDB (Some m) out fs = (Ret p, fs') ->
  checkFileExist mimeDB (Some m) out fs =
  (Ret match fs !! p with
       | Some n => n_statOk n && (0 <? n_size n)
       | None => false
       end, fs').
Proof.
  intros Hm G. unfold checkFileExist. rewrite Hm, G.
  pose proof (getMediaPath_frame _ _ _ _ _ _ Hm G) as Hf.
  unfold existsSync, statSync_size. rewrite Hf.
  destruct (fs !! p) as [n|] eqn:E.
  - rewrite bool_decide_eq_true_2 by eauto. by destruct (n_statOk n).
  - rewrite bool_decide_eq_false_2; [done|]. by intros [? [=]].
Qed.

(** C10. [checkFileExist] answers [true] exactly when the message has
    media and the entry at the path computed by [getMediaPath] exists, can
    be read and has a positive size; without media it answers [false]
    without looking at the disk, and it answers [false] for a missing, an
    empty and an unreadable entry. *)
Theorem checkFileExist_spec (message : option Message) out (fs : FS) :
  (forall fs',
      checkFileExist mimeDB message out fs = (Ret true, fs') <->
      exists m p n,
        message = Some m /\ is_Some (media m) /\
        getMediaPath mimeDB message out fs = (Ret p, fs') /\
        fs !! p = Some n /\ n_statOk n = true /\ 0 < n_size n)
  /\ ((message = None \/ exists m, message = Some m /\ media m = None) ->
      checkFileExist mimeDB message out fs = (Ret false, fs))
  /\ (forall m p fs',
        message = Some m -> is_Some (media m) ->
        getMediaPath mimeDB message out fs = (Ret p, fs') ->
        (fs !! p = None \/
         exists n, fs !! p = Some n /\ (n_size n <= 0 \/ n_statOk n = false)) ->
        checkFileExist mimeDB message out fs = (Ret false, fs')).
Proof.
  split; [|split].
  - intros fs'. split.
    + destruct message as [m|]; [|by unfold checkFileExist; intros [=]].
      destruct (media m) as [md|] eqn:Hm;
        [|by unfold checkFileExist; rewrite Hm; intros [=]].
      destruct (getMediaPath mimeDB (Some m) out fs) as [[p| |] fs1] eqn:G;
        try by (unfold checkFileExist; rewrite Hm, G; intros [=]).
      rewrite (checkFileExist_eval m md out fs p fs1 Hm G).
      intros [= H <-]. destruct (fs !! p) as [n|] eqn:E; [|discriminate].
      apply andb_true_iff in H as [Hs Hz]. exists m, p, n.
      repeat split; eauto. by apply Z.ltb_lt.
    + intros (m & p & n & -> & [md Hm] & G & E & Hs & Hz).
      rewrite (checkFileExist_eval m md out fs p fs' Hm G), E, Hs.
      by apply Z.ltb_lt in Hz as ->.
  - intros [->|(m & -> & Hm)]; unfold checkFileExist; [done | by rewrite Hm].
  - intros m p fs' -> [md Hm] G H.
    rewrite (checkFileExist_eval m md out fs p fs' Hm G).
    destruct H as [->|(n & -> & [Hz|Hs])]; [done| |].
    + apply Z.ltb_ge in Hz as ->. by rewrite andb_false_r.
    + by rewrite Hs.
Qed.
End WithMimeDB.

(** Two documents that were uploaded under the same file name. *)
Example getMediaPath_report_7 :
  (getMediaPath DownloadChannel.Sim.noMime (Some (DownloadChannel.Scenario.reportNamed 7)) "/export/42" ∅).1
  = Ret "/export/42/pdf/report_7.pdf"%string.
Proof. vm_compute. reflexivity. Qed.

Lemma getMediaPath_distinct_ids_witness :
  ("/export/42/pdf/report_7.pdf" <> "/export/42/pdf/report_8.pdf")%string.
Proof.
  apply (getMediaPath_distinct_ids DownloadChannel.Sim.noMime
           (DownloadChannel.Scenario.reportNamed 7) (DownloadChannel.Scenario.reportNamed 8)
           "/export/42" "/export/42" ∅ ∅ _ _
           (getMediaPath DownloadChannel.Sim.noMime (Some (DownloadChannel.Scenario.reportNamed 7)) "/export/42" ∅).2
           (getMediaPath DownloadChannel.Sim.noMime (Some (DownloadChannel.Scenario.reportNamed 8)) "/export/42" ∅).2).
  - by eexists.
  - by eexists.
  - discriminate.
  - vm_compute. reflexivity.
  - vm_compute. reflexivity.
Defined.

End MediaPathSpec.

(* ===================================================================== *)
(** ** The speed monitor *)
(* ===================================================================== *)

Module SpeedMonitorSpec.
Import DownloadChannel Num.
Local Open Scope Q_scope.

Section Rounding.
Variable fl : Q -> Q.
(** Rounding to the nearest double is monotone and exact on 1, 2 and 5. *)
Hypothesis fl_mono : forall x y, x <= y -> fl x <= fl y.
Hypothesis fl_1 : fl 1 == 1.
Hypothesis fl_2 : fl 2 == 2.
Hypothesis fl_5 : fl 5 == 5.

Lemma fl_ge_1 c : 1 <= c -> 1 <= fl c.
Proof. intros H. rewrite <- fl_1. by apply fl_mono. Qed.

Lemma fl_le_1 c : c <= 1 -> fl c <= 1.
Proof. intros H. rewrite <- fl_1. by apply fl_mono. Qed.

(** A rounded product with a factor of at least one stays above 2. *)
Lemma fmul_ge_2 F c : 2 <= F -> 1 <= c -> 2 <= fmul fl F c.
Proof.
  intros HF Hc. unfold fmul. rewrite <- fl_2. apply fl_mono. nra.
Qed.

(** A rounded product with a factor of at most one stays below 5. *)
Lemma fmul_le_5 F c : 0 <= F -> F <= 5 -> c <= 1 -> fmul fl F c <= 5.
Proof.
  intros H0 HF Hc. unfold fmul. rewrite <- fl_5. apply fl_mono. nra.
Qed.

(** One [updateSpeed] keeps the factor within its bounds. *)
Lemma updateSpeedAt_bounds t bytes sm boost :
  in_bounds (stabilizationFactor sm) ->
  in_bounds (stabilizationFactor (updateSpeedAt fl t bytes sm boost).1).
Proof.
  intros [Hlo Hhi]. unfold updateSpeedAt.
  set (mbps := fdiv fl _ 1000000).
  assert (H125 : 1 <= fl (125 # 100)) by (apply fl_ge_1; lra).
  assert (H115 : 1 <= fl (115 # 100)) by (apply fl_ge_1; lra).
  assert (H095 : fl (95 # 100) <= 1) by (apply fl_le_1; lra).
  destruct (Qltb mbps 25); [|destruct (Qgeb mbps 30)];
    match goal with |- context [(3 <? ?l)%Z] => destruct (3 <? l)%Z end;
    simpl; unfold in_bounds; try (split; lra).
  - split; [apply Q.min_glb; [lra | by apply fmul_ge_2] | apply Q.le_min_l].
  - split; [apply Q.le_max_l |].
    apply Q.max_lub; [lra | apply fmul_le_5; lra].
  - split; [apply Q.min_glb; [lra | by apply fmul_ge_2] |].
    eapply Qle_trans; [apply Q.le_min_l | lra].
Qed.

Lemma fold_bounds samples sm boost :
  in_bounds (stabilizationFactor sm) ->
  in_bounds (stabilizationFactor
    (fold_left (fun st sample => updateSpeedAt fl sample.1 sample.2 st.1 st.2)
       samples (sm, boost)).1).
Proof.
  revert sm boost. induction samples as [|[t bytes] samples IH]; intros sm boost H.
  - exact H.
  - simpl. destruct (updateSpeedAt fl t bytes sm boost) as [sm' boost'] eqn:E.
    apply IH. change sm' with (sm', boost').1. rewrite <- E.
    by apply updateSpeedAt_bounds.
Qed.

(** C8. From its initial value 3.0 on, the stabilization factor is
    within [2.0, 5.0] after every sequence of [updateSpeed] calls,
    whatever the samples, their times and the branches taken. *)
Theorem stabilizationFactor_bounds t0 boost0 samples :
  2 <= stabilizationFactor (afterSamples fl t0 boost0 samples).1 /\
  stabilizationFactor (afterSamples fl t0 boost0 samples).1 <= 5.
Proof.
  unfold afterSamples. apply fold_bounds. simpl. unfold in_bounds. lra.
Qed.
End Rounding.

Lemma exact_mono x y : x <= y -> Sim.exact x <= Sim.exact y.
Proof. unfold Sim.exact. by rewrite !Qred_correct. Qed.

(** Four slow samples trigger the emergency boost. *)
Lemma stabilizationFactor_bounds_witness :
  2 <= stabilizationFactor
         (afterSamples Sim.exact 0 false [(1000, 10); (2000, 10); (3000, 10); (4000, 10)]%Z).1
  /\ stabilizationFactor
       (afterSamples Sim.exact 0 false [(1000, 10); (2000, 10); (3000, 10); (4000, 10)]%Z).1
     <= 5.
Proof.
  apply (stabilizationFactor_bounds Sim.exact exact_mono); reflexivity.
Defined.

Example emergency_boost :
  stabilizationFactor
    (afterSamples Sim.exact 0 false [(1000, 10); (2000, 10); (3000, 10); (4000, 10)]%Z).1
  == 5.
Proof. vm_compute. reflexivity. Qed.

End SpeedMonitorSpec.

(* ===================================================================== *)
(** ** The retry engine *)
(* ===================================================================== *)

Module RetrySpec.
Import Js DownloadChannel Num.

Section WithClient.
Context {R : Type} (cl : Client R) (fl : Q -> Q).
#[local] Abbreviation M := (St (World R)).

(** [precisionDelay] waits on one timer and cannot fail. *)
Lemma precisionDelay_run ms (w : World R) :
  precisionDelay cl fl ms w =
  (Ret tt,
   let d := precisionDelayMs fl (speedMonitor (self w)) (speedBoostMode (self w)) ms in
   set_remote (cl_elapse cl d (remote w)) (set_trace (trace w ++ [EvSleep d]) w)).
Proof. reflexivity. Qed.

Lemma retryFailures_app tr1 tr2 :
  retryFailures (tr1 ++ tr2) = retryFailures tr1 ++ retryFailures tr2.
Proof. apply omap_app. Qed.

(** One iteration whose attempt fails with a transient error: the last
    one rethrows, the others back off and go on. *)
Lemma retryFrom_transient_step {A} (operation : M A) name maxRetries budget attempt w e w1 :
  operation w = (Thrown e, w1) -> includes "FLOOD_WAIT" e = false ->
  (attempt <= maxRetries)%nat ->
  retryFrom cl fl (S budget) operation name maxRetries attempt w =
  let w2 := set_trace (trace w1 ++ [EvRetryFailed name attempt maxRetries e]) w1 in
  if (attempt =? maxRetries)%nat then (Thrown e, w2)
  else retryFrom cl fl budget operation name maxRetries (S attempt)
         (precisionDelay cl fl (Qmin 500 (100 * ofZ (Z.of_nat attempt))) w2).2.
Proof.
  intros Hop Hfl Hle. simpl. apply Nat.leb_le in Hle. rewrite Hle.
  unfold try_catch, mbind, St_bind. rewrite Hop. unfold emit, modify. simpl.
  rewrite Hfl. by destruct (attempt =? maxRetries)%nat.
Qed.

Lemma retryFrom_transient {A} (operation : M A) name maxRetries :
  always_transient operation ->
  forall budget attempt w,
    (attempt + budget = maxRetries)%nat ->
    exists errors e w',
      retryFrom cl fl (S budget) operation name maxRetries attempt w = (Thrown e, w')
      /\ length errors = S budget /\ last errors = Some e
      /\ retryFailures (trace w') =
         retryFailures (trace w) ++ zip (seq attempt (S budget)) errors.
Proof.
  intros Hop. induction budget as [|budget IH]; intros attempt w Hsum.
  - destruct (Hop w) as (e & w1 & H1 & Hfl & Htr).
    exists [e], e. eexists. rewrite (retryFrom_transient_step _ _ _ _ _ _ _ _ H1 Hfl) by lia.
    replace (attempt =? maxRetries)%nat with true by (symmetry; apply Nat.eqb_eq; lia).
    cbv zeta. split; [reflexivity|]. split; [reflexivity|]. split; [reflexivity|].
    simpl. by rewrite retryFailures_app, Htr.
  - destruct (Hop w) as (e & w1 & H1 & Hfl & Htr).
    rewrite (retryFrom_transient_step _ _ _ _ _ _ _ _ H1 Hfl) by lia.
    replace (attempt =? maxRetries)%nat with false by (symmetry; apply Nat.eqb_neq; lia).
    cbv zeta. rewrite precisionDelay_run.
    match goal with |- context [retryFrom _ _ _ _ _ _ _ ?w2] =>
      destruct (IH (S attempt) w2) as (errors & e' & w' & Hrun & Hlen & Hlast & Hlog);
        [lia|]
    end.
    exists (e :: errors), e', w'. split; [exact Hrun|].
    split; [simpl; lia|]. split.
    { destruct errors; [discriminate Hlen|]. exact Hlast. }
    rewrite Hlog. simpl trace. rewrite !retryFailures_app, Htr. simpl.
    by rewrite app_nil_r, <- app_assoc.
Qed.

(** C3. An operation that fails with a transient (not flood-wait) error
    on every call is attempted exactly [maxRetries] times, the attempts
    being numbered 1 to [maxRetries], and then the error of the last
    attempt is thrown to the caller. *)
Theorem retryOperation_bounded_retries {A} (operation : M A) name maxRetries w :
  (1 <= maxRetries)%nat ->
  always_transient operation ->
  exists errors e w',
    retryOperation cl fl operation name maxRetries w = (Thrown e, w')
    /\ length errors = maxRetries /\ last errors = Some e
    /\ retryFailures (trace w') =
       retryFailures (trace w) ++ zip (seq 1 maxRetries) errors.
Proof.
  intros Hmax Hop. unfold retryOperation.
  destruct maxRetries as [|n]; [lia|].
  apply retryFrom_transient; [exact Hop | lia].
Qed.
End WithClient.

Lemma retryOperation_bounded_retries_witness :
  exists errors e w',
    retryOperation Sim.client Sim.exact Scenario.timingOut "op" 5 (Sim.world (Sim.quiet 0 []) Sim.newSelf)
    = (Thrown e, w')
    /\ length errors = 5%nat /\ last errors = Some e
    /\ retryFailures (trace w') =
       retryFailures (trace (Sim.world (Sim.quiet 0 []) Sim.newSelf))
       ++ zip (seq 1 5) errors.
Proof.
  apply (retryOperation_bounded_retries Sim.client Sim.exact Scenario.timingOut "op" 5).
  - lia.
  - intros w. exists "ETIMEDOUT"%string, w. repeat split; reflexivity.
Defined.

Example timingOut_run :
  let '(r, w) := retryOperation Sim.client Sim.exact Scenario.timingOut "op" 5
                   (Sim.world (Sim.quiet 0 []) Sim.newSelf) in
  r = Thrown "ETIMEDOUT"%string
  /\ map fst (retryFailures (trace w)) = [1; 2; 3; 4; 5]%nat
  /\ length (sleeps (trace w)) = 4%nat.
Proof. vm_compute. repeat split. Qed.

End RetrySpec.

Module FloodWaitSpec.
Import Js DownloadChannel Num RetrySpec.

Section WithClient.
Context {R : Type} (cl : Client R) (fl : Q -> Q).
#[local] Abbreviation M := (St (World R)).
Local Open Scope Q_scope.

Lemma precisionDelayMs_ge_5 sm boost ms : 5 <= precisionDelayMs fl sm boost ms.
Proof.
  unfold precisionDelayMs. destruct sm as [sm|]; [|apply Q.le_max_l].
  destruct boost; [apply Q.le_max_l|].
  destruct (Qltb _ 20); [apply Q.le_max_l|].
  destruct (Qgeb _ 30); (eapply Qle_trans; [|apply Q.le_max_l]); lra.
Qed.

(** [updateFloodWaitHistory(true, d)] appends the event and counts it;
    it leaves the trace, the environment and the speed monitor alone. *)
Lemma updateFloodWaitHistory_true d (w : World R) :
  exists f',
    updateFloodWaitHistory cl fl true d w = (Ret tt, set_self (set_flood f' (self w)) w)
    /\ last (floodWaitHistory f') = Some (cl_now cl (remote w), d)
    /\ consecutiveFloodWaits f' = (consecutiveFloodWaits (flood (self w)) + 1)%Z.
Proof.
  unfold updateFloodWaitHistory, mbind, St_bind, now, gets, modify_flood, modify_self,
    modify. simpl.
  eexists. split; [reflexivity|].
  set (kept := List.filter _ _).
  destruct (3 <? _)%nat; [|destruct (_ =? 1)%nat]; simpl; by rewrite last_snoc.
Qed.

(** C2, as the code has it.  When an attempt before the last one fails
    with a [FLOOD_WAIT] error that carries a wait of [d <= 300] seconds,
    [retryOperation] logs the failure, records the flood event, waits on
    one timer of [precisionDelay(d * 1000)] (the delay scaled by the speed
    monitor, at least 5 ms) and goes on with the next attempt number: the
    rate-limited attempt is one of the [maxRetries] attempts. *)
Theorem retryOperation_flood_wait {A} (operation : M A) name maxRetries budget attempt
    w e w1 :
  operation w = (Thrown e, w1) ->
  includes "FLOOD_WAIT" e = true ->
  (parseInt_first e 60 <= 300)%Z ->
  (attempt < maxRetries)%nat ->
  exists w2 ms,
    retryFrom cl fl (S budget) operation name maxRetries attempt w
    = retryFrom cl fl budget operation name maxRetries (S attempt) w2
    /\ trace w2 = (trace w1 ++ [EvRetryFailed name attempt maxRetries e; EvSleep ms])%list
    /\ ms = precisionDelayMs fl (speedMonitor (self w1)) (speedBoostMode (self w1))
              (ofZ (parseInt_first e 60) * 1000)
    /\ 5 <= ms
    /\ last (floodWaitHistory (flood (self w2)))
       = Some (cl_now cl (remote w1), parseInt_first e 60)
    /\ consecutiveFloodWaits (flood (self w2))
       = (consecutiveFloodWaits (flood (self w1)) + 1)%Z.
Proof.
  intros Hop Hfl Hd Hlt.
  set (logged := set_trace (trace w1 ++ [EvRetryFailed name attempt maxRetries e]) w1).
  destruct (updateFloodWaitHistory_true (parseInt_first e 60) logged)
    as (f' & Hupd & Hlast & Hcount).
  set (ms := precisionDelayMs fl (speedMonitor (self w1)) (speedBoostMode (self w1))
               (ofZ (parseInt_first e 60) * 1000)).
  exists (set_remote (cl_elapse cl ms (remote w1))
            (set_trace (trace logged ++ [EvSleep ms])
               (set_self (set_flood f' (self logged)) logged))), ms.
  split; [|split; [|split; [|split; [|split]]]].
  - cbn [retryFrom]. replace (attempt <=? maxRetries)%nat with true
      by (symmetry; apply Nat.leb_le; lia).
    unfold try_catch, mbind, St_bind. rewrite Hop. unfold emit, modify.
    cbv beta iota. rewrite Hfl. fold logged. rewrite Hupd.
    apply Z.leb_le in Hd. rewrite Hd. by rewrite precisionDelay_run.
  - simpl. by rewrite <- app_assoc.
  - reflexivity.
  - apply precisionDelayMs_ge_5.
  - exact Hlast.
  - exact Hcount.
Qed.
End WithClient.

(** C2, as stated, fails on the code.  The operation is rate limited for
    2 seconds on its first call and times out afterwards; the speed monitor
    is in its initial state.  The claim asks for a wait of at least 2000 ms
    after the first failure, and for the flood wait not to count as an
    attempt, which would leave five attempts for the time-outs.  The code
    waits a third of a second and gives up after four time-outs. *)
Lemma flood_backoff_counterexample :
  let w' := (retryOperation Sim.client Sim.exact Scenario.floodThenTimeout "op" 5
               Scenario.idle).2 in
  head (sleeps (trace w')) = Some (1000 # 3)
  /\ ~ (2000 <= 1000 # 3)%Q
  /\ retryFailures (trace w')
     = [(1, "FLOOD_WAIT_2"); (2, "ETIMEDOUT"); (3, "ETIMEDOUT"); (4, "ETIMEDOUT");
        (5, "ETIMEDOUT")]%nat%string
  /\ (retryOperation Sim.client Sim.exact Scenario.floodThenTimeout "op" 5 Scenario.idle).1
     = Thrown "ETIMEDOUT"%string.
Proof.
  vm_compute. repeat split. intros H. by apply H.
Qed.

Lemma retryOperation_flood_wait_witness :
  exists w2 ms,
    retryFrom Sim.client Sim.exact 5 Scenario.floodThenTimeout "op" 5 1 Scenario.idle
    = retryFrom Sim.client Sim.exact 4 Scenario.floodThenTimeout "op" 5 2 w2
    /\ trace w2 = (trace Scenario.idle ++ [EvRetryFailed "op" 1 5 "FLOOD_WAIT_2"; EvSleep ms])%list
    /\ ms = precisionDelayMs Sim.exact (speedMonitor (self Scenario.idle))
              (speedBoostMode (self Scenario.idle)) (ofZ (parseInt_first "FLOOD_WAIT_2" 60) * 1000)
    /\ (5 <= ms)%Q
    /\ last (floodWaitHistory (flood (self w2)))
       = Some (cl_now Sim.client (remote Scenario.idle), parseInt_first "FLOOD_WAIT_2" 60)
    /\ consecutiveFloodWaits (flood (self w2))
       = (consecutiveFloodWaits (flood (self Scenario.idle)) + 1)%Z.
Proof.
  apply (retryOperation_flood_wait Sim.client Sim.exact Scenario.floodThenTimeout "op" 5 4 1
           Scenario.idle "FLOOD_WAIT_2" Scenario.idle).
  - reflexivity.
  - reflexivity.
  - vm_compute. discriminate.
  - lia.
Defined.

End FloodWaitSpec.

(* ===================================================================== *)
(** ** Sorting by id *)
(* ===================================================================== *)

Module SortFacts.
Import Js.

Section Sort.
Context {A : Type} (key : A -> Z).

Lemma insert_by_perm x l : insert_by key x l ≡ₚ x :: l.
Proof.
  induction l as [|y r IH]; simpl; [done|].
  destruct (key y <? key x); [|done].
  rewrite IH. apply Permutation_swap.
Qed.

Lemma sort_by_perm l : sort_by key l ≡ₚ l.
Proof.
  induction l as [|x l IH]; simpl; [done|].
  rewrite insert_by_perm. by rewrite IH.
Qed.

Lemma insert_by_sorted x l :
  StronglySorted (key_le key) l -> StronglySorted (key_le key) (insert_by key x l).
Proof.
  induction 1 as [|y r Hr IH Hy]; simpl.
  - repeat constructor.
  - destruct (Z.ltb_spec (key y) (key x)).
    + constructor; [exact IH|]. rewrite insert_by_perm.
      constructor; [unfold key_le; lia | exact Hy].
    + constructor; [by constructor|].
      constructor; [unfold key_le; lia|].
      eapply Forall_impl; [exact Hy|]. unfold key_le. intros; lia.
Qed.

Lemma sort_by_sorted l : StronglySorted (key_le key) (sort_by key l).
Proof.
  induction l as [|x l IH]; simpl; [constructor | by apply insert_by_sorted].
Qed.

Lemma sort_by_length l : length (sort_by key l) = length l.
Proof. apply Permutation_length, sort_by_perm. Qed.

(** The keys of the sorted list ascend; strictly when they are pairwise
    different. *)
Lemma sorted_keys_le l : StronglySorted (key_le key) l -> StronglySorted Z.le (map key l).
Proof.
  induction 1 as [|y r Hr IH Hy]; simpl; constructor; [exact IH|].
  apply Forall_forall. intros k Hk.
  apply list_elem_of_fmap in Hk as (b & -> & Hb).
  by apply (proj1 (Forall_forall _ _) Hy).
Qed.

Lemma strictly_sorted ks :
  StronglySorted Z.le ks -> NoDup ks -> StronglySorted Z.lt ks.
Proof.
  induction 1 as [|k r Hr IH Hk]; intros Hnd; constructor.
  - apply IH. by apply NoDup_cons in Hnd as [_ ?].
  - apply NoDup_cons in Hnd as [Hnotin _].
    apply Forall_forall. intros k' Hk'.
    assert (k <= k') by by apply (proj1 (Forall_forall _ _) Hk).
    assert (k <> k') by (intros ->; by apply Hnotin).
    lia.
Qed.

Lemma sort_by_keys_strict l :
  NoDup (map key l) -> StronglySorted Z.lt (map key (sort_by key l)).
Proof.
  intros Hnd. apply strictly_sorted.
  - apply sorted_keys_le, sort_by_sorted.
  - assert (Hp : map key (sort_by key l) ≡ₚ map key l)
      by apply Permutation_map, sort_by_perm.
    by rewrite Hp.
Qed.
End Sort.

End SortFacts.

(* ===================================================================== *)
(** ** The sequential upload queue *)
(* ===================================================================== *)

Module QueueSpec.
Import Js Fs DownloadChannel Num RetrySpec SortFacts.

Section WithClient.
Context {R : Type} (cl : Client R) (fl : Q -> Q).
#[local] Abbreviation M := (St (World R)).

(** *** Computations that add no queue step *)

Lemma silent_ret {A} (a : A) : silent (mret a : M A).
Proof. intros w. by exists (Ret a), w. Qed.

Lemma silent_throw {A} e : silent (throw e : M A).
Proof. intros w. by exists (Thrown e), w. Qed.

Lemma silent_bind {A B} (m : M A) (f : A -> M B) :
  silent m -> (forall a, silent (f a)) -> silent (m ≫= f).
Proof.
  intros Hm Hf w. destruct (Hm w) as (r & w1 & E & Hr & Ht).
  unfold mbind, St_bind. rewrite E. destruct r as [a| |]; [|by eexists _, _|done].
  destruct (Hf a w1) as (r2 & w2 & E2 & Hr2 & Ht2).
  exists r2, w2. by rewrite E2, Ht2.
Qed.

Lemma silent_try_catch {A} (body : M A) handler :
  silent body -> (forall e, silent (handler e)) -> silent (try_catch body handler).
Proof.
  intros Hb Hh w. destruct (Hb w) as (r & w1 & E & Hr & Ht).
  unfold try_catch. rewrite E. destruct r as [a|e|]; [by eexists _, _| |done].
  destruct (Hh e w1) as (r2 & w2 & E2 & Hr2 & Ht2).
  exists r2, w2. by rewrite E2, Ht2.
Qed.

(** [catching] makes the outcome of such a computation a value. *)
Lemma catching_run {A} (body : M A) :
  silent body ->
  forall w, exists x w',
    catching body w = (Ret x, w') /\ queueSteps (trace w') = queueSteps (trace w).
Proof.
  intros Hb w. destruct (Hb w) as (r & w1 & E & Hr & Ht).
  unfold catching, try_catch, mbind, St_bind. rewrite E.
  destruct r as [a|e|]; [by exists (inl a), w1 | by exists (inr e), w1 | done].
Qed.

Lemma silent_gets {A} (f : World R -> A) : silent (gets f).
Proof. intros w. by eexists _, _. Qed.

Lemma silent_modify (f : World R -> World R) :
  (forall w, trace (f w) = trace w) -> silent (modify f).
Proof. intros Hf w. eexists _, _. repeat split; [done|]. simpl. by rewrite Hf. Qed.

Lemma silent_emit e :
  match e with EvUploadStarting _ _ | EvUploadFinished _ _ _ => False | _ => True end ->
  silent (emit e : M unit).
Proof.
  intros He w. eexists _, _. repeat split; [done|]. simpl.
  unfold queueSteps. rewrite omap_app. simpl. destruct e; try done; by rewrite app_nil_r.
Qed.

Lemma silent_call {A} (f : R -> reply A * R) : silent (call f).
Proof.
  intros w. unfold call. destruct (f (remote w)) as [[a|msg] r']; by eexists _, _.
Qed.

Lemma silent_on_disk {A} (f : FS -> outcome A * FS) :
  (forall fs, (f fs).1 <> Diverged) -> silent (on_disk f : M A).
Proof.
  intros Hf w. unfold on_disk. specialize (Hf (disk w)).
  destruct (f (disk w)) as [r fs']. by exists r, (set_disk fs' w).
Qed.

Lemma silent_when b (c : M unit) : silent c -> silent (when b c).
Proof. intros Hc. destruct b; [exact Hc | apply silent_ret]. Qed.

Create HintDb silent.
Hint Resolve silent_ret silent_throw silent_gets silent_call silent_when : silent.

Ltac silent_leaf :=
  first
    [ apply silent_ret | apply silent_throw | apply silent_gets | apply silent_call
    | apply silent_emit; exact I
    | apply silent_modify; reflexivity
    | apply silent_on_disk; intros fs; unfold statSync_size, unlinkSync; simpl;
      repeat match goal with
             | |- context [match ?x with _ => _ end] => destruct x
             | |- context [if ?b then _ else _] => destruct b
             end; simpl; discriminate
    | solve [auto with silent] ].

Ltac silent_go :=
  repeat
    first
      [ silent_leaf
      | apply silent_bind; [|intros]
      | apply silent_try_catch; [|intros]
      | apply silent_when
      | match goal with
        | |- silent (if ?b then _ else _) => destruct b
        | |- silent (match ?x with _ => _ end) => destruct x
        | |- silent (let _ := _ in _) => cbv zeta
        end ].

Lemma silent_the {A} (f : Self -> A) : silent (the f : M A).
Proof. apply silent_gets. Qed.

Lemma silent_modify_self f : silent (modify_self f : M unit).
Proof. apply silent_modify. reflexivity. Qed.

Lemma silent_modify_counters f : silent (modify_counters f : M unit).
Proof. apply silent_modify. reflexivity. Qed.

Lemma silent_modify_flood f : silent (modify_flood f : M unit).
Proof. apply silent_modify. reflexivity. Qed.

Lemma silent_now : silent (now cl).
Proof. apply silent_gets. Qed.

Lemma silent_sleep ms : silent (sleep cl ms).
Proof. unfold sleep. silent_go. Qed.

Hint Resolve silent_the silent_modify_self silent_modify_counters silent_modify_flood
  silent_now silent_sleep : silent.

Lemma silent_precisionDelay ms : silent (precisionDelay cl fl ms).
Proof. unfold precisionDelay. silent_go. Qed.

Lemma silent_updateFloodWaitHistory b d : silent (updateFloodWaitHistory cl fl b d).
Proof. unfold updateFloodWaitHistory. silent_go. Qed.

Lemma silent_updateSpeed bytes : silent (updateSpeed cl fl bytes).
Proof. unfold updateSpeed. silent_go. Qed.

Lemma silent_ultraOptimizedWait ms : silent (ultraOptimizedWait cl fl ms).
Proof. unfold ultraOptimizedWait. silent_go. Qed.

Hint Resolve silent_precisionDelay silent_updateFloodWaitHistory silent_updateSpeed
  silent_ultraOptimizedWait : silent.

Lemma silent_checkRateLimit : silent (checkRateLimit cl fl).
Proof. unfold checkRateLimit. silent_go. Qed.

Lemma silent_sendToTarget m p single : silent (sendToTarget cl m p single).
Proof. unfold sendToTarget, uploadMessageToChannel. silent_go. Qed.

Hint Resolve silent_checkRateLimit silent_sendToTarget : silent.

Lemma silent_uploadLoop budget m p single attempt :
  silent (uploadLoop cl fl budget m p single attempt).
Proof.
  revert attempt. induction budget as [|budget IH]; intros attempt; simpl.
  - apply silent_ret.
  - silent_go; try apply IH.
Qed.

Lemma silent_uploadMessage m p single : silent (uploadMessage cl fl m p single).
Proof. apply silent_uploadLoop. Qed.

Lemma silent_reconnectClient : silent (reconnectClient cl fl).
Proof. unfold reconnectClient. silent_go. Qed.

Hint Resolve silent_uploadMessage silent_reconnectClient : silent.

Lemma silent_uploadOperation m p single : silent (uploadOperation cl fl m p single).
Proof. unfold uploadOperation. silent_go. Qed.

Lemma silent_retryFrom {A} budget (operation : M A) name maxRetries attempt :
  silent operation -> silent (retryFrom cl fl budget operation name maxRetries attempt).
Proof.
  intros Hop. revert attempt. induction budget as [|budget IH]; intros attempt; simpl.
  - apply silent_ret.
  - silent_go; try first [exact Hop | apply IH].
Qed.

Lemma silent_waitForPrevious n b : silent (waitForPrevious cl fl n b).
Proof. induction n as [|n IH]; simpl; silent_go; try exact IH. Qed.

(** *** One entry of the queue *)

Lemma advanced_done st i ok mp (signal : bool) :
  advanced i st
    ((if signal then update_entry (S i) signal_ready else fun s => s)
       (finish_entry i ok
          (update_entry i (fun e => set_uploadStarted true (set_q_mediaPath mp e)) st))).
Proof.
  unfold advanced. destruct signal; simpl; rewrite ?length_alter.
  all: split; [done|]; split.
  all: try (intros e He; rewrite ?list_lookup_alter_ne by lia;
            rewrite !list_lookup_alter_eq, He; simpl; by eexists).
  all: intros j e Hj He.
  - destruct (decide (j = S i)) as [->|Hn].
    + rewrite list_lookup_alter_eq, !list_lookup_alter_ne, He by lia. simpl. by eexists.
    + rewrite !list_lookup_alter_ne, He by lia. by eexists.
  - rewrite !list_lookup_alter_ne, He by lia. by eexists.
Qed.

Lemma advanced_ids i st st2 :
  advanced i st st2 -> map q_id (uploadQueue st2) = map q_id (uploadQueue st).
Proof.
  intros (Hlen & Hi & Ho). apply list_eq. intros j.
  change (map q_id ?l) with (q_id <$> l). rewrite !list_lookup_fmap.
  destruct (uploadQueue st !! j) as [e|] eqn:E.
  - destruct (decide (j = i)) as [->|Hn].
    + destruct (Hi e E) as (e2 & -> & Hid & _). simpl. by rewrite Hid.
    + destruct (Ho j e Hn E) as (e2 & -> & Hid & _). simpl. by rewrite Hid.
  - apply lookup_ge_None in E. rewrite <- Hlen in E.
    apply lookup_ge_None in E. by rewrite E.
Qed.

(** The rest of the loop is entered after at most one more timer. *)
Lemma next_run {A} (c : bool) ms (rest : M A) w :
  exists w3, (when c (precisionDelay cl fl ms);; rest) w = rest w3
             /\ queueSteps (trace w3) = queueSteps (trace w).
Proof.
  destruct c; unfold when, mbind, St_bind.
  - rewrite precisionDelay_run. eexists. split; [reflexivity|]. simpl.
    unfold queueSteps. rewrite omap_app. simpl. by rewrite app_nil_r.
  - by exists w.
Qed.

Lemma queueSteps_snoc tr e :
  queueSteps (tr ++ [e]) =
  queueSteps tr ++ match e with
                   | EvUploadStarting i m => [Started i m]
                   | EvUploadFinished i m ok => [Finished i m ok]
                   | _ => []
                   end.
Proof. unfold queueSteps. rewrite omap_app. simpl. by destruct e. Qed.

(** The wait for the previous entry returns at once when that entry is
    completed. *)
Lemma wait_run i st w :
  (forall p e, i = S p -> uploadQueue st !! p = Some e -> uploadCompleted e = true) ->
  catching
    (match i with
     | O => mret tt
     | S previousIndex =>
         match uploadQueue st !! previousIndex with
         | Some previousData =>
             if negb (uploadCompleted previousData) then
               waitForPrevious cl fl 300 (uploadCompleted previousData);;
               if negb (uploadCompleted previousData) then
                 throw ("Timeout waiting for previous message "
                          ++ string_of_Z (q_id previousData))
               else mret tt
             else mret tt
         | None => mret tt
         end
     end) w = (Ret (inl tt), w).
Proof.
  intros Hinv. destruct i as [|p]; [reflexivity|].
  destruct (uploadQueue st !! p) as [prev|] eqn:E; [|reflexivity].
  by rewrite (Hinv p prev eq_refl E).
Qed.

(** An entry whose predecessor is completed is started, its result is
    recorded whatever the outcome of the upload, and the rest of the loop
    is entered. *)
Lemma uploadEntry_steps single i cur (rest : QueueState -> M QueueState) st w :
  uploadQueue st !! i = Some cur ->
  (forall p e, i = S p -> uploadQueue st !! p = Some e -> uploadCompleted e = true) ->
  exists ok st2 w2,
    uploadEntry cl fl single i cur rest st w = rest st2 w2
    /\ queueSteps (trace w2) =
       queueSteps (trace w) ++ [Started i (q_id cur); Finished i (q_id cur) ok]
    /\ advanced i st st2.
Proof.
  intros Hcur Hinv. unfold uploadEntry. cbv zeta.
  unfold mbind at 1, St_bind at 1. rewrite (wait_run i st w Hinv).
  unfold mbind at 1, St_bind at 1, gets at 1. cbv beta iota.
  set (mp := match q_mediaPath cur with
             | Some p => if existsSync (disk w) p then Some p else None
             | None => None
             end).
  set (st1 := update_entry i _ st).
  unfold mbind at 1, St_bind at 1, emit at 1, modify at 1. cbv beta iota.
  set (w1 := set_trace _ w).
  assert (Hw1 : queueSteps (trace w1) = queueSteps (trace w) ++ [Started i (q_id cur)]).
  { unfold w1. simpl. by rewrite queueSteps_snoc. }
  destruct (catching_run
              (retryOperation cl fl (uploadOperation cl fl (d_message (q_data cur)) mp single)
                 ("uploading message " ++ string_of_Z (q_id cur)) 5)
              (silent_retryFrom _ _ _ _ _ (silent_uploadOperation _ _ _)) w1)
    as (uploaded & w2 & E2 & H2).
  unfold mbind at 1, St_bind at 1. rewrite E2.
  (* the three ways in which the result is recorded *)
  assert (Hfinish : forall ok (signal delay : bool) w3,
    queueSteps (trace w3) = queueSteps (trace w) ++ [Started i (q_id cur)] ->
    exists st2 w4,
      (emit (EvUploadFinished i (q_id cur) ok);;
       (when (delay && (i + 1 <? length (uploadQueue st))%nat)
          (precisionDelay cl fl (if single then 100 else 500));;
        rest ((if signal then update_entry (S i) signal_ready else fun s => s)
                (finish_entry i ok st1)))) w3
      = rest st2 w4
      /\ queueSteps (trace w4) =
         queueSteps (trace w) ++ [Started i (q_id cur); Finished i (q_id cur) ok]
      /\ advanced i st st2).
  { intros ok signal delay w3 H3.
    unfold mbind at 1, St_bind at 1, emit at 1, modify at 1. cbv beta iota.
    destruct (next_run (delay && (i + 1 <? length (uploadQueue st))%nat)
                (if single then 100 else 500)%Q
                (rest ((if signal then update_entry (S i) signal_ready else fun s => s)
                         (finish_entry i ok st1)))
                (set_trace (trace w3 ++ [EvUploadFinished i (q_id cur) ok]) w3))
      as (w4 & E4 & H4).
    eexists _, w4. split; [exact E4|]. split.
    - rewrite H4. simpl. rewrite queueSteps_snoc, H3. by rewrite <- app_assoc.
    - apply advanced_done. }
  destruct uploaded as [done_|error].
  - destruct (Hfinish true true true w2) as (st2 & w4 & E4 & H4 & Hadv);
      [by rewrite H2|].
    exists true, st2, w4. by rewrite <- E4.
  - destruct (includes "FLOOD_WAIT" error).
    + unfold mbind at 1, St_bind at 1. rewrite precisionDelay_run.
      unfold mbind at 1, St_bind at 1.
      match goal with |- context [catching ?c ?w5] =>
        destruct (catching_run c (silent_uploadMessage _ _ _) w5)
          as (retried & w6 & E6 & H6)
      end.
      rewrite E6.
      assert (H6' : queueSteps (trace w6) = queueSteps (trace w) ++ [Started i (q_id cur)]).
      { rewrite H6. simpl. by rewrite queueSteps_snoc, app_nil_r, H2. }
      destruct retried as [[|]|retryError].
      * destruct (Hfinish true false false w6 H6') as (st2 & w4 & E4 & H4 & Hadv).
        exists true, st2, w4. by rewrite <- E4.
      * destruct (Hfinish false true true w6 H6') as (st2 & w4 & E4 & H4 & Hadv).
        exists false, st2, w4. by rewrite <- E4.
      * destruct (Hfinish false true true w6 H6') as (st2 & w4 & E4 & H4 & Hadv).
        exists false, st2, w4. by rewrite <- E4.
    + destruct (Hfinish false true true w2) as (st2 & w4 & E4 & H4 & Hadv);
        [by rewrite H2|].
      exists false, st2, w4. by rewrite <- E4.
Qed.

(** *** The whole queue *)

Lemma uploadStarts_steps tr : uploadStarts tr = startsOf (queueSteps tr).
Proof.
  induction tr as [|e tr IH]; [done|].
  unfold uploadStarts, startsOf, queueSteps in *.
  destruct e; simpl; first [exact IH | f_equal; exact IH].
Qed.

Lemma startsOf_steps_of i ids oks :
  length oks = length ids -> startsOf (steps_of i (zip ids oks)) = ids.
Proof.
  revert i oks. induction ids as [|m ids IH]; intros i [|ok oks] Hlen; try done.
  simpl in *. unfold startsOf in *. simpl. f_equal. apply IH. lia.
Qed.

(** Two consecutive entries in the steps of a run. *)
Lemma steps_of_consecutive n ids oks i a b :
  length oks = length ids -> ids !! i = Some a -> ids !! S i = Some b ->
  exists ok before after,
    steps_of n (zip ids oks) =
    before ++ [Started (n + i) a; Finished (n + i) a ok; Started (n + S i) b] ++ after.
Proof.
  revert n ids oks. induction i as [|i IH]; intros n ids oks Hlen Ha Hb.
  - destruct ids as [|a' [|b' ids]]; try done. destruct oks as [|ok [|ok2 oks]]; try done.
    simpl in Ha, Hb. injection Ha as ->. injection Hb as ->.
    exists ok, [], (Finished (S n) b ok2 :: steps_of (S (S n)) (zip ids oks)).
    simpl. by rewrite Nat.add_0_r, Nat.add_1_r.
  - destruct ids as [|x ids]; [done|]. destruct oks as [|o oks]; [done|].
    simpl in Ha, Hb, Hlen.
    destruct (IH (S n) ids oks ltac:(lia) Ha Hb) as (ok & before & after & E).
    exists ok, (Started n x :: Finished n x o :: before), after.
    simpl. rewrite E. by replace (n + S i)%nat with (S n + i)%nat by lia;
      replace (n + S (S i))%nat with (S n + S i)%nat by lia.
Qed.

(** The loop handles every entry from [i] on, in the order of the queue,
    each one after the one before it is completed. *)
Lemma uploadFrom_steps single budget : forall i st w,
  (length (uploadQueue st) <= i + budget)%nat ->
  (forall p e, i = S p -> uploadQueue st !! p = Some e -> uploadCompleted e = true) ->
  exists oks st' w',
    uploadFrom cl fl budget single i st w = (Ret st', w')
    /\ length oks = (length (uploadQueue st) - i)%nat
    /\ queueSteps (trace w') =
       queueSteps (trace w) ++ steps_of i (zip (drop i (map q_id (uploadQueue st))) oks)
    /\ map q_id (uploadQueue st') = map q_id (uploadQueue st)
    /\ (forall j e, (i <= j)%nat -> uploadQueue st' !! j = Some e ->
        uploadStarted e = true /\ uploadCompleted e = true)
    /\ (forall j e, (j < i)%nat -> uploadQueue st !! j = Some e ->
        exists e', uploadQueue st' !! j = Some e'
                   /\ uploadStarted e' = uploadStarted e
                   /\ uploadCompleted e' = uploadCompleted e).
Proof.
  assert (Hstop : forall i st (w : World R),
    (length (uploadQueue st) <= i)%nat ->
    exists oks st' w',
      (Ret st, w) = (Ret st', w')
      /\ length oks = (length (uploadQueue st) - i)%nat
      /\ queueSteps (trace w') =
         queueSteps (trace w) ++ steps_of i (zip (drop i (map q_id (uploadQueue st))) oks)
      /\ map q_id (uploadQueue st') = map q_id (uploadQueue st)
      /\ (forall j e, (i <= j)%nat -> uploadQueue st' !! j = Some e ->
          uploadStarted e = true /\ uploadCompleted e = true)
      /\ (forall j e, (j < i)%nat -> uploadQueue st !! j = Some e ->
          exists e', uploadQueue st' !! j = Some e'
                     /\ uploadStarted e' = uploadStarted e
                     /\ uploadCompleted e' = uploadCompleted e)).
  { intros i st w Hlen. exists [], st, w. split; [done|]. split; [simpl; lia|].
    split; [by rewrite drop_ge, app_nil_r by (rewrite length_map; lia)|].
    split; [done|]. split.
    - intros j e Hj He. apply lookup_lt_Some in He. lia.
    - intros j e _ He. by exists e. }
  induction budget as [|budget IH]; intros i st w Hlen Hinv.
  - apply Hstop. lia.
  - simpl. destruct (uploadQueue st !! i) as [cur|] eqn:Ecur.
    2:{ apply Hstop. by apply lookup_ge_None. }
    destruct (uploadEntry_steps single i cur (uploadFrom cl fl budget single (S i))
                st w Ecur Hinv) as (ok & st2 & w2 & E & Hs & Hadv).
    pose proof Hadv as (Hl2 & Hi2 & Ho2).
    destruct (Hi2 cur Ecur) as (e2 & Ee2 & Hid2 & Hst2 & Hc2).
    destruct (IH (S i) st2 w2) as (oks & st' & w' & E' & Hlo & Hs' & Hids & Hdone & Hframe).
    { rewrite Hl2. lia. }
    { intros p e [= <-] He. rewrite Ee2 in He. by injection He as <-. }
    pose proof (lookup_lt_Some _ _ _ Ecur) as Hlt.
    exists (ok :: oks), st', w'. rewrite E. split; [done|].
    split; [simpl; rewrite Hlo, Hl2; lia|].
    split.
    { rewrite Hs', Hs, (advanced_ids _ _ _ Hadv).
      rewrite (drop_S (map q_id (uploadQueue st)) (q_id cur) i).
      - simpl. by rewrite <- app_assoc.
      - change (map q_id ?l) with (q_id <$> l). by rewrite list_lookup_fmap, Ecur. }
    split; [by rewrite Hids, (advanced_ids _ _ _ Hadv)|].
    split.
    + intros j e Hj He. destruct (decide (j = i)) as [->|Hn].
      * destruct (Hframe i e2 ltac:(lia) Ee2) as (e' & Ee' & Hs1 & Hc1).
        rewrite Ee' in He. injection He as <-. by rewrite Hs1, Hc1.
      * apply (Hdone j e); [lia|done].
    + intros j e Hj He.
      destruct (Ho2 j e ltac:(lia) He) as (e3 & Ee3 & _ & Hs3 & Hc3).
      destruct (Hframe j e3 ltac:(lia) Ee3) as (e' & Ee' & Hs1 & Hc1).
      exists e'. by rewrite Hs1, Hc1.
Qed.

Lemma newQueue_ids (sorted : list Downloaded) :
  map q_id (uploadQueue (newQueue sorted)) = map (fun d => id (d_message d)) sorted.
Proof.
  simpl. apply list_eq. intros j.
  change (map ?f ?l) with (f <$> l). rewrite !list_lookup_fmap, list_lookup_imap.
  by destruct (sorted !! j).
Qed.

(** The queue part of [uploadBatch] handles the records in the order of
    the sorted batch and leaves every entry started and completed. *)
Lemma runUploadQueue_steps (downloadedData : list Downloaded) w :
  let ids := map (fun d => id (d_message d))
               (sort_by (fun d => id (d_message d)) downloadedData) in
  exists oks st' w',
    runUploadQueue cl fl downloadedData w = (Ret st', w')
    /\ length oks = length ids
    /\ queueSteps (trace w') = queueSteps (trace w) ++ steps_of 0 (zip ids oks)
    /\ map q_id (uploadQueue st') = ids
    /\ (forall j e, uploadQueue st' !! j = Some e ->
        uploadStarted e = true /\ uploadCompleted e = true).
Proof.
  intros ids. unfold runUploadQueue.
  set (sorted := sort_by _ downloadedData).
  destruct (uploadFrom_steps (length downloadedData =? 1)%nat (length sorted) 0
              (newQueue sorted) w)
    as (oks & st' & w' & E & Hlo & Hs & Hids & Hdone & _).
  { simpl. by rewrite length_imap. }
  { done. }
  exists oks, st', w'. rewrite newQueue_ids in Hs, Hids. rewrite drop_0 in Hs.
  split; [done|]. split.
  - rewrite Hlo. simpl. unfold ids. by rewrite length_imap, length_map, Nat.sub_0_r.
  - split; [done|]. split; [done|]. intros j e. apply Hdone. lia.
Qed.

Lemma uploadBatch_steps (downloadedData : list Downloaded) w :
  uploadMode (config (self w)) = true ->
  let sorted := sort_by (fun d => id (d_message d)) downloadedData in
  let ids := map (fun d => id (d_message d)) sorted in
  exists oks w',
    uploadBatch cl fl downloadedData w = (Ret sorted, w')
    /\ length oks = length ids
    /\ queueSteps (trace w') = queueSteps (trace w) ++ steps_of 0 (zip ids oks).
Proof.
  intros Hmode sorted ids. unfold uploadBatch, the, gets, mbind at 1, St_bind at 1.
  rewrite Hmode. simpl negb. cbv beta iota. rewrite orb_false_l.
  case_bool_decide as Hnil.
  - subst downloadedData. exists [], w. simpl. by rewrite app_nil_r.
  - destruct (runUploadQueue_steps downloadedData w) as (oks & st' & w' & E & Hlo & Hs & _).
    exists oks, w'. unfold mbind, St_bind. by rewrite E.
Qed.



(** *** [uploadMessage] reports with its result *)

Lemma updateFloodWaitHistory_Ret b d (w : World R) :
  exists w', updateFloodWaitHistory cl fl b d w = (Ret tt, w').
Proof. by eexists. Qed.

Lemma uploadLoop_returns budget m p single :
  forall attempt (w : World R),
    exists b w', uploadLoop cl fl budget m p single attempt w = (Ret b, w').
Proof.
  induction budget as [|budget IH]; intros attempt w; cbn [uploadLoop].
  { by exists false, w. }
  destruct (attempt <? maxRetriesFor single); [|by exists false, w].
  match goal with |- context [try_catch ?body ?handler] =>
    assert (Hbody : silent body) by silent_go
  end.
  unfold try_catch at 1.
  match goal with |- context [match ?body w with _ => _ end] =>
    destruct (Hbody w) as (r & w1 & E & Hr & _); rewrite E
  end.
  destruct r as [b|e|]; [by exists b, w1| |done]. cbv zeta.
  assert (Hnext : forall ms (w2 : World R),
    exists b w',
      (precisionDelay cl fl ms;; uploadLoop cl fl budget m p single (attempt + 1)) w2
      = (Ret b, w')).
  { intros ms w2. unfold mbind, St_bind. rewrite precisionDelay_run. apply IH. }
  destruct (includes "CHAT_FORWARDS_RESTRICTED" e); [by exists false, w1|].
  destruct (includes "FLOOD_WAIT" e).
  { destruct (updateFloodWaitHistory_Ret true 0 w1) as (w2 & E2).
    unfold mbind at 1, St_bind at 1. rewrite E2. apply Hnext. }
  destruct (attempt + 1 <? maxRetriesFor single); [apply Hnext|].
  unfold mbind at 1, St_bind at 1. rewrite precisionDelay_run.
  match goal with |- context [try_catch ?final ?h ?w3] =>
    assert (Hfinal : silent final) by silent_go;
    set (w3' := w3);
    destruct (Hfinal w3') as (r & w4 & E4 & Hr4 & _)
  end.
  unfold try_catch. rewrite E4.
  destruct r as [b|e'|]; [by exists b, w4 | by exists false, w4 | done].
Qed.

(** X4.  [uploadMessage] never throws: whatever the sink does, it ends
    and answers with [true] or [false].  The errors of the attempts are
    caught inside it, so the caller can learn of a failed upload from the
    returned value only. *)
Theorem uploadMessage_never_throws m p single (w : World R) :
  exists b w', uploadMessage cl fl m p single w = (Ret b, w').
Proof. apply uploadLoop_returns. Qed.

End WithClient.


(** The three records whose downloads completed in the order 30, 10, 20
    are uploaded in the order 10, 20, 30. *)
Example outOfOrder_run :
  let '(r, w) := uploadBatch Sim.client Sim.exact Scenario.outOfOrder (Scenario.uploader []) in
  uploadStarts (trace w) = [10; 20; 30]%Z
  /\ queueSteps (trace w) =
     [Started 0 10; Finished 0 10 true; Started 1 20; Finished 1 20 true;
      Started 2 30; Finished 2 30 true]%Z.
Proof. vm_compute. by split. Qed.


(** Every call of the sink for the first record times out: the record is
    not uploaded (two of the three are), its entry is completed and the
    queue goes on with the two others.  [uploadMessage] reports the failure
    by returning [false], which the queue does not read, so the result it
    records for the entry is a success. *)
Example firstRecordTimesOut_run :
  let '(r, w) := runUploadQueue Sim.client Sim.exact Scenario.outOfOrder
                   Scenario.firstRecordTimesOut in
  queueSteps (trace w) =
    [Started 0 10; Finished 0 10 true; Started 1 20; Finished 1 20 true;
     Started 2 30; Finished 2 30 true]%Z
  /\ totalUploaded (counters (self w)) = 2%Z
  /\ Sim.uploads (remote w) = []
  /\ match r with
     | Ret st => map uploadCompleted (uploadQueue st) = [true; true; true]
     | _ => False
     end.
Proof. vm_compute. by repeat split. Qed.

End QueueSpec.

(* --------------------------------------------------------------------- *)
(** ** The size check of [downloadMessage] *)

Module DownloadSpec.
Import Js Fs DownloadChannel Num RetrySpec.
Local Open Scope list_scope.
Local Open Scope Z_scope.

Lemma sizeVerified_spec expectedSize fileSize :
  sizeVerified expectedSize fileSize = true
  <-> expectedSize = 0 \/ expectedSize * 95 <= fileSize * 100.
Proof.
  unfold sizeVerified. rewrite orb_true_iff, Z.eqb_eq, Qle_bool_iff.
  unfold Qle, ofZ. simpl. lia.
Qed.

Section WithClient.
Context {R : Type} (cl : Client R) (fl : Q -> Q)
        (mimeDB : string -> option (option (list string))).
#[local] Abbreviation M := (St (World R)).

Lemma updateSpeed_run bytes (w : World R) :
  exists s', updateSpeed cl fl bytes w = (Ret tt, set_self s' w)
             /\ counters s' = counters (self w)
             /\ fileRef s' = fileRef (self w).
Proof.
  unfold updateSpeed, mbind, St_bind, now, gets, modify_self, modify. simpl.
  eexists. split; [reflexivity|].
  destruct (speedMonitor (self w)); [|done].
  by destruct (updateSpeedAt _ _ _ _ _).
Qed.

(** A transfer that left a file shorter than 95% of the size hint: the
    file is deleted and the [try] block throws. *)
Lemma fetchAndVerify_incomplete message mediaPath single (w w1 : World R) node :
  transfer cl message mediaPath single w = (Ret true, w1) ->
  disk w1 !! mediaPath = Some node ->
  n_statOk node = true ->
  n_unlinkOk node = true ->
  0 < sizeHint message ->
  n_size node * 100 < sizeHint message * 95 ->
  fetchAndVerify cl fl message mediaPath single w
  = (Thrown ("Incomplete download: " ++ Path.basename mediaPath ""),
     set_disk (delete mediaPath (disk w1)) w1).
Proof.
  intros Ht Hnode Hstat Hunlink Hhint Hsmall.
  unfold fetchAndVerify. unfold mbind at 1, St_bind at 1. rewrite Ht.
  unfold mbind at 1, St_bind at 1, gets at 1. cbv beta iota.
  unfold existsSync at 1. rewrite Hnode, bool_decide_true by done. cbn [andb]. cbv beta iota.
  unfold mbind at 1, St_bind at 1, on_disk at 1, statSync_size.
  rewrite Hnode, Hstat. cbv beta iota.
  replace (sizeVerified (sizeHint message) (n_size node)) with false.
  2:{ symmetry. apply not_true_is_false. rewrite sizeVerified_spec. lia. }
  replace (0 <? sizeHint message) with true by (symmetry; apply Z.ltb_lt; lia).
  cbn [andb negb]. cbv beta iota.
  unfold mbind, St_bind, deleteExistingFile, on_disk, existsSync, unlinkSync. simpl.
  rewrite Hnode, bool_decide_true by done. by rewrite Hunlink.
Qed.

(** A transfer that left a file for a message without a size hint: the
    [try] block returns the path and the file stays. *)
Lemma fetchAndVerify_no_hint message mediaPath single (w w1 : World R) node :
  transfer cl message mediaPath single w = (Ret true, w1) ->
  disk w1 !! mediaPath = Some node ->
  n_statOk node = true ->
  sizeHint message = 0 ->
  exists w',
    fetchAndVerify cl fl message mediaPath single w = (Ret mediaPath, w')
    /\ disk w' = disk w1
    /\ totalDownloaded (counters (self w')) = totalDownloaded (counters (self w1)) + 1.
Proof.
  intros Ht Hnode Hstat Hhint.
  unfold fetchAndVerify. unfold mbind at 1, St_bind at 1. rewrite Ht.
  unfold mbind at 1, St_bind at 1, gets at 1. cbv beta iota.
  unfold existsSync at 1. rewrite Hnode, bool_decide_true by done. cbn [andb]. cbv beta iota.
  unfold mbind at 1, St_bind at 1, on_disk at 1, statSync_size.
  rewrite Hnode, Hstat. cbv beta iota.
  rewrite Hhint. unfold sizeVerified. simpl.
  unfold mbind at 1, St_bind at 1, the at 1, gets at 1. cbv beta iota.
  destruct (updateSpeed_run (n_size node) (set_disk (disk w1) w1)) as (s' & Eu & Hc & _).
  destruct (speedMonitor (self w1)) as [sm|] eqn:Esm.
  - rewrite bool_decide_true by done. unfold when.
    unfold mbind at 1, St_bind at 1. simpl self. rewrite Eu.
    eexists. split; [reflexivity|]. simpl. by rewrite Hc.
  - rewrite bool_decide_false by (intros [? ?]; simpl in *; congruence). unfold when.
    eexists. split; [reflexivity|]. done.
Qed.

Lemma catching_ret {S A} (body : St S A) s a s' :
  body s = (Ret a, s') -> catching body s = (Ret (inl a), s').
Proof. intros E. unfold catching, try_catch, mbind, St_bind. by rewrite E. Qed.

Lemma catching_thrown {S A} (body : St S A) s e s' :
  body s = (Thrown e, s') -> catching body s = (Ret (inr e), s').
Proof. intros E. unfold catching, try_catch, mbind, St_bind. by rewrite E. Qed.

(** C6.  [downloadMessage] is in its loop with attempts left, the
    transfer has answered with success and left a file at [mediaPath].
    If the message carries a size hint and the file is shorter than 95%
    of it, the file is deleted, nothing is counted as downloaded, the
    failure is logged as a failed attempt and, after one timer, the loop
    goes on with the next attempt (on the last attempt the error is thrown
    to the caller instead).  If the hint is zero or absent, the check
    passes: the path is returned, the file stays and the download is
    counted. *)
Theorem downloadMessage_size_check fuel channelId single originalMessage
    message attempt mediaPath message' (w w0 w1 : World R) node :
  is_Some (media message) ->
  attempt < maxRetriesFor single ->
  prepareDownload cl mimeDB channelId message w = (Ret (mediaPath, message'), w0) ->
  transfer cl message' mediaPath single w0 = (Ret true, w1) ->
  disk w1 !! mediaPath = Some node ->
  n_statOk node = true ->
  let maxRetries := maxRetriesFor single in
  let error := ("Incomplete download: " ++ Path.basename mediaPath "")%string in
  let run := downloadLoop cl fl mimeDB (S fuel) channelId single originalMessage
               message attempt w in
  (0 < sizeHint message' ->
   n_size node * 100 < sizeHint message' * 95 ->
   n_unlinkOk node = true ->
   includes "FILE_REFERENCE_EXPIRED" error = false ->
   exists w2,
     disk w2 = delete mediaPath (disk w1)
     /\ trace w2 = trace w1 ++ [EvDownloadFailed (id message') (attempt + 1) maxRetries error]
     /\ totalDownloaded (counters (self w2)) = totalDownloaded (counters (self w1))
     /\ (attempt + 1 < maxRetries ->
         exists ms w3,
           run = downloadLoop cl fl mimeDB fuel channelId single originalMessage
                   message' (attempt + 1) w3
           /\ disk w3 = disk w2 /\ trace w3 = trace w2 ++ [EvSleep ms]
           /\ self w3 = self w2)
     /\ (attempt + 1 = maxRetries -> run = (Thrown error, w2)))
  /\ (sizeHint message' = 0 ->
      exists w',
        run = (Ret (Some mediaPath), w')
        /\ disk w' = disk w1
        /\ totalDownloaded (counters (self w'))
           = totalDownloaded (counters (self w1)) + 1).
Proof.
  intros Hmedia Hatt Hprep Htransfer Hnode Hstat maxRetries error run.
  destruct Hmedia as [md Hmd].
  assert (Hlt : (attempt <? maxRetries) = true) by (apply Z.ltb_lt; lia).
  subst run. split.
  - intros Hhint Hsmall Hunlink Hnoref.
    pose proof (fetchAndVerify_incomplete message' mediaPath single w0 w1 node
                  Htransfer Hnode Hstat Hunlink Hhint Hsmall) as Hfetch.
    fold error in Hfetch.
    set (w2 := set_trace
                 (trace w1 ++ [EvDownloadFailed (id message') (attempt + 1) maxRetries error])
                 (set_disk (delete mediaPath (disk w1)) w1)).
    exists w2. split; [done|]. split; [done|]. split; [done|].
    assert (Hstep :
      downloadLoop cl fl mimeDB (S fuel) channelId single originalMessage message attempt w
      = (if attempt + 1 =? maxRetries then throw error
         else
           precisionDelay cl fl
             (if single then Qmin 2000 (300 * ofZ (attempt + 1))
              else Qmin 5000 (500 * ofZ (attempt + 1)));;
           downloadLoop cl fl mimeDB fuel channelId single originalMessage message'
             (attempt + 1)) w2).
    { cbn [downloadLoop]. fold maxRetries. rewrite Hlt, Hmd.
      unfold mbind at 1, St_bind at 1. rewrite (catching_ret _ _ _ _ Hprep).
      cbv beta iota.
      unfold mbind at 1, St_bind at 1.
      rewrite (catching_thrown _ _ _ _ Hfetch). cbv zeta.
      unfold mbind at 1, St_bind at 1, emit at 1, modify at 1. cbv beta iota.
      fold w2. fold error. by rewrite Hnoref. }
    rewrite Hstep. clear Hstep.
    split.
    + intros Hmore.
      replace (attempt + 1 =? maxRetries) with false by (symmetry; apply Z.eqb_neq; lia).
      unfold mbind, St_bind. rewrite precisionDelay_run.
      eexists _, _. split; [reflexivity|]. by simpl.
    + intros Hlast.
      by replace (attempt + 1 =? maxRetries) with true by (symmetry; apply Z.eqb_eq; lia).
  - intros Hhint.
    destruct (fetchAndVerify_no_hint message' mediaPath single w0 w1 node
                Htransfer Hnode Hstat Hhint) as (w' & Hfetch & Hdisk & Hcount).
    exists w'. split; [|done].
    cbn [downloadLoop]. fold maxRetries. rewrite Hlt, Hmd.
    unfold mbind at 1, St_bind at 1. rewrite (catching_ret _ _ _ _ Hprep).
    cbv beta iota.
    unfold mbind, St_bind. by rewrite (catching_ret _ _ _ _ Hfetch).
Qed.
End WithClient.

(** The theorem at a transfer that leaves 500 of the 1000 bytes of a
    document, and at the same transfer for a document without a size. *)
Lemma downloadMessage_size_check_witness :
  (exists ms w3,
     downloadLoop Sim.client Sim.exact Sim.noMime 20 100 false Scenario.report
       Scenario.report 0 Scenario.truncating
     = downloadLoop Sim.client Sim.exact Sim.noMime 19 100 false Scenario.report
         Scenario.report 1 w3
     /\ disk w3 !! "pdf/report_7.pdf"%string = None
     /\ last (trace w3) = Some (EvSleep ms))
  /\ (exists w',
        downloadLoop Sim.client Sim.exact Sim.noMime 20 100 false Scenario.notes
          Scenario.notes 0 Scenario.truncating
        = (Ret (Some "pdf/notes_8.pdf"%string), w')
        /\ disk w' !! "pdf/notes_8.pdf"%string = Some (fileNode 500)).
Proof.
  split.
  - set (w0 := (prepareDownload Sim.client Sim.noMime 100 Scenario.report
                  Scenario.truncating).2).
    set (w1 := (transfer Sim.client Scenario.report "pdf/report_7.pdf" false w0).2).
    destruct (downloadMessage_size_check Sim.client Sim.exact Sim.noMime 19 100 false
                Scenario.report Scenario.report 0 "pdf/report_7.pdf" Scenario.report
                Scenario.truncating w0 w1 (fileNode 500))
      as [Hshort _]; try reflexivity.
    { by eexists. }
    destruct Hshort as (w2 & Hdisk & _ & _ & Hmore & _); try reflexivity.
    destruct Hmore as (ms & w3 & Hrun & Hdisk3 & Htrace & _); [reflexivity|].
    exists ms, w3. split; [exact Hrun|]. split.
    + rewrite Hdisk3, Hdisk. apply lookup_delete_eq.
    + rewrite Htrace. apply last_snoc.
  - set (w0 := (prepareDownload Sim.client Sim.noMime 100 Scenario.notes
                  Scenario.truncating).2).
    set (w1 := (transfer Sim.client Scenario.notes "pdf/notes_8.pdf" false w0).2).
    destruct (downloadMessage_size_check Sim.client Sim.exact Sim.noMime 19 100 false
                Scenario.notes Scenario.notes 0 "pdf/notes_8.pdf" Scenario.notes
                Scenario.truncating w0 w1 (fileNode 500))
      as [_ Hnone]; try reflexivity.
    { by eexists. }
    destruct Hnone as (w' & Hrun & Hdisk & _); [reflexivity|].
    exists w'. split; [exact Hrun|]. rewrite Hdisk. reflexivity.
Defined.

(** The document of 1000 bytes whose first transfer leaves 500 bytes: the
    file is deleted, the attempt is logged as failed, and the second
    attempt, after one timer, leaves the whole file. *)
Example truncated_download_run :
  let '(r, w) := downloadMessage Sim.client Sim.exact Sim.noMime 20 Scenario.report 100 false
                   Scenario.truncating in
  r = Ret (Some "pdf/report_7.pdf"%string)
  /\ disk w !! "pdf/report_7.pdf"%string = Some (fileNode 1000)
  /\ trace w = [EvFetch 7 "pdf/report_7.pdf";
                EvDownloadFailed 7 1 15 "Incomplete download: report_7.pdf";
                EvSleep (250 # 3); EvFetch 7 "pdf/report_7.pdf"]
  /\ totalDownloaded (counters (self w)) = 1.
Proof. vm_compute. by repeat split. Qed.

End DownloadSpec.

(* --------------------------------------------------------------------- *)
(** ** Batch-level errors in [processBatch] *)

Module BatchSpec.
Import Js Fs DownloadChannel Num DownloadSpec.
Local Open Scope list_scope.
Local Open Scope Z_scope.

Section WithClient.
Context {R : Type} (cl : Client R) (fl : Q -> Q)
        (mimeDB : string -> option (option (list string))).
#[local] Abbreviation M := (St (World R)).

Lemma catching_no_throw {S A} (body : St S A) s e s' :
  catching body s <> (Thrown e, s').
Proof.
  unfold catching, try_catch, mbind, St_bind.
  destruct (body s) as [[a|e0|] s0]; simpl; done.
Qed.

(** The [catch] block of [processBatch] ends without an exception,
    whatever the run it starts does. *)
Lemma retry_block_no_throw (refetch : M (option (list Message))) (rerun : list Message -> M unit)
    (w : World R) e w' :
  try_catch
    (retryMessages ← refetch;
     match retryMessages with
     | Some ((_ :: _) as l) => ensureConnectionHealth cl fl;; rerun l
     | _ => mret tt
     end)
    (fun retryError => emit (EvBatchRetryFailed retryError)) w
  <> (Thrown e, w').
Proof.
  unfold try_catch, mbind, St_bind.
  destruct (refetch w) as [[[[|m l]|]|e0|] w0]; try (simpl; done).
  destruct (ensureConnectionHealth cl fl w0) as [[[]|e1|] w1]; try (simpl; done).
  destruct (rerun (m :: l) w1) as [[[]|e2|] w2]; simpl; done.
Qed.

(** [processBatch] never throws. *)
Lemma processBatch_no_throw fuel messages batchIndex totalBatches channelId
    (w : World R) e w' :
  processBatch cl fl mimeDB fuel messages batchIndex totalBatches channelId w
  <> (Thrown e, w').
Proof.
  destruct fuel as [|fuel].
  - simpl. unfold diverge. done.
  - cbn [processBatch]. unfold mbind at 1, St_bind at 1, emit at 1, modify at 1.
    cbv beta iota. unfold mbind at 1, St_bind at 1.
    match goal with |- context [catching ?c ?s] =>
      pose proof (catching_no_throw c s) as Hc; destruct (catching c s) as [[r|e0|] w0]
    end; [|by destruct (Hc e0 w0)|done].
    clear Hc. destruct r as [msgs|error].
    + unfold mbind at 1, St_bind at 1.
      match goal with |- context [catching ?c ?s] =>
        pose proof (catching_no_throw c s) as Hc; destruct (catching c s) as [[r|e0|] w1]
      end; [|by destruct (Hc e0 w1)|done].
      clear Hc. destruct r as [[]|error]; [unfold mret, St_ret; done|].
      unfold mbind at 1, St_bind at 1, emit at 1, modify at 1. cbv beta iota.
      apply retry_block_no_throw.
    + unfold mbind at 1, St_bind at 1, emit at 1, modify at 1. cbv beta iota.
      apply retry_block_no_throw.
Qed.

(** A computation that does not throw is not changed by a [try]. *)
Lemma try_catch_no_throw {S A} (body : St S A) handler s :
  (forall e s', body s <> (Thrown e, s')) -> try_catch body handler s = body s.
Proof.
  intros H. unfold try_catch. destruct (body s) as [[a|e|] s'] eqn:E; try done.
  by destruct (H e s').
Qed.

(** C5, as the code has it.  The [try] block of [processBatch] has
    refreshed the batch and the phases have thrown [error].  The error is
    logged and the messages of the batch are fetched again by id.  If the
    fetch returns messages and the connection check passes, [processBatch]
    is run on them, as a whole and with its [catch] block, so a run that
    fails again fetches and runs again.  If the fetch returns nothing,
    nothing is run.  If the fetch or the connection check throws, the
    error is logged.  In every case [processBatch] returns to its caller
    without an exception. *)
Theorem processBatch_batch_error fuel messages batchIndex totalBatches channelId
    (w w1 w2 : World R) msgs1 error :
  refreshBatchMessages cl messages channelId
    (set_trace (trace w ++ [EvBatchStart batchIndex (map id messages)]) w)
  = (Ret msgs1, w1) ->
  runPhases cl fl mimeDB fuel (sort_by id msgs1) channelId w1 = (Thrown error, w2) ->
  let logged := set_trace (trace w2 ++ [EvBatchError batchIndex error]) w2 in
  let refetch := refreshMessagesBatch cl channelId (map id (sort_by id msgs1)) logged in
  let run := processBatch cl fl mimeDB (S fuel) messages batchIndex totalBatches
               channelId w in
  (forall e w', run <> (Thrown e, w'))
  /\ (forall l w3 w4,
        refetch = (Ret (Some l), w3) -> l <> [] ->
        ensureConnectionHealth cl fl w3 = (Ret tt, w4) ->
        run = processBatch cl fl mimeDB fuel l batchIndex totalBatches channelId w4)
  /\ (forall l w3 e' w4,
        refetch = (Ret (Some l), w3) -> l <> [] ->
        ensureConnectionHealth cl fl w3 = (Thrown e', w4) ->
        run = (Ret tt, set_trace (trace w4 ++ [EvBatchRetryFailed e']) w4))
  /\ (forall r w3,
        refetch = (Ret r, w3) -> r = None \/ r = Some [] -> run = (Ret tt, w3))
  /\ (forall e' w3,
        refetch = (Thrown e', w3) ->
        run = (Ret tt, set_trace (trace w3 ++ [EvBatchRetryFailed e']) w3)).
Proof.
  intros Hrefresh Hphases logged refetch run.
  split; [intros e w'; apply processBatch_no_throw|].
  assert (Hrun : run =
    try_catch
      (retryMessages ← refreshMessagesBatch cl channelId (map id (sort_by id msgs1));
       match retryMessages with
       | Some ((_ :: _) as l) =>
           ensureConnectionHealth cl fl;;
           processBatch cl fl mimeDB fuel l batchIndex totalBatches channelId
       | _ => mret tt
       end)
      (fun retryError => emit (EvBatchRetryFailed retryError)) logged).
  { subst run. cbn [processBatch].
    unfold mbind at 1, St_bind at 1, emit at 1, modify at 1. cbv beta iota.
    unfold mbind at 1, St_bind at 1. rewrite (catching_ret _ _ _ _ Hrefresh).
    cbv beta iota. unfold mbind at 1, St_bind at 1.
    rewrite (catching_thrown _ _ _ _ Hphases). cbv beta iota.
    unfold mbind at 1, St_bind at 1, emit at 1, modify at 1. reflexivity. }
  rewrite Hrun. clear Hrun. subst refetch.
  split; [|split; [|split]].
  all: unfold try_catch at 1, mbind at 1, St_bind at 1.
  - intros l w3 w4 Hfetch Hne Hhealth. rewrite Hfetch.
    destruct l as [|m l]; [done|]. unfold mbind, St_bind. rewrite Hhealth.
    destruct (processBatch cl fl mimeDB fuel (m :: l) batchIndex totalBatches channelId w4)
      as [[[]|e0|] w5] eqn:E; try done.
    by apply processBatch_no_throw in E.
  - intros l w3 e' w4 Hfetch Hne Hhealth. rewrite Hfetch.
    destruct l as [|m l]; [done|]. unfold mbind, St_bind. by rewrite Hhealth.
  - intros r w3 Hfetch [-> | ->]; by rewrite Hfetch.
  - intros e' w3 Hfetch. by rewrite Hfetch.
Qed.
End WithClient.

(** C5, as stated, fails on the code.  The connection is in bad health:
    the check before the upload throws, the batch is fetched again and run
    again, and the second run fails in the same way.  The claim asks for
    one fetch and for the second failure to reach the caller.  The code
    fetches the batch a second time (the [EvRefresh] that follows each
    [EvBatchError]), logs the failure of the connection check that follows,
    and returns without an exception. *)
Lemma processBatch_retry_counterexample :
  let '(r, w) := processBatch Sim.client Sim.exact Sim.noMime 10 Scenario.greeting 0 1 100
                   (Scenario.flakyConnection Scenario.greeting) in
  r = Ret tt
  /\ withoutTimers (trace w) =
     [EvBatchStart 0 [1]; EvRefresh [1]; EvBatchError 0 "ECONNREFUSED";
      EvRefresh [1]; EvBatchStart 0 [1]; EvRefresh [1]; EvBatchError 0 "ECONNREFUSED";
      EvRefresh [1]; EvBatchRetryFailed "ECONNREFUSED"]
  /\ batchErrors (trace w) = ["ECONNREFUSED"; "ECONNREFUSED"]%string.
Proof. vm_compute. by repeat split. Qed.

(** The theorem at the first failure of the run above: the batch is run
    again, with one step less of budget, after the error was logged. *)
Lemma processBatch_batch_error_witness :
  exists w4,
    processBatch Sim.client Sim.exact Sim.noMime 10 Scenario.greeting 0 1 100
      (Scenario.flakyConnection Scenario.greeting)
    = processBatch Sim.client Sim.exact Sim.noMime 9 Scenario.greeting 0 1 100 w4
    /\ batchErrors (trace w4) = ["ECONNREFUSED"]%string.
Proof.
  set (w := Scenario.flakyConnection Scenario.greeting).
  set (w1 := (refreshBatchMessages Sim.client Scenario.greeting 100
                (set_trace (trace w ++ [EvBatchStart 0 (map id Scenario.greeting)]) w)).2).
  set (w2 := (runPhases Sim.client Sim.exact Sim.noMime 9 (sort_by id Scenario.greeting)
                100 w1).2).
  set (w3 := (refreshMessagesBatch Sim.client 100 (map id (sort_by id Scenario.greeting))
                (set_trace (trace w2 ++ [EvBatchError 0 "ECONNREFUSED"]) w2)).2).
  set (w4 := (ensureConnectionHealth Sim.client Sim.exact w3).2).
  destruct (processBatch_batch_error Sim.client Sim.exact Sim.noMime 9 Scenario.greeting
              0 1 100 w w1 w2 Scenario.greeting "ECONNREFUSED")
    as (_ & Hrerun & _).
  - vm_compute. reflexivity.
  - vm_compute. reflexivity.
  - exists w4. split.
    + apply (Hrerun Scenario.greeting w3 w4).
      * vm_compute. reflexivity.
      * discriminate.
      * vm_compute. reflexivity.
    + vm_compute. reflexivity.
Defined.

End BatchSpec.

(* --------------------------------------------------------------------- *)
(** ** The configuration is not touched by the pipeline *)

Module ConfigFrame.
Import Js Fs DownloadChannel Num.
Local Open Scope list_scope.
Local Open Scope Z_scope.

Section WithClient.
Context {R : Type} (cl : Client R) (fl : Q -> Q)
        (mimeDB : string -> option (option (list string))).
#[local] Abbreviation M := (St (World R)).

Lemma keeps_ret {A} (a : A) : keeps_config (mret a : M A).
Proof. by intros w. Qed.

Lemma keeps_throw {A} e : keeps_config (throw e : M A).
Proof. by intros w. Qed.

Lemma keeps_diverge {A} : keeps_config (diverge : M A).
Proof. by intros w. Qed.

Lemma keeps_gets {A} (f : World R -> A) : keeps_config (gets f).
Proof. by intros w. Qed.

Lemma keeps_modify (f : World R -> World R) :
  (forall w, config (self (f w)) = config (self w)) -> keeps_config (modify f).
Proof. intros Hf w. apply Hf. Qed.

Lemma keeps_bind {A B} (m : M A) (f : A -> M B) :
  keeps_config m -> (forall a, keeps_config (f a)) -> keeps_config (m ≫= f).
Proof.
  intros Hm Hf w. specialize (Hm w). unfold mbind, St_bind.
  destruct (m w) as [[a|e|] w1]; simpl in *; [|done..]. by rewrite Hf.
Qed.

Lemma keeps_try_catch {A} (body : M A) handler :
  keeps_config body -> (forall e, keeps_config (handler e)) ->
  keeps_config (try_catch body handler).
Proof.
  intros Hb Hh w. specialize (Hb w). unfold try_catch.
  destruct (body w) as [[a|e|] w1]; simpl in *; [done| |done]. by rewrite Hh.
Qed.

Lemma keeps_catching {A} (body : M A) : keeps_config body -> keeps_config (catching body).
Proof.
  intros Hb. unfold catching. apply keeps_try_catch; [|intros; apply keeps_ret].
  apply keeps_bind; [exact Hb|intros; apply keeps_ret].
Qed.

Lemma keeps_when b (c : M unit) : keeps_config c -> keeps_config (when b c).
Proof. intros Hc. destruct b; [exact Hc | apply keeps_ret]. Qed.

Lemma keeps_for_each {A} (l : list A) (body : A -> M unit) :
  (forall x, keeps_config (body x)) -> keeps_config (for_each l body).
Proof.
  intros Hb. induction l as [|x l IH]; simpl; [apply keeps_ret|].
  apply keeps_bind; [apply Hb | intros; exact IH].
Qed.

Lemma keeps_call {A} (f : R -> reply A * R) : keeps_config (call f).
Proof. intros w. unfold call. by destruct (f (remote w)) as [[a|msg] r']. Qed.

Lemma keeps_on_disk {A} (f : FS -> outcome A * FS) : keeps_config (on_disk f : M A).
Proof. intros w. unfold on_disk. by destruct (f (disk w)). Qed.

Lemma keeps_emit e : keeps_config (emit e : M unit).
Proof. by intros w. Qed.

Lemma keeps_modify_self f :
  (forall s, config (f s) = config s) -> keeps_config (modify_self f : M unit).
Proof. intros Hf w. apply Hf. Qed.

Lemma keeps_modify_counters f : keeps_config (modify_counters f : M unit).
Proof. by intros w. Qed.

Lemma keeps_modify_flood f : keeps_config (modify_flood f : M unit).
Proof. by intros w. Qed.

Lemma keeps_modify_fileRef f : keeps_config (modify_fileRef f : M unit).
Proof. by intros w. Qed.

Lemma keeps_lift_run {A} (c : M A) w r w' :
  keeps_config c -> c w = (r, w') -> config (self w') = config (self w).
Proof. intros Hc E. specialize (Hc w). by rewrite E in Hc. Qed.

Create HintDb keeps.
Hint Resolve keeps_ret keeps_throw keeps_diverge keeps_gets keeps_call keeps_on_disk
  keeps_emit keeps_modify_counters keeps_modify_flood keeps_modify_fileRef : keeps.

Ltac keeps_leaf :=
  first
    [ apply keeps_ret | apply keeps_throw | apply keeps_diverge | apply keeps_gets
    | apply keeps_call | apply keeps_on_disk | apply keeps_emit
    | apply keeps_modify_counters | apply keeps_modify_flood | apply keeps_modify_fileRef
    | apply keeps_modify_self; intros s; simpl;
      repeat match goal with
             | |- context [match ?x with _ => _ end] => destruct x
             end; reflexivity
    | solve [auto with keeps] ].

Ltac keeps_go :=
  repeat
    first
      [ keeps_leaf
      | apply keeps_bind; [|intros]
      | apply keeps_try_catch; [|intros]
      | apply keeps_catching
      | apply keeps_when
      | apply keeps_for_each; intros
      | match goal with
        | |- keeps_config (if ?b then _ else _) => destruct b
        | |- keeps_config (match ?x with _ => _ end) => destruct x
        | |- keeps_config (let _ := _ in _) => cbv zeta
        end ].

Lemma keeps_the {A} (f : Self -> A) : keeps_config (the f : M A).
Proof. apply keeps_gets. Qed.

Lemma keeps_now : keeps_config (now cl).
Proof. apply keeps_gets. Qed.

Lemma keeps_sleep ms : keeps_config (sleep cl ms).
Proof. by intros w. Qed.

Hint Resolve keeps_the keeps_now keeps_sleep : keeps.

Lemma keeps_getMessages channelId limit offsetId reverse :
  keeps_config (getMessages cl channelId limit offsetId reverse).
Proof. unfold getMessages. keeps_go. Qed.

Lemma keeps_getMessageDetail channelId ids :
  keeps_config (getMessageDetail cl channelId ids).
Proof. unfold getMessageDetail. keeps_go. Qed.

Lemma keeps_downloadMessageMedia message mediaPath single :
  keeps_config (downloadMessageMedia cl message mediaPath single).
Proof.
  intros w. unfold downloadMessageMedia.
  by destruct (cl_downloadMessageMedia _ _ _ _ _ _) as [[? ?] ?].
Qed.

Lemma keeps_uploadMessageToChannel target message mediaPath single :
  keeps_config (uploadMessageToChannel cl target message mediaPath single).
Proof. unfold uploadMessageToChannel. keeps_go. Qed.

Lemma keeps_initializeSpeedMonitor : keeps_config (initializeSpeedMonitor cl).
Proof. unfold initializeSpeedMonitor. keeps_go. Qed.

Lemma keeps_updateSpeed bytes : keeps_config (updateSpeed cl fl bytes).
Proof. unfold updateSpeed. keeps_go. Qed.

Lemma keeps_updateFloodWaitHistory b d : keeps_config (updateFloodWaitHistory cl fl b d).
Proof. unfold updateFloodWaitHistory. keeps_go. Qed.

Lemma keeps_ultraOptimizedWait ms : keeps_config (ultraOptimizedWait cl fl ms).
Proof. unfold ultraOptimizedWait. keeps_go. Qed.

Hint Resolve keeps_getMessages keeps_getMessageDetail keeps_downloadMessageMedia
  keeps_uploadMessageToChannel keeps_initializeSpeedMonitor keeps_updateSpeed
  keeps_updateFloodWaitHistory keeps_ultraOptimizedWait : keeps.

Lemma keeps_checkRateLimit : keeps_config (checkRateLimit cl fl).
Proof. unfold checkRateLimit. keeps_go. Qed.

Lemma keeps_precisionDelay ms : keeps_config (precisionDelay cl fl ms).
Proof. unfold precisionDelay. keeps_go. Qed.

Hint Resolve keeps_checkRateLimit keeps_precisionDelay : keeps.

Lemma keeps_retryFrom {A} budget (operation : M A) name maxRetries attempt :
  keeps_config operation ->
  keeps_config (retryFrom cl fl budget operation name maxRetries attempt).
Proof.
  intros Hop. revert attempt. induction budget as [|budget IH]; intros attempt; simpl.
  - apply keeps_ret.
  - keeps_go; try first [exact Hop | apply IH].
Qed.

Lemma keeps_retryOperation {A} (operation : M A) name maxRetries :
  keeps_config operation -> keeps_config (retryOperation cl fl operation name maxRetries).
Proof. apply keeps_retryFrom. Qed.

Lemma keeps_deleteExistingFile p : keeps_config (deleteExistingFile p : M bool).
Proof. apply keeps_on_disk. Qed.

Lemma keeps_refreshAllChannelMessages channelId :
  keeps_config (refreshAllChannelMessages cl channelId).
Proof. unfold refreshAllChannelMessages. keeps_go. Qed.

Lemma keeps_refreshMessagesBatch channelId ids :
  keeps_config (refreshMessagesBatch cl channelId ids).
Proof. unfold refreshMessagesBatch. keeps_go. Qed.

Hint Resolve keeps_deleteExistingFile keeps_refreshAllChannelMessages
  keeps_refreshMessagesBatch : keeps.

Lemma keeps_refreshMessageWithStrategies channelId message strategyAttempt :
  keeps_config (refreshMessageWithStrategies cl channelId message strategyAttempt).
Proof. unfold refreshMessageWithStrategies. keeps_go. Qed.

Lemma keeps_trackFileReferenceError : keeps_config (trackFileReferenceError cl).
Proof. unfold trackFileReferenceError. keeps_go. Qed.

Lemma keeps_resetFileReferenceTracking : keeps_config (resetFileReferenceTracking : M unit).
Proof. unfold resetFileReferenceTracking. keeps_go. Qed.

Hint Resolve keeps_refreshMessageWithStrategies keeps_trackFileReferenceError
  keeps_resetFileReferenceTracking : keeps.

Lemma keeps_prepareDownload channelId message :
  keeps_config (prepareDownload cl mimeDB channelId message).
Proof. unfold prepareDownload. keeps_go. Qed.

Lemma keeps_transfer message mediaPath single :
  keeps_config (transfer cl message mediaPath single).
Proof. unfold transfer. keeps_go. Qed.

Hint Resolve keeps_prepareDownload keeps_transfer : keeps.

Lemma keeps_fetchAndVerify message mediaPath single :
  keeps_config (fetchAndVerify cl fl message mediaPath single).
Proof. unfold fetchAndVerify. keeps_go. Qed.

Lemma keeps_refreshLadder n channelId originalMessage strategyAttempt :
  keeps_config (refreshLadder cl fl n channelId originalMessage strategyAttempt).
Proof.
  revert strategyAttempt. induction n as [|n IH]; intros strategyAttempt; simpl.
  - apply keeps_ret.
  - keeps_go; try apply IH.
Qed.

Hint Resolve keeps_fetchAndVerify keeps_refreshLadder : keeps.

Lemma keeps_downloadLoop fuel channelId single originalMessage :
  forall message attempt,
    keeps_config (downloadLoop cl fl mimeDB fuel channelId single originalMessage
                    message attempt).
Proof.
  induction fuel as [|fuel IH]; intros message attempt; cbn [downloadLoop].
  - apply keeps_diverge.
  - keeps_go; try apply IH.
Qed.

Lemma keeps_downloadMessage fuel message channelId single :
  keeps_config (downloadMessage cl fl mimeDB fuel message channelId single).
Proof. apply keeps_downloadLoop. Qed.

Lemma keeps_reconnectClient : keeps_config (reconnectClient cl fl).
Proof. unfold reconnectClient. keeps_go. Qed.

Hint Resolve keeps_downloadMessage keeps_reconnectClient : keeps.

Lemma keeps_ensureConnectionHealth : keeps_config (ensureConnectionHealth cl fl).
Proof. unfold ensureConnectionHealth. keeps_go. Qed.

Lemma keeps_sendToTarget m p single : keeps_config (sendToTarget cl m p single).
Proof. unfold sendToTarget. keeps_go. Qed.

Hint Resolve keeps_ensureConnectionHealth keeps_sendToTarget : keeps.

Lemma keeps_uploadLoop budget m p single attempt :
  keeps_config (uploadLoop cl fl budget m p single attempt).
Proof.
  revert attempt. induction budget as [|budget IH]; intros attempt; simpl.
  - apply keeps_ret.
  - keeps_go; try apply IH.
Qed.

Lemma keeps_uploadMessage m p single : keeps_config (uploadMessage cl fl m p single).
Proof. apply keeps_uploadLoop. Qed.

Hint Resolve keeps_uploadMessage : keeps.

Lemma keeps_downloadWorker budget fuel channelId turbo message index :
  forall retryCount,
    keeps_config (downloadWorker cl fl mimeDB budget fuel channelId turbo message index
                    retryCount).
Proof.
  induction budget as [|budget IH]; intros retryCount; cbn [downloadWorker].
  - apply keeps_ret.
  - keeps_go; try apply IH.
Qed.

Lemma keeps_runWorkers fuel channelId turbo messages :
  forall index, keeps_config (runWorkers cl fl mimeDB fuel channelId turbo messages index).
Proof.
  induction messages as [|m messages IH]; intros index; cbn [runWorkers].
  - apply keeps_ret.
  - keeps_go; first [apply keeps_downloadWorker | apply IH].
Qed.

Lemma keeps_downloadBatch fuel messages channelId :
  keeps_config (downloadBatch cl fl mimeDB fuel messages channelId).
Proof. unfold downloadBatch. keeps_go. apply keeps_runWorkers. Qed.

Lemma keeps_waitForPrevious n b : keeps_config (waitForPrevious cl fl n b).
Proof. induction n as [|n IH]; simpl; keeps_go; try exact IH. Qed.

Lemma keeps_uploadOperation m p single : keeps_config (uploadOperation cl fl m p single).
Proof. unfold uploadOperation. keeps_go. Qed.

Hint Resolve keeps_downloadBatch keeps_waitForPrevious keeps_uploadOperation : keeps.

Lemma keeps_uploadEntry single i cur rest st :
  (forall st', keeps_config (rest st')) ->
  keeps_config (uploadEntry cl fl single i cur rest st).
Proof.
  intros Hrest. unfold uploadEntry. cbv zeta.
  keeps_go; try first [apply Hrest | apply keeps_retryOperation; keeps_go].
Qed.

Lemma keeps_uploadFrom budget single :
  forall i st, keeps_config (uploadFrom cl fl budget single i st).
Proof.
  induction budget as [|budget IH]; intros i st; cbn [uploadFrom].
  - apply keeps_ret.
  - destruct (uploadQueue st !! i); [|apply keeps_ret].
    apply keeps_uploadEntry. intros st'. apply IH.
Qed.

Lemma keeps_uploadBatch data : keeps_config (uploadBatch cl fl data).
Proof. unfold uploadBatch, runUploadQueue. keeps_go. apply keeps_uploadFrom. Qed.

Lemma keeps_cleanupBatch data : keeps_config (cleanupBatch data : M unit).
Proof. unfold cleanupBatch. keeps_go. Qed.

Lemma keeps_refreshBatchMessages messages channelId :
  keeps_config (refreshBatchMessages cl messages channelId).
Proof. unfold refreshBatchMessages. keeps_go. Qed.

Hint Resolve keeps_uploadBatch keeps_cleanupBatch keeps_refreshBatchMessages : keeps.

Lemma keeps_runPhases fuel messages channelId :
  keeps_config (runPhases cl fl mimeDB fuel messages channelId).
Proof. unfold runPhases. keeps_go. Qed.

Hint Resolve keeps_runPhases : keeps.

Lemma keeps_processBatch fuel :
  forall messages batchIndex totalBatches channelId,
    keeps_config (processBatch cl fl mimeDB fuel messages batchIndex totalBatches channelId).
Proof.
  induction fuel as [|fuel IH]; intros messages batchIndex totalBatches channelId;
    cbn [processBatch].
  - apply keeps_diverge.
  - keeps_go; try apply IH.
Qed.

Lemma keeps_shouldProcess message : keeps_config (shouldProcess mimeDB message : M bool).
Proof. unfold shouldProcess. keeps_go. Qed.

Hint Resolve keeps_shouldProcess : keeps.

Lemma keeps_filterProcessable details :
  keeps_config (filterProcessable mimeDB details : M (list Message)).
Proof.
  induction details as [|m details IH]; simpl; keeps_go; try exact IH.
Qed.

Lemma keeps_recordMessages details : keeps_config (recordMessages mimeDB details : M unit).
Proof. unfold recordMessages. keeps_go. Qed.

Lemma keeps_cleanupMemory : keeps_config (cleanupMemory cl).
Proof. unfold cleanupMemory. keeps_go. Qed.

Lemma keeps_showProgress n : keeps_config (showProgress cl n).
Proof. unfold showProgress. keeps_go. Qed.

Hint Resolve keeps_processBatch keeps_filterProcessable keeps_recordMessages
  keeps_cleanupMemory keeps_showProgress : keeps.

Lemma keeps_batchLoop budget fuel :
  forall remaining i total totalBatches channelId,
    keeps_config (batchLoop cl fl mimeDB budget fuel remaining i total totalBatches
                    channelId).
Proof.
  induction budget as [|budget IH]; intros remaining i total totalBatches channelId;
    cbn [batchLoop].
  - apply keeps_ret.
  - keeps_go; try apply IH.
Qed.

Hint Resolve keeps_batchLoop : keeps.

Lemma keeps_fetchAndProcessPage fuel channelId offsetMsgId :
  keeps_config (fetchAndProcessPage cl fl mimeDB fuel channelId offsetMsgId).
Proof.
  unfold fetchAndProcessPage.
  keeps_go; try (apply keeps_retryOperation; keeps_go).
Qed.

End WithClient.
End ConfigFrame.

(* --------------------------------------------------------------------- *)
(** ** The stored offset *)

Module CheckpointSpec.
Import Js Fs DownloadChannel Num RetrySpec SortFacts DownloadSpec ConfigFrame.
Local Open Scope list_scope.
Local Open Scope Z_scope.

Lemma bind_Ret_inv {S A B} (m : St S A) (f : A -> St S B) s b s' :
  (m ≫= f) s = (Ret b, s') -> exists a s1, m s = (Ret a, s1) /\ f a s1 = (Ret b, s').
Proof.
  unfold mbind, St_bind. destruct (m s) as [[a|e|] s1]; try done. intros E. by exists a, s1.
Qed.

Lemma try_catch_inv {S A} (body : St S A) handler s r s' :
  try_catch body handler s = (r, s') ->
  body s = (r, s') \/ exists e s1, body s = (Thrown e, s1) /\ handler e s1 = (r, s').
Proof.
  unfold try_catch. destruct (body s) as [[a|e|] s1]; try (by left).
  intros E. right. by exists e, s1.
Qed.

Lemma last_cons_default {A} (l : list A) y d d' :
  List.last (y :: l) d = List.last (y :: l) d'.
Proof. revert y. induction l as [|z l IH]; intros y; [done|]. exact (IH z). Qed.

Lemma nondecreasing_from_app lo l1 l2 :
  nondecreasing_from lo l1 -> nondecreasing_from (List.last l1 lo) l2 ->
  nondecreasing_from lo (l1 ++ l2).
Proof.
  revert lo. induction l1 as [|x l1 IH]; intros lo H1 H2; [done|].
  destruct H1 as [Hx H1]. split; [done|]. apply IH; [done|].
  destruct l1 as [|y l1]; [done|]. by rewrite (last_cons_default l1 y x lo).
Qed.

Lemma maxOf_above (o : Z) (ids : list Z) :
  ids <> [] -> Forall (fun i => o < i) ids -> exists m, maxOf ids = Num m /\ o < m.
Proof.
  intros Hne Hall. destruct ids as [|i ids]; [done|]. apply Forall_cons in Hall as [Hi Hall].
  unfold maxOf. simpl. clear Hne Hall. revert i Hi.
  induction ids as [|j ids IH]; intros i Hi; simpl; [by exists i|].
  apply IH. lia.
Qed.

Section WithClient.
Context {R : Type} (cl : Client R) (fl : Q -> Q)
        (mimeDB : string -> option (option (list string))) (cwd : string).
#[local] Abbreviation M := (St (World R)).
#[local] Abbreviation MS := (St (Store * World R)).

Hypothesis source : ascending_source cl.

(** What [retryOperation] returns was returned by a call of the
    operation. *)
Lemma retryFrom_Some {A} budget (operation : M A) name maxRetries :
  forall attempt w x w',
    retryFrom cl fl budget operation name maxRetries attempt w = (Ret (Some x), w') ->
    exists w0 w1, operation w0 = (Ret x, w1).
Proof.
  induction budget as [|budget IH]; intros attempt w x w' E; [done|].
  cbn [retryFrom] in E. destruct (attempt <=? maxRetries)%nat; [|done].
  apply try_catch_inv in E as [E | (e & w1 & _ & E)].
  - apply bind_Ret_inv in E as (a & w1 & Hop & E).
    apply bind_Ret_inv in E as (? & w2 & _ & E). injection E as <- _. by exists w, w1.
  - apply bind_Ret_inv in E as (? & w2 & _ & E). cbv zeta in E.
    assert (Htransient : forall w2,
      (if (attempt =? maxRetries)%nat then throw e
       else
         precisionDelay cl fl (Qmin 500 (100 * ofZ (Z.of_nat attempt)));;
         retryFrom cl fl budget operation name maxRetries (S attempt)) w2
      = (Ret (Some x), w') -> exists w0 w3, operation w0 = (Ret x, w3)).
    { intros w5. destruct (attempt =? maxRetries)%nat; [done|]. intros E'.
      apply bind_Ret_inv in E' as (? & w3 & _ & E'). by apply IH in E'. }
    destruct (includes "FLOOD_WAIT" e); [|by apply Htransient in E].
    apply bind_Ret_inv in E as (? & w3 & _ & E).
    destruct (parseInt_first e 60 <=? 300); [|by apply Htransient in E].
    apply bind_Ret_inv in E as (? & w4 & _ & E). by apply IH in E.
Qed.

Lemma getMessages_above channelId limit offsetId reverse (w : World R) msgs w' :
  getMessages cl channelId limit (Num offsetId) reverse w = (Ret msgs, w') ->
  Forall (fun m => offsetId < id m) msgs.
Proof.
  unfold getMessages. destruct (channelId =? 0); [done|]. intros E.
  apply bind_Ret_inv in E as (? & w1 & _ & E).
  apply try_catch_inv in E as [E | (e & w2 & _ & E)]; [|done].
  unfold call in E.
  destruct (cl_getMessages cl channelId limit (Num offsetId) reverse (remote w1))
    as [[l|msg] r'] eqn:Ecall; [|done].
  injection E as <- _. by apply source in Ecall.
Qed.

(** In a full download the page that [downloadChannel] processes keeps
    every message that the source returned, and these are above the
    offset. *)
Lemma fetchAndProcessPage_page fuel channelId offsetId (w : World R) page w' :
  selectiveMode (config (self w)) = false ->
  fetchAndProcessPage cl fl mimeDB fuel channelId (Num offsetId) w = (Ret (Some page), w') ->
  pg_filtered page = sort_by id (pg_messages page)
  /\ pg_messages page <> []
  /\ Forall (fun m => offsetId < id m) (pg_messages page).
Proof.
  intros Hmode E. unfold fetchAndProcessPage in E.
  apply bind_Ret_inv in E as (cfg & w0 & Hcfg & E).
  injection Hcfg as <- <-. rewrite Hmode in E.
  apply bind_Ret_inv in E as (fetched & w1 & Hfetch & E).
  destruct fetched as [[|m messages]|]; [|..|done].
  { apply bind_Ret_inv in E as (? & w2 & _ & E). done. }
  apply retryFrom_Some in Hfetch as (wa & wb & Hget).
  apply getMessages_above in Hget.
  apply bind_Ret_inv in E as (detailed & w2 & _ & E).
  destruct detailed as [details|]; [|done].
  apply bind_Ret_inv in E as (toProcess & w3 & _ & E).
  apply bind_Ret_inv in E as (? & w4 & _ & E).
  apply bind_Ret_inv in E as (? & w5 & _ & E).
  apply bind_Ret_inv in E as (? & w6 & _ & E).
  apply bind_Ret_inv in E as (? & w7 & _ & E).
  injection E as <- _. simpl. by repeat split.
Qed.

Lemma page_maxId offsetId page :
  pg_filtered page = sort_by id (pg_messages page) ->
  pg_messages page <> [] ->
  Forall (fun m => offsetId < id m) (pg_messages page) ->
  exists m, maxOf (map id (pg_filtered page)) = Num m /\ offsetId < m.
Proof.
  intros -> Hne Hall. apply maxOf_above.
  - intros Hnil. apply (f_equal length) in Hnil.
    rewrite length_map, sort_by_length in Hnil. by destruct (pg_messages page).
  - apply Forall_forall. intros i Hi. apply list_elem_of_fmap in Hi as (m & -> & Hm).
    rewrite (sort_by_perm id (pg_messages page)) in Hm.
    by apply (proj1 (Forall_forall _ _) Hall).
Qed.

Lemma lift_run {A} (c : M A) (st : Store) w : lift c (st, w) = ((c w).1, (st, (c w).2)).
Proof. unfold lift. simpl. by destruct (c w). Qed.

Lemma showProgress_run n (w : World R) :
  exists w', showProgress cl n w = (Ret tt, w') /\ config (self w') = config (self w).
Proof.
  exists (showProgress cl n w).2. split; [|apply keeps_showProgress].
  unfold showProgress, when. by destruct (n mod 3 =? 0).
Qed.

Lemma updateFloodWaitHistory_run b d (w : World R) :
  exists w', updateFloodWaitHistory cl fl b d w = (Ret tt, w')
             /\ config (self w') = config (self w).
Proof.
  exists (updateFloodWaitHistory cl fl b d w).2.
  split; [reflexivity | apply keeps_updateFloodWaitHistory].
Qed.

Lemma precisionDelay_keeps ms (w : World R) :
  exists w', precisionDelay cl fl ms w = (Ret tt, w') /\ config (self w') = config (self w).
Proof. rewrite precisionDelay_run. by eexists. Qed.

(** One run of [downloadChannel] in a full download: the offsets it
    writes go up from the offset it was called with, and it does not end
    with a flood-wait error. *)
Lemma downloadChannel_writes fuel :
  forall channelId offsetId st (w : World R),
    selectiveMode (config (self w)) = false ->
    offsetOf (selection st) <= offsetId ->
    exists r st' w' new,
      downloadChannel cl fl mimeDB cwd fuel channelId (Num offsetId) (st, w) = (r, (st', w'))
      /\ written st' = written st ++ new
      /\ selection st' = List.last new (selection st)
      /\ sel_channelId (selection st') = sel_channelId (selection st)
      /\ nondecreasing_from (offsetOf (selection st)) (map offsetOf new)
      /\ (forall e, r = Thrown e -> includes "FLOOD_WAIT" e = false).
Proof.
  induction fuel as [|fuel IH]; intros channelId offsetId st w Hmode Hle.
  { exists Diverged, st, w, []. simpl. rewrite app_nil_r. by repeat split. }
  cbn [downloadChannel]. unfold mbind at 1, St_bind at 1. rewrite lift_run.
  unfold the, gets. cbn [fst snd]. rewrite Hmode. cbn [andb].
  (* the calls before the page is fetched *)
  set (wa := (initializeSpeedMonitor cl w).2).
  set (wb := (modify_config
                (set_outputFolder (Path.join [cwd; "export"%string; string_of_Z channelId]))
                wa).2).
  assert (Hb : selectiveMode (config (self wb)) = false).
  { unfold wb, wa. simpl. exact Hmode. }
  destruct (fetchAndProcessPage cl fl mimeDB fuel channelId (Num offsetId) wb)
    as [rp wc] eqn:Epage.
  assert (Hc : selectiveMode (config (self wc)) = false).
  { by rewrite (keeps_lift_run _ _ _ _
                  (keeps_fetchAndProcessPage cl fl mimeDB fuel channelId (Num offsetId)) Epage). }
  (* the restart after a flood wait *)
  assert (Hrestart : forall e, includes "FLOOD_WAIT" e = true ->
    exists r st' w' new,
      (lift (updateFloodWaitHistory cl fl true (parseInt_first e 300 * 1000 / 1000));;
       lift (precisionDelay cl fl (ofZ (parseInt_first e 300 * 1000)));;
       downloadChannel cl fl mimeDB cwd fuel channelId (Num offsetId)) (st, wc)
      = (r, (st', w'))
      /\ written st' = written st ++ new
      /\ selection st' = List.last new (selection st)
      /\ sel_channelId (selection st') = sel_channelId (selection st)
      /\ nondecreasing_from (offsetOf (selection st)) (map offsetOf new)
      /\ (forall e, r = Thrown e -> includes "FLOOD_WAIT" e = false)).
  { intros e _.
    destruct (updateFloodWaitHistory_run true (parseInt_first e 300 * 1000 / 1000) wc)
      as (wd & Ed & Hd).
    destruct (precisionDelay_keeps (ofZ (parseInt_first e 300 * 1000)) wd)
      as (we & Ee & He).
    unfold mbind, St_bind. rewrite lift_run, Ed. cbn [fst snd].
    rewrite lift_run, Ee. cbn [fst snd].
    apply IH; [by rewrite He, Hd | done]. }
  unfold try_catch at 1. unfold mbind at 1, St_bind at 1. rewrite lift_run.
  change (initializeSpeedMonitor cl w) with (Ret tt, wa). cbn [fst snd].
  unfold mbind at 1, St_bind at 1. rewrite lift_run.
  change (modify_config
            (set_outputFolder (Path.join [cwd; "export"%string; string_of_Z channelId])) wa)
    with (Ret tt, wb). cbn [fst snd].
  unfold mbind at 1, St_bind at 1. rewrite lift_run, Epage. cbn [fst snd].
  destruct rp as [[page|]|e|].
  - (* a page was processed *)
    destruct (fetchAndProcessPage_page fuel channelId offsetId wb page wc Hb Epage)
      as (Hfiltered & Hne & Habove).
    destruct (page_maxId offsetId page Hfiltered Hne Habove) as (m & Hmax & Hm).
    rewrite Hmax.
    unfold mbind at 1, St_bind at 1, updateLastSelection at 1, modify at 1.
    cbn [fst snd to_json].
    set (stored := {| sel_messageOffsetId := Some m;
                      sel_channelId := sel_channelId (selection st) |}).
    set (st1 := {| selection := stored; written := written st ++ [stored] |}).
    destruct (showProgress_run (Z.of_nat (length (pg_processed page))) wc)
      as (wd & Ed & Hd).
    unfold mbind at 1, St_bind at 1. rewrite lift_run, Ed. cbn [fst snd].
    destruct (Z.of_nat (length (pg_messages page)) =? MESSAGE_LIMIT_CONFIG).
    + destruct (precisionDelay_keeps RATE_LIMIT_DELAY_CONFIG wd) as (we & Ee & He).
      unfold mbind at 1, St_bind at 1. rewrite lift_run, Ee. cbn [fst snd].
      destruct (IH channelId m st1 we) as (r & st' & w' & new & E & Hw & Hs & Hch & Hnd & Hfl).
      { by rewrite He, Hd. }
      { done. }
      rewrite E. exists r, st', w', (stored :: new).
      split.
      { destruct r as [[]|e|]; try done. by rewrite (Hfl e eq_refl). }
      split; [by rewrite Hw; simpl; rewrite <- app_assoc|].
      split; [rewrite Hs; destruct new as [|y n]; [done|]; exact (last_cons_default n y _ _)|].
      split; [by rewrite Hch|].
      split; [|exact Hfl].
      simpl. split; [unfold offsetOf at 2; simpl; lia | exact Hnd].
    + destruct (showProgress_run (Z.of_nat (length (pg_processed page))) wd)
        as (we & Ee & He).
      rewrite lift_run, Ee. cbn [fst snd].
      exists (Ret tt), st1, we, [stored]. split; [done|]. split; [done|].
      split; [done|]. split; [done|]. split; [|done].
      simpl. split; [unfold offsetOf at 2; simpl; lia | done].
  - (* the source has no more messages *)
    exists (Ret tt), st, wc, []. rewrite app_nil_r. by repeat split.
  - (* the page failed *)
    destruct (includes "FLOOD_WAIT" e) eqn:Eflood.
    + by apply Hrestart.
    + exists (Thrown e), st, wc, []. rewrite app_nil_r. repeat split; try done.
      by intros ? [= <-].
  - exists Diverged, st, wc, []. rewrite app_nil_r. by repeat split.
Qed.

Lemma lift_modify_self f (st : Store) (w : World R) :
  lift (modify_self f) (st, w) = (Ret tt, (st, set_self (f (self w)) w)).
Proof. reflexivity. Qed.

(** [configureDownload] for the channel of the stored offset, in a full
    download: the stored offset is written back, and returned. *)
Lemma configureDownload_run choice st (w : World R) :
  ch_mode choice = Full ->
  sel_channelId (selection st) = Some (ch_channelId choice) ->
  exists w1,
    let stored := {| sel_messageOffsetId := Some (offsetOf (selection st));
                     sel_channelId := Some (ch_channelId choice) |} in
    configureDownload choice (st, w)
    = (Ret (ch_channelId choice, offsetOf (selection st)),
       ({| selection := stored; written := written st ++ [stored] |}, w1))
    /\ selectiveMode (config (self w1)) = false.
Proof.
  intros Hfull Hchannel. eexists. cbv zeta.
  unfold configureDownload, modify_config.
  unfold mbind at 1, St_bind at 1. rewrite lift_modify_self.
  unfold mbind at 1, St_bind at 1, getLastSelection at 1, gets at 1. cbn [fst snd].
  rewrite Hchannel, bool_decide_true by done.
  unfold mbind at 1, St_bind at 1, updateLastSelection at 1, modify at 1.
  cbn [fst snd to_json].
  split; [reflexivity|]. simpl. by rewrite Hfull.
Qed.

(** One round of [continuousMode] on the channel of the stored offset, in
    a full download. *)
Lemma continuousRound_writes fuel choice st (w : World R) :
  ch_mode choice = Full ->
  sel_channelId (selection st) = Some (ch_channelId choice) ->
  exists r st' w' new,
    continuousRound cl fl mimeDB cwd fuel choice (st, w) = (r, (st', w'))
    /\ written st' = written st ++ new
    /\ selection st' = List.last new (selection st)
    /\ sel_channelId (selection st') = Some (ch_channelId choice)
    /\ nondecreasing_from (offsetOf (selection st)) (map offsetOf new).
Proof.
  intros Hfull Hchannel.
  unfold continuousRound, modify_counters, modify_flood, modify_fileRef.
  do 4 (unfold mbind at 1, St_bind at 1; rewrite lift_modify_self).
  unfold mbind at 1, St_bind at 1.
  match goal with |- context [configureDownload choice (st, ?x)] =>
    generalize x; intros w0
  end.
  destruct (configureDownload_run choice st w0 Hfull Hchannel) as (w1 & Econf & Hmode).
  cbv zeta in Econf.
  set (stored := {| sel_messageOffsetId := Some (offsetOf (selection st));
                    sel_channelId := Some (ch_channelId choice) |}) in *.
  set (st1 := {| selection := stored; written := written st ++ [stored] |}) in *.
  rewrite Econf. cbn [fst snd].
  unfold mbind at 1, St_bind at 1. rewrite lift_run.
  destruct (call (cl_getDialogName cl (ch_channelId choice)) w1) as [[name|msg|] w2] eqn:Ecall.
  - cbn [fst snd].
    destruct (downloadChannel_writes fuel (ch_channelId choice) (offsetOf (selection st))
                st1 w2)
      as (r & st' & w' & new & E & Hw & Hs & Hch & Hnd & _).
    { by rewrite (keeps_lift_run _ _ _ _ (keeps_call _) Ecall). }
    { done. }
    rewrite E. exists r, st', w', (stored :: new).
    split; [done|].
    split; [by rewrite Hw; simpl; rewrite <- app_assoc|].
    split; [rewrite Hs; destruct new as [|y n]; [done|]; exact (last_cons_default n y _ _)|].
    split; [by rewrite Hch|].
    simpl. split; [done|exact Hnd].
  - cbn [fst snd]. exists (Thrown msg), st1, w2, [stored]. by repeat split.
  - cbn [fst snd]. exists Diverged, st1, w2, [stored]. by repeat split.
Qed.

(** C4, as the code has it.  The rounds of [continuousMode] are full
    downloads of the channel whose offset is stored, each in a process of
    its own and whatever the outcome of the round before, and the source
    answers a request for the messages after an offset with messages above
    it.  Then the offsets written to the checkpoint store never go down,
    and start at the stored offset or above. *)
Theorem checkpoint_nondecreasing fuel channelId (rounds : list (Choice * World R)) st :
  sel_channelId (selection st) = Some channelId ->
  Forall (fun round => ch_channelId round.1 = channelId /\ ch_mode round.1 = Full) rounds ->
  exists new,
    written (afterRounds cl fl mimeDB cwd fuel rounds st) = written st ++ new
    /\ nondecreasing_from (offsetOf (selection st)) (map offsetOf new).
Proof.
  intros Hchannel Hrounds.
  assert (H : exists new,
    written (afterRounds cl fl mimeDB cwd fuel rounds st) = written st ++ new
    /\ nondecreasing_from (offsetOf (selection st)) (map offsetOf new)
    /\ True); [|destruct H as (new & ? & ? & _); by exists new].
  revert st Hchannel. induction Hrounds as [|[choice w] rounds [Hc Hfull] _ IH];
    intros st Hchannel.
  { exists []. simpl. by rewrite app_nil_r. }
  simpl in Hc, Hfull. subst channelId.
  destruct (continuousRound_writes fuel choice st w Hfull Hchannel)
    as (r & st1 & w1 & new1 & E & Hw & Hs & Hch & Hnd).
  destruct (IH st1 Hch) as (new2 & Hw2 & Hnd2 & _).
  exists (new1 ++ new2). cbn [afterRounds]. rewrite E. cbn [fst snd].
  split; [by rewrite Hw2, Hw, <- app_assoc|]. split; [|done].
  rewrite map_app. apply nondecreasing_from_app; [done|].
  replace (List.last (map offsetOf new1) (offsetOf (selection st)))
    with (offsetOf (selection st1)); [done|].
  rewrite Hs. clear. generalize (selection st). induction new1 as [|x l IHl]; intros d; [done|].
  destruct l as [|y l]; [done|]. exact (IHl d).
Qed.
End WithClient.

(** The simulated source answers with messages above the offset. *)
Lemma Sim_source : ascending_source Sim.client.
Proof.
  intros channelId limit offsetId reverse r msgs r'. simpl.
  destruct (Sim.pop (Sim.listFaults r)) as [fault rest].
  destruct fault as [[msg|]|]; simpl; intros [= <- _]; try done.
  all: apply Forall_take, Forall_forall; intros m Hm.
  all: apply list_elem_of_In, List.filter_In in Hm as [_ Hm]; by apply Z.ltb_lt in Hm.
Qed.

(** C4, as stated, fails on the code.  A full download of the channel
    100 writes the offsets 0 and 3.  The process is started again for the
    channel 200: [configureDownload] finds the offset of another channel
    and writes 0. *)
Lemma checkpoint_reset_counterexample :
  let st := afterRounds Sim.client Sim.exact Sim.noMime "/app" 30
              [(Scenario.fullDownload 100, Scenario.threeMessages);
               (Scenario.fullDownload 200, Scenario.threeMessages)]
              Scenario.emptyStore in
  map sel_messageOffsetId (written st) = [Some 0; Some 3; Some 0; Some 3]
  /\ map sel_channelId (written st) = [Some 100; Some 100; Some 200; Some 200]
  /\ ~ nondecreasing_from 0 (map offsetOf (written st)).
Proof.
  vm_compute. split; [done|]. split; [done|]. intros (_ & _ & H & _). by apply H.
Qed.

(** The theorem at two processes that download the channel 100 in full,
    the first one resuming after the message 1. *)
Lemma checkpoint_nondecreasing_witness :
  exists new,
    written (afterRounds Sim.client Sim.exact Sim.noMime "/app" 30
               [(Scenario.fullDownload 100, Scenario.threeMessages);
                (Scenario.fullDownload 100, Scenario.threeMessages)]
               Scenario.resumed)
    = written Scenario.resumed ++ new
    /\ nondecreasing_from (offsetOf (selection Scenario.resumed)) (map offsetOf new).
Proof.
  apply (checkpoint_nondecreasing Sim.client Sim.exact Sim.noMime "/app" Sim_source 30 100).
  - reflexivity.
  - repeat constructor.
Defined.

Example resumed_rounds :
  map sel_messageOffsetId
    (written (afterRounds Sim.client Sim.exact Sim.noMime "/app" 30
                [(Scenario.fullDownload 100, Scenario.threeMessages);
                 (Scenario.fullDownload 100, Scenario.threeMessages)]
                Scenario.resumed))
  = [Some 1; Some 3; Some 3].
Proof. vm_compute. reflexivity. Qed.

(** A download from the message 10 on, of a channel whose messages
    after the stored offset are all below 10: no message is kept,
    [Math.max()] of nothing is [-Infinity], and [null] is written.  The
    next process reads it as 0. *)
Example selective_round_writes_null :
  map sel_messageOffsetId
    (written (afterRounds Sim.client Sim.exact Sim.noMime "/app" 30
                [(Scenario.fromMessage 100 10, Scenario.threeMessages);
                 (Scenario.fullDownload 100, Scenario.threeMessages)]
                Scenario.resumed))
  = [Some 1; None; Some 0; Some 3].
Proof. vm_compute. reflexivity. Qed.

End CheckpointSpec.

(* ===================================================================== *)
(** * Further properties *)
(* ===================================================================== *)

(** ** The media helper *)

Module HelperSpec.
Import Js Path FileNames PathFacts JoinFacts Fs Helper HelperFacts MediaPathSpec Kinds.
Local Open Scope list_scope.
Local Open Scope Z_scope.

Lemma filter_alnum_fixed (l : chars) :
  Forall (fun c => is_alnum c = true) l -> List.filter is_alnum l = l.
Proof.
  induction 1 as [|c l Hc _ IH]; simpl; [done|]. by rewrite Hc, IH.
Qed.

Lemma filter_alnum_all (l : chars) :
  Forall (fun c => is_alnum c = true) (List.filter is_alnum l).
Proof.
  induction l as [|c l IH]; simpl; [constructor|].
  destruct (is_alnum c) eqn:E; [by constructor | exact IH].
Qed.

(** X1.  [filterString] keeps the letters and digits of its argument and
    nothing else: every character of the result is a letter or a digit (so
    the folder name that [getMediaPath] makes of a media type holds no path
    separator and no dot), a string of letters and digits is returned as it
    is, and filtering twice is filtering once. *)
Theorem filterString_alnum (s : string) :
  Forall (fun c => is_alnum c = true) (to_chars (filterString s))
  /\ (slash ∉ to_chars (filterString s))
  /\ (dot ∉ to_chars (filterString s))
  /\ filterString (filterString s) = filterString s
  /\ (Forall (fun c => is_alnum c = true) (to_chars s) -> filterString s = s).
Proof.
  unfold filterString. rewrite !to_of_chars.
  pose proof (filter_alnum_all (to_chars s)) as Hall.
  split; [exact Hall|].
  split; [intros H; by apply (proj1 (Forall_forall _ _) Hall) in H|].
  split; [intros H; by apply (proj1 (Forall_forall _ _) Hall) in H|].
  split; [by rewrite (filter_alnum_fixed _ Hall)|].
  intros H. by rewrite (filter_alnum_fixed _ H), of_to_chars.
Qed.

Section WithMimeDB.
Variable mimeDB : string -> option (option (list string)).

(** X2.  [getMediaType] falls off its end, and answers [undefined],
    exactly for a message whose media is of none of the kinds it knows and
    that is no sticker, dice or album.  For such a message [getMediaPath]
    throws the [TypeError] of [filterString(undefined)] and leaves the file
    system as it is. *)
Theorem getMediaType_undefined (m : Message) :
  (getMediaType (Some m) = None <-> noKnownKind m = true)
  /\ (noKnownKind m = true ->
      forall out fs,
        getMediaPath mimeDB (Some m) out fs
        = (Thrown "TypeError: Cannot read properties of undefined (reading 'replace')", fs)).
Proof.
  assert (Hiff : getMediaType (Some m) = None <-> noKnownKind m = true).
  { unfold getMediaType, noKnownKind. destruct (media m) as [md|].
    - destruct (webpage md), (poll md), (geo md), (contact md), (venue md), (game md),
        (invoice md), (geoLive md), (unsupported md), (sticker m), (dice m), (groupedId m);
        simpl; try (split; discriminate).
      destruct (photo md) as [ph|], (video md), (audio md), (voice md);
        simpl; try (split; discriminate).
      destruct (document md) as [doc|]; simpl; split; try discriminate; done.
    - destruct (sticker m), (dice m), (groupedId m); simpl; split; discriminate. }
  split; [exact Hiff|].
  intros Hkind out fs. pose proof (proj2 Hiff Hkind) as Htype.
  unfold noKnownKind in Hkind. unfold getMediaPath.
  destruct (media m) as [md|] eqn:Hm; [|discriminate].
  rewrite Htype. unfold sourceFileName.
  destruct (document md) as [doc|];
    [simpl in Hkind; by rewrite andb_false_r in Hkind|].
  destruct (photo md) as [ph|];
    [simpl in Hkind; by rewrite !andb_false_r in Hkind|].
  destruct (video md);
    [simpl in Hkind; by rewrite !andb_false_r in Hkind|].
  destruct (audio md);
    [simpl in Hkind; by rewrite !andb_false_r in Hkind|].
  reflexivity.
Qed.

(** X3.  When [getMediaPath] returns a path, the folder of that path
    exists afterwards; a folder that was there is left as it was, and no
    other entry of the file system is touched. *)
Theorem getMediaPath_creates_folder m md out (fs : FS) p fs' :
  media m = Some md ->
  getMediaPath mimeDB (Some m) out fs = (Ret p, fs') ->
  existsSync fs' (Path.dirname p) = true
  /\ (forall q, q <> Path.dirname p -> fs' !! q = fs !! q)
  /\ (is_Some (fs !! Path.dirname p) -> fs' = fs).
Proof.
  intros Hm G.
  destruct (getMediaPath_Ret mimeDB _ _ _ _ _ _ Hm G) as (f & folder & _ & _ & ->).
  unfold existsSync, mkdirSync.
  destruct (fs !! Path.dirname p) as [n|] eqn:E; simpl.
  - rewrite E. simpl. split; [done|]. by split.
  - split; [apply bool_decide_eq_true_2; rewrite lookup_insert_eq; eauto|].
    split; [intros q Hq; by apply lookup_insert_ne | by intros [? ?]].
Qed.
End WithMimeDB.

Lemma getMediaType_undefined_witness :
  getMediaPath DownloadChannel.Sim.noMime (Some (DownloadChannel.Scenario.unknownMedia 9))
    "/export/42" ∅
  = (Thrown "TypeError: Cannot read properties of undefined (reading 'replace')"%string, ∅).
Proof.
  apply (getMediaType_undefined DownloadChannel.Sim.noMime
           (DownloadChannel.Scenario.unknownMedia 9)).
  reflexivity.
Defined.

Lemma getMediaPath_creates_folder_witness :
  let fs' := (getMediaPath DownloadChannel.Sim.noMime
                (Some (DownloadChannel.Scenario.reportNamed 7)) "/export/42" ∅).2 in
  existsSync fs' (Path.dirname "/export/42/pdf/report_7.pdf") = true
  /\ (forall q, q <> Path.dirname "/export/42/pdf/report_7.pdf" -> fs' !! q = (∅ : FS) !! q)
  /\ (is_Some ((∅ : FS) !! Path.dirname "/export/42/pdf/report_7.pdf") -> fs' = ∅).
Proof.
  intros fs'.
  eapply (getMediaPath_creates_folder DownloadChannel.Sim.noMime
            (DownloadChannel.Scenario.reportNamed 7) _ "/export/42" ∅
            "/export/42/pdf/report_7.pdf" fs').
  - reflexivity.
  - unfold fs'. vm_compute. reflexivity.
Defined.

End HelperSpec.
